(** * ghira: GitHub issues reconciled into Jira tickets

    A shallow embedding of the reconciliation pipeline of
    [shiftstack/ghira] (main.go), of the vendored [bugwatcher] packages
    it calls ([pkg/query], [pkg/team]) and of the throttling HTTP client
    ([pkg/jiraclient]), with the properties of the specification stated
    over it.

    main.go holds two revisions of the program; the embedding follows
    the later one (lines 298-595), in which the producers are goroutines
    that feed channels and the roster comes from [pkg/team].

    Conventions.
    - A Go [string] is a Rocq [string] (a sequence of bytes).
    - A Go [int] is a [Z]; where the code computes with it, the 64-bit
      wrap-around is written out ([wrap64]).
    - A pointer that may be nil is an [option]; dereferencing [None] is
      the outcome [Panicked].
    - A goroutine feeding a channel is the finite list of values it sends
      together with the way it ends ([Ending]): the channel is closed,
      the goroutine returns without closing it, the process exits
      ([log.Fatalf]), or the goroutine is still waiting for the network.
    - The remote services are scripts: the list of replies the HTTP layer
      hands back, one per call.
    - The process is the state of its four goroutines (the fetcher, the
      filter stage, the search, and main), moved by a schedule: a
      goroutine takes a step of its own, or two goroutines meet at one of
      the three unbuffered channels ([main]). *)

From Stdlib Require Import ZArith Ascii String List Bool Lia.
From stdpp Require Import base option list strings gmap.

Local Open Scope Z_scope.

(** ** Go integers *)

Module GoInt.

Definition min_int : Z := - 2 ^ 63.
Definition max_int : Z := 2 ^ 63 - 1.

(** Two's-complement reduction of a mathematical integer to [int64]. *)
Definition wrap64 (z : Z) : Z := (z + 2 ^ 63) mod 2 ^ 64 - 2 ^ 63.

Definition is_int (z : Z) : Prop := min_int <= z <= max_int.

Definition add (a b : Z) : Z := wrap64 (a + b).
Definition mul (a b : Z) : Z := wrap64 (a * b).

End GoInt.

(** ** Bytes and strings *)

Module Bytes.

Definition code (c : ascii) : Z := Z.of_N (N_of_ascii c).

(** ['0' <= c && c <= '9'] *)
Definition is_digit (c : ascii) : bool := (48 <=? code c) && (code c <=? 57).

(** [c - '0'] for a digit. *)
Definition digit_val (c : ascii) : Z := code c - 48.

(** [byte('0' + d)] *)
Definition digit_char (d : Z) : ascii := ascii_of_N (Z.to_N (48 + d)).

(** Go's regexp [\s] is the class [[\t\n\f\r ]]. *)
Definition is_space (c : ascii) : bool :=
  let n := code c in
  (n =? 9) || (n =? 10) || (n =? 12) || (n =? 13) || (n =? 32).

(** [strings.HasPrefix] together with [strings.TrimPrefix]: the rest of
    [s] after the prefix [p], when [s] starts with [p]. *)
Fixpoint strip_prefix (p s : string) : option string :=
  match p with
  | EmptyString => Some s
  | String a p' =>
      match s with
      | EmptyString => None
      | String b s' => if Ascii.eqb a b then strip_prefix p' s' else None
      end
  end.

(** The longest prefix of digits of [s], and what follows it. *)
Fixpoint span_digits (s : string) : string * string :=
  match s with
  | EmptyString => (EmptyString, EmptyString)
  | String c s' =>
      if is_digit c
      then let '(ds, r) := span_digits s' in (String c ds, r)
      else (EmptyString, s)
  end.

Fixpoint all_digits (s : string) : bool :=
  match s with
  | EmptyString => true
  | String c s' => is_digit c && all_digits s'
  end.

End Bytes.

(** ** strconv *)

Module strconv.
Import Bytes GoInt.

(** [strconv.NumError.Err] is one of [ErrSyntax] and [ErrRange]. *)
Inductive NumError := ErrSyntax | ErrRange.

(** [formatBits] in base 10: the digits of [u], most significant first,
    produced from the least significant one by division, in front of
    [acc].  A [uint64] has at most 20 decimal digits; [fuel] bounds the
    loop. *)
Fixpoint formatBits (fuel : nat) (u : Z) (acc : string) : string :=
  match fuel with
  | O => acc
  | S f =>
      if u <? 10 then String (digit_char u) acc
      else formatBits f (u / 10) (String (digit_char (u mod 10)) acc)
  end.

(** [strconv.Itoa]: [FormatInt(int64(i), 10)]. *)
Definition Itoa (i : Z) : string :=
  if i <? 0 then String "-" (formatBits 20 (- i) EmptyString)
  else formatBits 20 i EmptyString.

(** The fast path of [Atoi]: [n = n*10 + int(ch)] over the bytes, a
    syntax error at the first byte that is not a digit. *)
Fixpoint atoi_fast (s : string) (n : Z) : option Z :=
  match s with
  | EmptyString => Some n
  | String ch s' =>
      if is_digit ch then atoi_fast s' (n * 10 + digit_val ch) else None
  end.

Definition maxUint64 : Z := 2 ^ 64 - 1.

(** The loop of [ParseUint(s, 10, 64)]. *)
Fixpoint parseUint_loop (s : string) (n : Z) : Z * option NumError :=
  match s with
  | EmptyString => (n, None)
  | String c s' =>
      if negb (is_digit c) then (0, Some ErrSyntax)
      else if maxUint64 / 10 + 1 <=? n then (maxUint64, Some ErrRange)
      else
        let n10 := n * 10 in
        let n1 := (n10 + digit_val c) mod 2 ^ 64 in
        if n1 <? n10 then (maxUint64, Some ErrRange)
        else parseUint_loop s' n1
  end.

Definition ParseUint (s : string) : Z * option NumError :=
  match s with
  | EmptyString => (0, Some ErrSyntax)
  | _ => parseUint_loop s 0
  end.

(** [ParseInt(s, 10, 0)] on a 64-bit platform. *)
Definition ParseInt (s : string) : Z * option NumError :=
  match s with
  | EmptyString => (0, Some ErrSyntax)
  | String c0 s' =>
      let neg := Ascii.eqb c0 "-" in
      let body := if Ascii.eqb c0 "+" || neg then s' else s in
      match ParseUint body with
      | (_, Some ErrSyntax) => (0, Some ErrSyntax)
      | (un, _) =>
          let cutoff := 2 ^ 63 in
          if negb neg && (cutoff <=? un) then (cutoff - 1, Some ErrRange)
          else if neg && (cutoff <? un) then (- cutoff, Some ErrRange)
          else (if neg then - un else un, None)
      end
  end.

(** [strconv.Atoi]: the pair [(n, err)] it returns. *)
Definition Atoi (s : string) : Z * option NumError :=
  let sLen := Z.of_nat (String.length s) in
  if (0 <? sLen) && (sLen <? 19) then
    match s with
    | EmptyString => (0, Some ErrSyntax)
    | String c0 s' =>
        let signed := Ascii.eqb c0 "-" || Ascii.eqb c0 "+" in
        let body := if signed then s' else s in
        match body with
        | EmptyString => (0, Some ErrSyntax)
        | _ =>
            match atoi_fast body 0 with
            | None => (0, Some ErrSyntax)
            | Some n => (if Ascii.eqb c0 "-" then - n else n, None)
            end
        end
    end
  else ParseInt s.

End strconv.

(** ** regexp: the two patterns of main.go *)

Module regexp.
Import Bytes.

Definition dquote : ascii := ascii_of_nat 34.

(** [GH-orc-(\d+): ] tried at the start of [s].  [\d+] is greedy and
    what follows it, [:], is not a digit: the only run of digits that can
    match is the longest one. *)
Definition ghIssueNumber_at (s : string) : option string :=
  match strip_prefix "GH-orc-" s with
  | None => None
  | Some r =>
      let '(ds, r') := span_digits r in
      match ds, strip_prefix ": " r' with
      | String _ _, Some _ => Some ds
      | _, _ => None
      end
  end.

(** [ghIssueNumberRegex.FindStringSubmatch(s)]: the leftmost match, as
    the slice [[whole match; group 1]], or the nil slice. *)
Fixpoint ghIssueNumberRegex_FindStringSubmatch (s : string) : list string :=
  match ghIssueNumber_at s with
  | Some ds => ["GH-orc-" +:+ ds +:+ ": "; ds]
  | None =>
      match s with
      | EmptyString => []
      | String _ s' => ghIssueNumberRegex_FindStringSubmatch s'
      end
  end.

(** [>; rel="next"], the text after the group in [linkHeaderRegex]. *)
Definition rel_next : string :=
  ">; rel=" +:+ String dquote ("next" +:+ String dquote EmptyString).

(** [(\S+)] followed by [rel_next], tried at the start of [s]: the group
    takes one more byte as long as it can (greedy), and gives bytes back
    until [rel_next] follows (backtracking). *)
Fixpoint nonspace_then_rel_next (s : string) : option string :=
  match s with
  | EmptyString => None
  | String c s' =>
      if is_space c then None
      else
        match nonspace_then_rel_next s' with
        | Some g => Some (String c g)
        | None =>
            match strip_prefix rel_next s' with
            | Some _ => Some (String c EmptyString)
            | None => None
            end
        end
  end.

(** [linkHeaderRegex.FindStringSubmatch(s)] for [<(\S+)>; rel="next"]. *)
Fixpoint linkHeaderRegex_FindStringSubmatch (s : string) : list string :=
  match s with
  | EmptyString => []
  | String c s' =>
      match (if Ascii.eqb c "<" then nonspace_then_rel_next s' else None) with
      | Some g => ["<" +:+ g +:+ rel_next; g]
      | None => linkHeaderRegex_FindStringSubmatch s'
      end
  end.

End regexp.

(** ** net/http and time *)

Module http.

Definition StatusOK : Z := 200.
Definition StatusAccepted : Z := 202.
Definition StatusNoContent : Z := 204.
Definition StatusTooManyRequests : Z := 429.

(** [textproto.CanonicalMIMEHeaderKey] on a key made of letters and
    hyphens: upper case at the start and after a hyphen, lower case
    elsewhere. *)
Definition upper (c : ascii) : ascii :=
  let n := nat_of_ascii c in
  if (97 <=? n)%nat && (n <=? 122)%nat then ascii_of_nat (n - 32) else c.

Definition lower (c : ascii) : ascii :=
  let n := nat_of_ascii c in
  if (65 <=? n)%nat && (n <=? 90)%nat then ascii_of_nat (n + 32) else c.

Fixpoint canonical (up : bool) (s : string) : string :=
  match s with
  | EmptyString => EmptyString
  | String c s' =>
      String (if up then upper c else lower c) (canonical (Ascii.eqb c "-") s')
  end.

Definition CanonicalMIMEHeaderKey (s : string) : string := canonical true s.

(** [http.Header], one value per canonical key. *)
Abbreviation Header := (gmap string string).

(** [h.Get(key)]: the value, or the empty string. *)
Definition Header_Get (h : Header) (key : string) : string :=
  default EmptyString (h !! CanonicalMIMEHeaderKey key).

Record Response := mkResponse {
  StatusCode : Z;
  Headers : Header
}.

Record Request := mkRequest {
  Method : string;
  URL : string
}.

(** A transport error ([error] of [c.Client.Do]). *)
Definition Error : Type := string.

End http.

Module time.
(** [time.Duration] counts nanoseconds in an [int64]. *)
Definition Second : Z := 1000000000.
End time.

(** ** pkg/jiraclient: the throttling HTTP client *)

Module jiraclient.
Import http.

(** What one call of the wrapped [c.Client.Do(req)] hands back: the pair
    [(res, err)], [res] being a pointer. *)
Definition TransportReply : Type := option Response * option Error.

(** What [Do] does, in order. *)
Inductive Event :=
| Sent (req : Request)
| Slept (d : Z).

(** How a call of [Do] ends. *)
Inductive DoOutcome :=
| DoReturned (res : option Response) (err : option Error)
| DoNilDereference
| DoAwaitingTransport.

(** The duration computed at lines 20-25: one second, replaced by
    [time.Duration(n) * time.Second] under the test [err != nil]. *)
Definition throttle_wait (res : Response) : Z :=
  let wait := GoInt.mul time.Second 1 in
  let retryAfter := Header_Get (Headers res) "retry-after" in
  if String.eqb retryAfter EmptyString then wait
  else
    match strconv.Atoi retryAfter with
    | (n, Some _) => GoInt.mul n time.Second
    | (_, None) => wait
    end.

(** [throttlingHttpClient.Do]: the wrapped client is the script of its
    replies; the recursive call of line 28 consumes the next reply. *)
Fixpoint Do (transport : list TransportReply) (req : Request)
  : list Event * DoOutcome :=
  match transport with
  | [] => ([Sent req], DoAwaitingTransport)
  | (res, err) :: rest =>
      match res with
      | None => ([Sent req], DoNilDereference)
      | Some r =>
          if StatusCode r =? StatusTooManyRequests then
            let wait := throttle_wait r in
            let '(evs, out) := Do rest req in
            (Sent req :: Slept wait :: evs, out)
          else ([Sent req], DoReturned res err)
      end
  end.

(** [time.Sleep(d)] returns at once when [d <= 0]. *)
Definition pause (e : Event) : Z :=
  match e with
  | Sent _ => 0
  | Slept d => Z.max 0 d
  end.

(** Time spent sleeping, in nanoseconds. *)
Definition slept (evs : list Event) : Z :=
  fold_right (fun e acc => pause e + acc) 0 evs.

Definition requests (evs : list Event) : list Request :=
  omap (fun e => match e with Sent r => Some r | Slept _ => None end) evs.

(** The durations handed to [time.Sleep], in order. *)
Definition pauses (evs : list Event) : list Z :=
  omap (fun e => match e with Slept d => Some d | Sent _ => None end) evs.

(** Replies to try [Do] on: throttled with a [Retry-After] header,
    throttled without one, and a success. *)
Definition throttled (retryAfter : string) : Response :=
  mkResponse StatusTooManyRequests {[ "Retry-After" := retryAfter ]}.

Definition throttled_bare : Response := mkResponse StatusTooManyRequests ∅.

Definition ok_response : Response := mkResponse StatusOK ∅.

End jiraclient.

(** ** Channels fed by a goroutine *)

Inductive Ending :=
| Closed                      (* close(ch) *)
| LeftOpen                    (* the goroutine returned, ch never closed *)
| ProcessExit (status : Z)    (* log.Fatalf: os.Exit(1) *)
| AwaitingReply.              (* the script of replies ran out *)

Record Stream (A : Type) := mkStream {
  sent : list A;
  ending : Ending
}.
Arguments mkStream {A} _ _.
Arguments sent {A} _.
Arguments ending {A} _.

(** Whether [for x := range ch] over the stream reaches the code after
    the loop. *)
Definition terminated {A} (s : Stream A) : bool :=
  match ending s with
  | Closed => true
  | _ => false
  end.

(** ** pkg/team *)

Module team.

Record Leave := mkLeave { Start : Z; End_ : Z }.

Record Person := mkPerson {
  Kerberos : string;
  Github : string;
  Jira : string;
  Slack : string;
  TeamMember : bool;
  BugTriage : bool;
  leave : list Leave
}.

(** [PersonByGithubHandle]: the first person in the slice with the given
    Github handle; [None] stands for [(Person{}, false)]. *)
Fixpoint PersonByGithubHandle (people : list Person) (githubHandle : string)
  : option Person :=
  match people with
  | [] => None
  | p :: rest =>
      if String.eqb (Github p) githubHandle then Some p
      else PersonByGithubHandle rest githubHandle
  end.

(** [PersonByJiraName]: the first person in the slice with the given
    Jira name; [None] stands for [(Person{}, false)]. *)
Fixpoint PersonByJiraName (people : list Person) (jiraName : string)
  : option Person :=
  match people with
  | [] => None
  | p :: rest =>
      if String.eqb (Jira p) jiraName then Some p
      else PersonByJiraName rest jiraName
  end.

(** [Person.IsAvailable]: a [time.Time] is an instant on the integer
    line; [After] and [Before] are strict. *)
Fixpoint available (leaves : list Leave) (t : Z) : bool :=
  match leaves with
  | [] => true
  | l :: rest =>
      if (t <? End_ l) && (Start l <? t) then false else available rest t
  end.

Definition IsAvailable (p : Person) (t : Z) : bool := available (leave p) t.

(** An entry of the team file, under a Kerberos id. *)
Record TeamEntry := mkTeamEntry {
  entry_BugTriage : bool;
  entry_Leave : list Leave
}.

(** The body of the loop of [Load] (lines 58-73) for one person. *)
Definition load_person (team : gmap string TeamEntry) (p : Person) : Person :=
  let slack := "@" +:+ Slack p in
  match team !! Kerberos p with
  | Some teamMember =>
      mkPerson (Kerberos p) (Github p) (Jira p) slack true
        (entry_BugTriage teamMember)
        (match entry_Leave teamMember with
         | [] => leave p
         | _ :: _ => entry_Leave teamMember
         end)
  | None =>
      mkPerson (Kerberos p) (Github p) (Jira p) slack (TeamMember p)
        (BugTriage p) (leave p)
  end.

(** [Load], given what the two YAML decoders return: the decoded value,
    or [None] for an error. *)
Definition Load (peopleYAML : option (list Person))
    (teamYAML : option (gmap string TeamEntry)) : list Person + string :=
  match peopleYAML with
  | None => inr "error decoding people"
  | Some people =>
      match teamYAML with
      | None => inr "error decoding team"
      | Some team => inl (map (load_person team) people)
      end
  end.

End team.

(** ** go-jira: the types the repository reads and writes *)

Module jira.

Record Status := mkStatus { Name : string }.

Record IssueFields := mkFields {
  Assignee : option string;          (* *User, its Name *)
  Description : string;
  Type_ : string;                    (* IssueType.Name *)
  Project : string;                  (* Project.Key *)
  Summary : string;
  Components : list string;          (* []*Component, their Name *)
  Fields_Status : option Status      (* *Status *)
}.

Record Issue := mkIssue {
  Key : string;
  Fields : option IssueFields        (* *IssueFields *)
}.

Record Transition := mkTransition {
  ID : string;
  Transition_Name : string
}.

(** [jira.Response]: the HTTP status and the paging fields of a search. *)
Record Response := mkResponse {
  StatusCode : Z;
  StartAt : Z;
  Total : Z
}.

Definition Error : Type := string.

(** [(issues, res, err)] of [client.Issue.SearchWithContext]: an error,
    or a page with its response. *)
Inductive SearchReply :=
| SearchFailed (err : Error)
| SearchPage (issues : list Issue) (res : Response).

(** [(issue, response, err)] of [client.Issue.Create]. *)
Record CreateReply := mkCreateReply {
  created : option Issue;
  create_response : option Response;
  create_err : option Error
}.

End jira.

(** ** pkg/query: SearchIssues *)

Module query.
Import jira.

(** A run of the goroutine of [SearchIssues]: the [StartAt] of every
    search it issued, and the channel it feeds. *)
Record SearchRun := mkSearchRun {
  search_requests : list Z;
  search_stream : Stream Issue
}.

Definition status_accepted (res : Response) : bool :=
  (StatusCode res =? http.StatusOK)
  || (StatusCode res =? http.StatusNoContent)
  || (StatusCode res =? http.StatusAccepted).

(** The loop [for last, total := 0, 1; last < total; { ... }] of lines
    16-37 and the [close(issueCh)] of line 38. *)
Fixpoint search_loop (replies : list SearchReply) (last total : Z) : SearchRun :=
  if negb (last <? total) then mkSearchRun [] (mkStream [] Closed)
  else
    match replies with
    | [] => mkSearchRun [last] (mkStream [] AwaitingReply)
    | SearchFailed _ :: _ => mkSearchRun [last] (mkStream [] (ProcessExit 1))
    | SearchPage issues res :: rest =>
        if status_accepted res then
          let r :=
            search_loop rest
              (GoInt.add (StartAt res) (Z.of_nat (length issues))) (Total res) in
          mkSearchRun (last :: search_requests r)
            (mkStream (issues ++ sent (search_stream r))
               (ending (search_stream r)))
        else mkSearchRun [last] (mkStream [] LeftOpen)
    end.

Definition SearchIssues (replies : list SearchReply) : SearchRun :=
  search_loop replies 0 1.

End query.

(** ** main.go *)

Module ghira.
Import team jira.

(** The anonymous struct of [Author] and [Assignee]. *)
Record Account := mkAccount {
  Handle : string;
  JiraUsername : string
}.

Record GithubIssue := mkGithubIssue {
  Title : string;
  Body : string;
  URL : string;
  Number : Z;
  Author : Account;
  Assignee : Account;
  Status : string;
  IsPR : option string               (* any: the raw sub-object, or nil *)
}.

Definition set_Author_JiraUsername (i : GithubIssue) (u : string) : GithubIssue :=
  mkGithubIssue (Title i) (Body i) (URL i) (Number i)
    (mkAccount (Handle (Author i)) u) (Assignee i) (Status i) (IsPR i).

Definition set_Assignee_JiraUsername (i : GithubIssue) (u : string) : GithubIssue :=
  mkGithubIssue (Title i) (Body i) (URL i) (Number i)
    (Author i) (mkAccount (Handle (Assignee i)) u) (Status i) (IsPR i).

(** *** AssignedToTheTeam (lines 355-375) *)

(** The body of [for i := range issues]: what is sent on [out]. *)
Fixpoint AssignedToTheTeam_loop (issues : list GithubIssue)
    (teamMembers : list Person) : list GithubIssue :=
  match issues with
  | [] => []
  | i :: rest =>
      let i :=
        match PersonByGithubHandle teamMembers (Handle (Author i)) with
        | Some author => set_Author_JiraUsername i (Jira author)
        | None => i
        end in
      match PersonByGithubHandle teamMembers (Handle (Assignee i)) with
      | Some assignee =>
          set_Assignee_JiraUsername i (Jira assignee)
            :: AssignedToTheTeam_loop rest teamMembers
      | None => AssignedToTheTeam_loop rest teamMembers
      end
  end.

(** The goroutine ranges over [issues] and closes [out] when the loop
    ends ([defer close(out)]); the loop ends when [issues] is closed. *)
Definition AssignedToTheTeam (issues : Stream GithubIssue)
    (teamMembers : list Person) : Stream GithubIssue :=
  mkStream (AssignedToTheTeam_loop (sent issues) teamMembers) (ending issues).

(** *** fetchGitHubIssues (lines 377-443) *)

(** One turn of the loop as the HTTP layer decides it: the request
    cannot be built, the transport fails, or a response arrives, with
    the result of decoding its body as a batch of issues. *)
Inductive Exchange :=
| RequestRejected
| TransportFailed
| Answered (res : http.Response) (decoded : option (list GithubIssue)).

Record FetchRun := mkFetchRun {
  fetch_requests : list string;      (* the URL of every [client.Do] *)
  fetch_stream : Stream GithubIssue
}.

(** Lines 434-439: the address of the next page. *)
Definition next_url (res : http.Response) : string :=
  let linkHeader := http.Header_Get (http.Headers res) "link" in
  if String.eqb linkHeader EmptyString then EmptyString
  else
    match regexp.linkHeaderRegex_FindStringSubmatch linkHeader with
    | _ :: g :: _ => g
    | _ => EmptyString
    end.

(** Lines 428-432: the entries of a batch that are sent on the channel. *)
Fixpoint send_issues (issueBatch : list GithubIssue) : list GithubIssue :=
  match issueBatch with
  | [] => []
  | issue :: rest =>
      match IsPR issue with
      | None => issue :: send_issues rest
      | Some _ => send_issues rest
      end
  end.

(** The loop [for url != ""] and the deferred [close(issueCh)]. *)
Fixpoint fetch_loop (exchanges : list Exchange) (url : string) : FetchRun :=
  if String.eqb url EmptyString then mkFetchRun [] (mkStream [] Closed)
  else
    match exchanges with
    | [] => mkFetchRun [url] (mkStream [] AwaitingReply)
    | RequestRejected :: _ => mkFetchRun [] (mkStream [] (ProcessExit 1))
    | TransportFailed :: _ => mkFetchRun [url] (mkStream [] (ProcessExit 1))
    | Answered res decoded :: rest =>
        if negb (http.StatusCode res =? 200) then
          mkFetchRun [url] (mkStream [] (ProcessExit 1))
        else
          match decoded with
          | None => mkFetchRun [url] (mkStream [] (ProcessExit 1))
          | Some issueBatch =>
              let r := fetch_loop rest (next_url res) in
              mkFetchRun (url :: fetch_requests r)
                (mkStream (send_issues issueBatch ++ sent (fetch_stream r))
                   (ending (fetch_stream r)))
          end
    end.

Definition githubRepository : string := "k-orc/openstack-resource-controller".

Definition fetchGitHubIssues (exchanges : list Exchange) : FetchRun :=
  fetch_loop exchanges
    ("https://api.github.com/repos/" +:+ githubRepository +:+ "/issues").

(** *** createJiraIssue (lines 445-471), the issue it builds *)

Definition new_fields (issue : GithubIssue) : IssueFields :=
  mkFields
    (Some (JiraUsername (Assignee issue)))
    ("Originally posted on Github: " +:+ URL issue
       +:+ String (ascii_of_nat 10) (String (ascii_of_nat 10) EmptyString)
       +:+ Body issue)
    "Task"
    "OSASINFRA"
    ("GH-orc-" +:+ strconv.Itoa (Number issue) +:+ ": " +:+ Title issue)
    ["ORC"]
    None.

Definition new_issue (issue : GithubIssue) : Issue :=
  mkIssue EmptyString (Some (new_fields issue)).

(** *** The calls of the reconciler on the tracker *)

Inductive Call :=
| GetTransitions (key : string)
| DoTransition (key id : string)
| Create (i : Issue).

Definition is_mutation (c : Call) : bool :=
  match c with
  | GetTransitions _ => false
  | DoTransition _ _ => true
  | Create _ => true
  end.

(** How the process stops before [main] returns: a panic, the
    [os.Exit] of a [log.Fatalf], or a request that gets no reply. *)
Inductive Stop :=
| Panicked
| Exited (status : Z)
| AwaitingNetwork.

(** A computation of the main goroutine: it returns, stops, or calls the
    tracker and goes on with the reply. *)
Inductive Prog (A : Type) : Type :=
| Ret (a : A)
| Halt (s : Stop)
| OnGetTransitions (key : string) (k : list Transition -> Prog A)
| OnDoTransition (key id : string) (k : option Error -> Prog A)
| OnCreate (i : Issue) (k : CreateReply -> Prog A).
Arguments Ret {A} _.
Arguments Halt {A} _.
Arguments OnGetTransitions {A} _ _.
Arguments OnDoTransition {A} _ _ _.
Arguments OnCreate {A} _ _.

Fixpoint bind {A B} (p : Prog A) (f : A -> Prog B) : Prog B :=
  match p with
  | Ret a => f a
  | Halt s => Halt s
  | OnGetTransitions key k => OnGetTransitions key (fun r => bind (k r) f)
  | OnDoTransition key id k => OnDoTransition key id (fun r => bind (k r) f)
  | OnCreate i k => OnCreate i (fun r => bind (k r) f)
  end.

Notation "x <- p ;; q" := (bind p (fun x => q))
  (at level 60, p at next level, right associativity).
Notation "p ;;; q" := (bind p (fun _ => q))
  (at level 60, right associativity).

(** [createJiraIssue]: [(jiraIssue, err)]; on an error the body of
    [response] is copied to stderr, which dereferences [response]. *)
Definition createJiraIssue (issue : GithubIssue)
  : Prog (option Issue * option Error) :=
  OnCreate (new_issue issue) (fun r =>
    match create_err r with
    | Some err =>
        match create_response r with
        | None => Halt Panicked
        | Some _ => Ret (None, Some err)
        end
    | None => Ret (created r, None)
    end).

(** *** The tracker-state index (lines 473-513) *)

Record knownIssue := mkKnownIssue {
  known_Key : string;
  known_Status : option jira.Status
}.

(** The body of [for issue := range query.SearchIssues(...)]. *)
Fixpoint alreadyKnown_loop (issues : list Issue)
    (alreadyKnown : gmap Z knownIssue) : Prog (gmap Z knownIssue) :=
  match issues with
  | [] => Ret alreadyKnown
  | issue :: rest =>
      match Fields issue with
      | None => Halt Panicked
      | Some fields =>
          match regexp.ghIssueNumberRegex_FindStringSubmatch (Summary fields) with
          | _ :: s1 :: _ =>
              match strconv.Atoi s1 with
              | (_, Some _) => Halt Panicked
              | (n, None) =>
                  alreadyKnown_loop rest
                    (<[n := mkKnownIssue (Key issue) (Fields_Status fields)]>
                       alreadyKnown)
              end
          | _ => alreadyKnown_loop rest alreadyKnown
          end
      end
  end.

(** *** The reconciler (lines 523-564) *)

(** Lines 527-538: the ids of the transitions named "Closed" and
    "To Do", as [(transitionTodo, transitionClosed)]. *)
Fixpoint pick_transitions (possibleTransitions : list Transition)
    (acc : string * string) : string * string :=
  match possibleTransitions with
  | [] => acc
  | v :: rest =>
      pick_transitions rest
        (if String.eqb (Transition_Name v) "Closed" then (fst acc, ID v)
         else if String.eqb (Transition_Name v) "To Do" then (ID v, snd acc)
         else acc)
  end.

(** [jiraIssue.Status.Name]: [Status] is a pointer. *)
Definition status_name (jiraIssue : knownIssue) : Prog string :=
  match known_Status jiraIssue with
  | None => Halt Panicked
  | Some st => Ret (Name st)
  end.

(** The body of the loop over the filtered issues.  The two [case]
    conditions are evaluated in order, [&&] from left to right. *)
Definition reconcile_issue (alreadyKnown : gmap Z knownIssue)
    (issue : GithubIssue) : Prog unit :=
  match alreadyKnown !! Number issue with
  | Some jiraIssue =>
      OnGetTransitions (known_Key jiraIssue) (fun possibleTransitions =>
        let '(transitionTodo, transitionClosed) :=
          pick_transitions possibleTransitions (EmptyString, EmptyString) in
        toClosed <-
          (if String.eqb (Status issue) "closed"
           then name <- status_name jiraIssue ;; Ret (negb (String.eqb name "Closed"))
           else Ret false) ;;
        if toClosed : bool then
          OnDoTransition (known_Key jiraIssue) transitionClosed (fun _ => Ret tt)
        else
          toTodo <-
            (if String.eqb (Status issue) "open"
             then name <- status_name jiraIssue ;; Ret (String.eqb name "Closed")
             else Ret false) ;;
          if toTodo : bool then
            OnDoTransition (known_Key jiraIssue) transitionTodo (fun _ => Ret tt)
          else Ret tt)
  | None =>
      createJiraIssue issue ;;; Ret tt
  end.

Fixpoint reconcile_loop (alreadyKnown : gmap Z knownIssue)
    (issues : list GithubIssue) : Prog unit :=
  match issues with
  | [] => Ret tt
  | issue :: rest =>
      reconcile_issue alreadyKnown issue ;;;
      reconcile_loop alreadyKnown rest
  end.

(** *** The roster of main (lines 480-492) *)

(** Lines 486-491. *)
Fixpoint team_members (people : list Person) : list Person :=
  match people with
  | [] => []
  | p :: rest =>
      if TeamMember p then p :: team_members rest else team_members rest
  end.

(** *** init (lines 567-595) *)

(** One test of [init]: [ex_usage] and the lines logged so far, after
    [if value == "" { ex_usage = true; log.Print(...) }]. *)
Definition check_env (value name : string) (st : bool * list string)
  : bool * list string :=
  if String.eqb value EmptyString
  then (true, snd st ++ ["Required environment variable not found: " +:+ name])
  else st.

(** [init] on the values of the four environment variables: the lines
    it logs, and the status it exits with, if it does. *)
Definition init (GITHUB_TOKEN JIRA_TOKEN PEOPLE TEAM : string)
  : list string * option Z :=
  let st := (false, []) in
  let st := check_env GITHUB_TOKEN "GITHUB_TOKEN" st in
  let st := check_env JIRA_TOKEN "JIRA_TOKEN" st in
  let st := check_env PEOPLE "PEOPLE" st in
  let st := check_env TEAM "TEAM" st in
  if fst st then (snd st ++ ["Exiting."], Some 64) else (snd st, None).

(** *** Running the main goroutine against a tracker *)

(** A tracker with state [S]: what it answers to each call, and its
    state afterwards. *)
Record Tracker (S : Type) := mkTracker {
  on_GetTransitions : string -> S -> list Transition * S;
  on_DoTransition : string -> string -> S -> option Error * S;
  on_Create : Issue -> S -> CreateReply * S
}.
Arguments mkTracker {S} _ _ _.
Arguments on_GetTransitions {S} _ _ _.
Arguments on_DoTransition {S} _ _ _ _.
Arguments on_Create {S} _ _ _.

Record Run (S A : Type) := mkRun {
  calls : list Call;
  final : S;
  result : A + Stop
}.
Arguments mkRun {S A} _ _ _.
Arguments calls {S A} _.
Arguments final {S A} _.
Arguments result {S A} _.

Definition after {S A} (c : Call) (r : Run S A) : Run S A :=
  mkRun (c :: calls r) (final r) (result r).

Fixpoint run {S A} (t : Tracker S) (p : Prog A) (s : S) : Run S A :=
  match p with
  | Ret a => mkRun [] s (inl a)
  | Halt st => mkRun [] s (inr st)
  | OnGetTransitions key k =>
      let '(r, s') := on_GetTransitions t key s in
      after (GetTransitions key) (run t (k r) s')
  | OnDoTransition key id k =>
      let '(r, s') := on_DoTransition t key id s in
      after (DoTransition key id) (run t (k r) s')
  | OnCreate i k =>
      let '(r, s') := on_Create t i s in
      after (Create i) (run t (k r) s')
  end.

(** The calls that change the tracker. *)
Definition mutations (cs : list Call) : list Call := filter (fun c => is_mutation c = true) cs.

(** *** The jira client *)

(** [jiraClient], as [jiraclient.NewWithToken] builds it: go-jira sends
    the request of every call through [throttlingHttpClient.Do].
    [wire call s] is what the wrapped transport replies, in order, to
    the requests of [call] when the tracker is in state [s]; [answers]
    is what the call hands back to [main] once [Do] has returned. *)
Record JiraClient (S : Type) := mkJiraClient {
  request_of : Call -> http.Request;
  wire : Call -> S -> list jiraclient.TransportReply;
  answers : Tracker S
}.
Arguments mkJiraClient {S} _ _ _.
Arguments request_of {S} _ _.
Arguments wire {S} _ _ _.
Arguments answers {S} _.

(** How [Do] ends for the request of [call]. *)
Definition through {S} (c : JiraClient S) (call : Call) (s : S)
  : jiraclient.DoOutcome :=
  snd (jiraclient.Do (wire c call s) (request_of c call)).

(** The next call of a computation, with what the computation goes on
    with, and the state of the tracker, when the call has returned. *)
Definition next_call {S A} (t : Tracker S) (p : Prog A) (s : S)
  : option (Call * Prog A * S) :=
  match p with
  | Ret _ => None
  | Halt _ => None
  | OnGetTransitions key k =>
      let '(r, s') := on_GetTransitions t key s in
      Some (GetTransitions key, k r, s')
  | OnDoTransition key id k =>
      let '(r, s') := on_DoTransition t key id s in
      Some (DoTransition key id, k r, s')
  | OnCreate i k =>
      let '(r, s') := on_Create t i s in
      Some (Create i, k r, s')
  end.

(** A call that [Do] does not return from: the nil dereference of line
    19 is a panic, which nothing recovers. *)
Definition cut_short {S A} (call : Call) (s : S) (stop : Stop) : Run S A :=
  mkRun [call] s (inr stop).

(** The main goroutine against the client: as [run], every call going
    through [Do]. *)
Fixpoint run_client {S A} (c : JiraClient S) (p : Prog A) (s : S) : Run S A :=
  match p with
  | Ret a => mkRun [] s (inl a)
  | Halt st => mkRun [] s (inr st)
  | OnGetTransitions key k =>
      match through c (GetTransitions key) s with
      | jiraclient.DoReturned _ _ =>
          let '(r, s') := on_GetTransitions (answers c) key s in
          after (GetTransitions key) (run_client c (k r) s')
      | jiraclient.DoNilDereference => cut_short (GetTransitions key) s Panicked
      | jiraclient.DoAwaitingTransport =>
          cut_short (GetTransitions key) s AwaitingNetwork
      end
  | OnDoTransition key id k =>
      match through c (DoTransition key id) s with
      | jiraclient.DoReturned _ _ =>
          let '(r, s') := on_DoTransition (answers c) key id s in
          after (DoTransition key id) (run_client c (k r) s')
      | jiraclient.DoNilDereference => cut_short (DoTransition key id) s Panicked
      | jiraclient.DoAwaitingTransport =>
          cut_short (DoTransition key id) s AwaitingNetwork
      end
  | OnCreate i k =>
      match through c (Create i) s with
      | jiraclient.DoReturned _ _ =>
          let '(r, s') := on_Create (answers c) i s in
          after (Create i) (run_client c (k r) s')
      | jiraclient.DoNilDereference => cut_short (Create i) s Panicked
      | jiraclient.DoAwaitingTransport => cut_short (Create i) s AwaitingNetwork
      end
  end.

(** *** The goroutines of the process *)

(** What a goroutine does when it is given the processor: it moves on,
    it waits (at a channel, for the network, or it has returned), or it
    calls [log.Fatalf], which ends the process. *)
Inductive Turn (G : Type) :=
| Goes (g : G)
| Waits
| Fatal (status : Z).
Arguments Goes {G} _.
Arguments Waits {G}.
Arguments Fatal {G} _.

(** The goroutine of [fetchGitHubIssues] (lines 380-441): at the test of
    line 386 with the replies still to come; inside the loop of line 428
    with the entries of the batch still to visit; or returned, the
    deferred [close(issueCh)] done. *)
Inductive Fetcher :=
| FetchLoop (url : string) (exchanges : list Exchange)
| FetchSend (issueBatch : list GithubIssue) (res : http.Response)
    (exchanges : list Exchange)
| FetchClosed.

Definition fetch_turn (f : Fetcher) : Turn Fetcher :=
  match f with
  | FetchLoop url exchanges =>
      if String.eqb url EmptyString then Goes FetchClosed
      else
        match exchanges with
        | [] => Waits
        | RequestRejected :: _ => Fatal 1
        | TransportFailed :: _ => Fatal 1
        | Answered res decoded :: rest =>
            if negb (http.StatusCode res =? 200) then Fatal 1
            else
              match decoded with
              | None => Fatal 1
              | Some issueBatch => Goes (FetchSend issueBatch res rest)
              end
        end
  | FetchSend [] res exchanges => Goes (FetchLoop (next_url res) exchanges)
  | FetchSend (issue :: rest) res exchanges =>
      match IsPR issue with
      | Some _ => Goes (FetchSend rest res exchanges)
      | None => Waits                (* at [issueCh <- issue] *)
      end
  | FetchClosed => Waits
  end.

(** The goroutine of [AssignedToTheTeam] (lines 358-373): at the receive
    of line 361, at the send of line 370, or returned, the deferred
    [close(out)] done. *)
Inductive Stage :=
| StageReceive
| StageSend (i : GithubIssue)
| StageClosed.

(** Lines 362-371, with the issue received. *)
Definition stage_body (teamMembers : list Person) (i : GithubIssue) : Stage :=
  let i :=
    match PersonByGithubHandle teamMembers (Handle (Author i)) with
    | Some author => set_Author_JiraUsername i (Jira author)
    | None => i
    end in
  match PersonByGithubHandle teamMembers (Handle (Assignee i)) with
  | Some assignee => StageSend (set_Assignee_JiraUsername i (Jira assignee))
  | None => StageReceive
  end.

(** The goroutine of [query.SearchIssues] (search.go, lines 14-39): at
    the test of line 16, with what the searches still to come return;
    inside the loop of line 32, with the values line 36 will assign;
    returned at line 27, the channel left open; or returned after
    [close(issueCh)]. *)
Inductive Searcher :=
| SearchLoop (last total : Z) (replies : list SearchReply)
| SearchSend (issues : list Issue) (last total : Z) (replies : list SearchReply)
| SearchReturned
| SearchClosed.

Definition search_turn (q : Searcher) : Turn Searcher :=
  match q with
  | SearchLoop last total replies =>
      if negb (last <? total) then Goes SearchClosed
      else
        match replies with
        | [] => Waits
        | SearchFailed _ :: _ => Fatal 1
        | SearchPage issues res :: rest =>
            if query.status_accepted res then
              Goes (SearchSend issues
                      (GoInt.add (StartAt res) (Z.of_nat (length issues)))
                      (Total res) rest)
            else Goes SearchReturned
        end
  | SearchSend [] last total replies => Goes (SearchLoop last total replies)
  | SearchSend (_ :: _) _ _ _ => Waits     (* at [issueCh <- issue] *)
  | SearchReturned => Waits
  | SearchClosed => Waits
  end.

(** The main goroutine, from line 499 on: at the receive of line 502; in
    the body of that loop (lines 503-512) with the issue received; at the
    receive of line 523; or in the body of that loop (lines 524-563),
    with what is left of it to run. *)
Inductive MainAt :=
| IndexRange (alreadyKnown : gmap Z knownIssue)
| IndexBody (issue : Issue) (alreadyKnown : gmap Z knownIssue)
| ReconcileRange (alreadyKnown : gmap Z knownIssue)
| ReconcileBody (alreadyKnown : gmap Z knownIssue) (rest : Prog unit).

(** The process: its goroutines ([stage] is [None] until line 523 starts
    the goroutine of [AssignedToTheTeam]), the state of the tracker, and
    the calls made on it so far. *)
Record Process (S : Type) := mkProcess {
  fetcher : Fetcher;
  stage : option Stage;
  searcher : Searcher;
  at_main : MainAt;
  remote : S;
  made : list Call
}.
Arguments mkProcess {S} _ _ _ _ _ _.
Arguments fetcher {S} _.
Arguments stage {S} _.
Arguments searcher {S} _.
Arguments at_main {S} _.
Arguments remote {S} _.
Arguments made {S} _.

(** The process runs, or it is over: [main] returned, a goroutine
    panicked, or a [log.Fatalf] exited.  (A process in which every
    goroutine waits stays [Running]: what the Go runtime does of it is
    not part of the model.) *)
Inductive State (S : Type) :=
| Running (p : Process S)
| Over (r : Run S unit).
Arguments Running {S} _.
Arguments Over {S} _.

(** What the scheduler lets happen next: a goroutine takes a step of its
    own, or two goroutines meet at a channel (the three channels are
    unbuffered: a send completes when the value is received). *)
Inductive Move :=
| Fetch        (* the fetcher, by itself *)
| Hand         (* issueCh of the fetcher: the stage receives, or sees it closed *)
| Pass         (* out of the stage: main receives, or sees it closed *)
| Search       (* the search, by itself *)
| Index        (* issueCh of the search: main receives, or sees it closed *)
| Go.          (* main, by itself *)

(** A move that is not possible in the state leaves it as it is. *)
Definition step {S} (c : JiraClient S) (teamMembers : list Person)
    (mv : Move) (p : Process S) : State S :=
  match mv with
  | Fetch =>
      match fetch_turn (fetcher p) with
      | Goes f =>
          Running (mkProcess f (stage p) (searcher p) (at_main p) (remote p) (made p))
      | Waits => Running p
      | Fatal status => Over (mkRun (made p) (remote p) (inr (Exited status)))
      end
  | Hand =>
      match stage p, fetcher p with
      | Some StageReceive, FetchSend (issue :: rest) res exchanges =>
          match IsPR issue with
          | None =>
              Running (mkProcess (FetchSend rest res exchanges)
                         (Some (stage_body teamMembers issue))
                         (searcher p) (at_main p) (remote p) (made p))
          | Some _ => Running p
          end
      | Some StageReceive, FetchClosed =>
          Running (mkProcess FetchClosed (Some StageClosed)
                     (searcher p) (at_main p) (remote p) (made p))
      | _, _ => Running p
      end
  | Pass =>
      match at_main p, stage p with
      | ReconcileRange alreadyKnown, Some (StageSend issue) =>
          Running (mkProcess (fetcher p) (Some StageReceive) (searcher p)
                     (ReconcileBody alreadyKnown (reconcile_issue alreadyKnown issue))
                     (remote p) (made p))
      | ReconcileRange _, Some StageClosed =>
          Over (mkRun (made p) (remote p) (inl tt))       (* [main] returns *)
      | _, _ => Running p
      end
  | Search =>
      match search_turn (searcher p) with
      | Goes q =>
          Running (mkProcess (fetcher p) (stage p) q (at_main p) (remote p) (made p))
      | Waits => Running p
      | Fatal status => Over (mkRun (made p) (remote p) (inr (Exited status)))
      end
  | Index =>
      match at_main p, searcher p with
      | IndexRange alreadyKnown, SearchSend (issue :: rest) last total replies =>
          Running (mkProcess (fetcher p) (stage p)
                     (SearchSend rest last total replies)
                     (IndexBody issue alreadyKnown) (remote p) (made p))
      | IndexRange alreadyKnown, SearchClosed =>
          Running (mkProcess (fetcher p) (Some StageReceive) (searcher p)
                     (ReconcileRange alreadyKnown) (remote p) (made p))
      | _, _ => Running p
      end
  | Go =>
      match at_main p with
      | IndexBody issue alreadyKnown =>
          match alreadyKnown_loop [issue] alreadyKnown with
          | Ret m =>
              Running (mkProcess (fetcher p) (stage p) (searcher p)
                         (IndexRange m) (remote p) (made p))
          | Halt stop => Over (mkRun (made p) (remote p) (inr stop))
          | _ => Running p
          end
      | ReconcileBody alreadyKnown rest =>
          match rest with
          | Ret _ =>
              Running (mkProcess (fetcher p) (stage p) (searcher p)
                         (ReconcileRange alreadyKnown) (remote p) (made p))
          | Halt stop => Over (mkRun (made p) (remote p) (inr stop))
          | _ =>
              match next_call (answers c) rest (remote p) with
              | None => Running p
              | Some (call, rest', s') =>
                  match through c call (remote p) with
                  | jiraclient.DoReturned _ _ =>
                      Running (mkProcess (fetcher p) (stage p) (searcher p)
                                 (ReconcileBody alreadyKnown rest') s'
                                 (made p ++ [call]))
                  | jiraclient.DoNilDereference =>
                      Over (mkRun (made p ++ [call]) (remote p) (inr Panicked))
                  | jiraclient.DoAwaitingTransport => Running p
                  end
              end
          end
      | _ => Running p
      end
  end.

Fixpoint exec {S} (c : JiraClient S) (teamMembers : list Person)
    (moves : list Move) (st : State S) : State S :=
  match moves with
  | [] => st
  | mv :: rest =>
      match st with
      | Running p => exec c teamMembers rest (step c teamMembers mv p)
      | Over r => Over r
      end
  end.

(** *** main (lines 478-565) *)

(** [main] once the roster is loaded and the client built: the state of
    the process after the moves of a schedule.  Line 499 starts the
    fetcher, line 502 the search; the index loop and the reconcile loop
    run on the main goroutine. *)
Definition main {S} (c : JiraClient S) (people : list Person)
    (github : list Exchange) (tracker : list SearchReply) (s : S)
    (moves : list Move) : State S :=
  exec c (team_members people) moves
    (Running
       (mkProcess
          (FetchLoop ("https://api.github.com/repos/" +:+ githubRepository
                      +:+ "/issues") github)
          None
          (SearchLoop 0 1 tracker)
          (IndexRange ∅)
          s [])).

(** The calls made so far. *)
Definition calls_of {S} (st : State S) : list Call :=
  match st with
  | Running p => made p
  | Over r => calls r
  end.

End ghira.

(** ** Reading the index loop *)

Module Index.
Import jira ghira.

(** The number the index loop reads in a summary: the first group of the
    leftmost match, when [Atoi] accepts it. *)
Definition summary_number (summary : string) : option Z :=
  match regexp.ghIssueNumberRegex_FindStringSubmatch summary with
  | _ :: s1 :: _ =>
      match strconv.Atoi s1 with
      | (n, None) => Some n
      | (_, Some _) => None
      end
  | _ => None
  end.

(** The loop gets past [issue]: its [Fields] are there, and the digits
    of the tag, if any, fit an [int]. *)
Definition indexable (issue : Issue) : bool :=
  match Fields issue with
  | None => false
  | Some fields =>
      match regexp.ghIssueNumberRegex_FindStringSubmatch (Summary fields) with
      | _ :: s1 :: _ =>
          match strconv.Atoi s1 with
          | (_, None) => true
          | (_, Some _) => false
          end
      | _ => true
      end
  end.

Definition issue_number (issue : Issue) : option Z :=
  match Fields issue with
  | None => None
  | Some fields => summary_number (Summary fields)
  end.

(** The record the loop stores for [issue]. *)
Definition record_of (issue : Issue) : knownIssue :=
  mkKnownIssue (Key issue)
    (match Fields issue with
     | None => None
     | Some fields => Fields_Status fields
     end).

(** The last element of [l] that carries the number [n]. *)
Fixpoint last_numbered {A} (num : A -> option Z) (n : Z) (l : list A) : option A :=
  match l with
  | [] => None
  | x :: rest =>
      match last_numbered num n rest with
      | Some y => Some y
      | None => if decide (num x = Some n) then Some x else None
      end
  end.

(** The first element of [l] that carries the number [n]. *)
Fixpoint first_numbered {A} (num : A -> option Z) (n : Z) (l : list A) : option A :=
  match l with
  | [] => None
  | x :: rest =>
      if decide (num x = Some n) then Some x else first_numbered num n rest
  end.

End Index.

(** ** A tracker to run the reconciler against

    The tracker is a remote service.  To run the reconciler twice it is
    modelled as far as the reconciler can observe it: a list of tickets in
    the order the saved search returns them; a created ticket comes last,
    under a key of the tracker's choice and in the workflow's initial
    status; applying a transition puts the ticket in the status the
    transition is named after, which is how main.go pairs the transitions
    "Closed" and "To Do" with the status "Closed". *)

Module Board.
Import jira ghira.

Record Ticket := mkTicket {
  ticket_Key : string;
  ticket_fields : IssueFields;
  ticket_status : string
}.

Definition with_status (f : IssueFields) (st : option jira.Status) : IssueFields :=
  mkFields (jira.Assignee f) (Description f) (Type_ f) (Project f) (Summary f)
    (Components f) st.

(** The ticket as the search returns it. *)
Definition to_issue (t : Ticket) : Issue :=
  mkIssue (ticket_Key t)
    (Some (with_status (ticket_fields t) (Some (mkStatus (ticket_status t))))).

Record Config := mkConfig {
  initial_status : string;
  transitions_of : string -> list Transition;
  next_key : list Ticket -> string
}.

Definition set_status (key status : string) (t : Ticket) : Ticket :=
  if String.eqb (ticket_Key t) key
  then mkTicket (ticket_Key t) (ticket_fields t) status
  else t.

Fixpoint find_transition (id : string) (ts : list Transition) : option Transition :=
  match ts with
  | [] => None
  | t :: rest => if String.eqb (ID t) id then Some t else find_transition id rest
  end.

Definition tracker (c : Config) : Tracker (list Ticket) :=
  mkTracker
    (fun key s => (transitions_of c key, s))
    (fun key id s =>
       match find_transition id (transitions_of c key) with
       | Some tr => (None, map (set_status key (Transition_Name tr)) s)
       | None => (Some "transition not found", s)
       end)
    (fun i s =>
       match Fields i with
       | Some f =>
           let key := next_key c s in
           (mkCreateReply (Some (mkIssue key None))
              (Some (mkResponse 201 0 0)) None,
            s ++ [mkTicket key f (initial_status c)])
       | None =>
           (mkCreateReply None (Some (mkResponse 400 0 0))
              (Some "request failed"), s)
       end).

(** What the saved search returns: every ticket, in order. *)
Definition search (s : list Ticket) : list Issue := map to_issue s.

(** One run of the reconciler: the index is built from the search, then
    the filtered issues are processed. *)
Definition reconcile (c : Config) (issues : list GithubIssue)
    (s : list Ticket) : Run (list Ticket) unit :=
  run (tracker c)
    (alreadyKnown <- alreadyKnown_loop (search s) ∅ ;;
     reconcile_loop alreadyKnown issues) s.

(** The number the index reads in the summary of a ticket. *)
Definition ticket_number (t : Ticket) : option Z :=
  Index.summary_number (Summary (ticket_fields t)).

(** The record the index holds for a ticket. *)
Definition ticket_record (t : Ticket) : knownIssue :=
  mkKnownIssue (ticket_Key t) (Some (mkStatus (ticket_status t))).

(** What processing one issue does to the tickets: a ticket is added, or
    the status of the ticket under the known key changes, or nothing. *)
Definition effect (c : Config) (alreadyKnown : gmap Z knownIssue)
    (s : list Ticket) (issue : GithubIssue) : list Ticket :=
  match alreadyKnown !! Number issue with
  | None => s ++ [mkTicket (next_key c s) (new_fields issue) (initial_status c)]
  | Some jiraIssue =>
      match known_Status jiraIssue with
      | None => s
      | Some st =>
          if String.eqb (ghira.Status issue) "closed"
             && negb (String.eqb (Name st) "Closed")
          then map (set_status (known_Key jiraIssue) "Closed") s
          else if String.eqb (ghira.Status issue) "open"
                  && String.eqb (Name st) "Closed"
               then map (set_status (known_Key jiraIssue) "To Do") s
               else s
      end
  end.

Definition effects (c : Config) (alreadyKnown : gmap Z knownIssue)
    (issues : list GithubIssue) (s : list Ticket) : list Ticket :=
  fold_left (effect c alreadyKnown) issues s.

(** The workflow offers, for every ticket, one transition named "Closed"
    and one named "To Do", and no two transitions share an id. *)
Definition workflow_ok (c : Config) : Prop :=
  forall key,
    NoDup (map ID (transitions_of c key))
    /\ (exists tr, tr ∈ transitions_of c key /\ Transition_Name tr = "Closed")
    /\ (exists tr, tr ∈ transitions_of c key /\ Transition_Name tr = "To Do").

(** Every entry of the index has a status. *)
Definition statuses_known (alreadyKnown : gmap Z knownIssue) : Prop :=
  forall n k, alreadyKnown !! n = Some k -> exists st, known_Status k = Some st.

(** The tracker gives a new ticket a key no ticket has. *)
Definition keys_fresh (c : Config) : Prop :=
  forall s, next_key c s ∉ map ticket_Key s.

(** A key no ticket has: one byte longer than all the keys together. *)
Fixpoint pad (n : nat) : string :=
  match n with
  | O => EmptyString
  | S m => String "K" (pad m)
  end.

Definition longer_key (s : list Ticket) : string :=
  pad (S (fold_right (fun t acc => (String.length (ticket_Key t) + acc)%nat) O s)).

End Board.

(** ** The filter/resolve stage, as the specification words it *)

Module Filter.
Import team ghira.

(** The assignee handle resolves to a member of the roster. *)
Definition assignee_resolves (teamMembers : list Person) (i : GithubIssue) : bool :=
  match PersonByGithubHandle teamMembers (Handle (Assignee i)) with
  | Some _ => true
  | None => false
  end.

Definition username (teamMembers : list Person) (a : Account) : string :=
  match PersonByGithubHandle teamMembers (Handle a) with
  | Some p => Jira p
  | None => JiraUsername a
  end.

(** The issue with the tracker usernames of its author and assignee. *)
Definition resolved (teamMembers : list Person) (i : GithubIssue) : GithubIssue :=
  mkGithubIssue (Title i) (Body i) (URL i) (Number i)
    (mkAccount (Handle (Author i)) (username teamMembers (Author i)))
    (mkAccount (Handle (Assignee i)) (username teamMembers (Assignee i)))
    (Status i) (IsPR i).

(** Keep the issues whose assignee resolves, and resolve them. *)
Definition filter_resolve (issues : list GithubIssue)
    (teamMembers : list Person) : list GithubIssue :=
  map (resolved teamMembers) (List.filter (assignee_resolves teamMembers) issues).

End Filter.

(** ** Pages *)

Module Pages.
Import jira query ghira.

(** A page of the tracker search: its issues and its response. *)
Definition search_reply (p : list Issue * jira.Response) : SearchReply :=
  SearchPage (fst p) (snd p).

(** Line 36: the offset after the page. *)
Definition search_next (p : list Issue * jira.Response) : Z :=
  GoInt.add (StartAt (snd p)) (Z.of_nat (length (fst p))).

(** The page leaves more to fetch: offset plus page size is below the
    total it reports. *)
Definition search_has_next (p : list Issue * jira.Response) : bool :=
  search_next p <? Total (snd p).

(** A page of the source repository: its response and its entries. *)
Definition fetch_reply (p : http.Response * list GithubIssue) : Exchange :=
  Answered (fst p) (Some (snd p)).

Definition fetch_ok (p : http.Response * list GithubIssue) : bool :=
  http.StatusCode (fst p) =? 200.

(** The page advertises a next link. *)
Definition fetch_has_next (p : http.Response * list GithubIssue) : bool :=
  negb (String.eqb (next_url (fst p)) EmptyString).

(** Responses to try the fetcher on. *)
Definition linked (link : string) : http.Response :=
  http.mkResponse 200 {[ "Link" := link ]}.

Definition unlinked : http.Response := http.mkResponse 200 ∅.

Definition page2_link : string :=
  "<https://api.github.com/repositories/1/issues?state=all&page=2>; rel="
  +:+ String regexp.dquote ("next" +:+ String regexp.dquote
  (", <https://api.github.com/repositories/1/issues?state=all&page=7>; rel="
  +:+ String regexp.dquote ("last" +:+ String regexp.dquote EmptyString))).

Definition entry (number : Z) (title status : string) (pr : option string)
  : GithubIssue :=
  mkGithubIssue title EmptyString EmptyString number
    (mkAccount "reporter" EmptyString) (mkAccount "dev" EmptyString) status pr.

Definition ticket (key summary status : string) : Issue :=
  mkIssue key
    (Some (mkFields None EmptyString "Task" "OSASINFRA" summary ["ORC"]
             (Some (mkStatus status)))).

End Pages.

(** ** Inputs the properties are tried on *)

Module Samples.
Import jira query ghira Pages.

Definition search_page1 : list Issue * jira.Response :=
  ([ticket "OSASINFRA-1" "GH-orc-1: first" "To Do"], jira.mkResponse 200 0 2).

Definition search_page2 : list Issue * jira.Response :=
  ([ticket "OSASINFRA-2" "GH-orc-2: second" "Closed"], jira.mkResponse 200 1 2).

Definition pull_request : GithubIssue :=
  entry 2 "a change" "open" (Some "{}").

Definition fetch_page1 : http.Response * list GithubIssue :=
  (linked page2_link, [entry 1 "first" "open" None; pull_request]).

Definition fetch_page2 : http.Response * list GithubIssue :=
  (unlinked, [entry 3 "third" "closed" None]).

(** A page that is nothing but a pull request. *)
Definition fetch_page_pr : http.Response * list GithubIssue :=
  (unlinked, [pull_request]).

(** A search answered with a success status the switch does not list. *)
Definition search_created : SearchReply :=
  SearchPage [] (jira.mkResponse 201 0 0).

End Samples.

Module Scenario.
Import jira ghira Pages.

(** The workflow of the sample tracker. *)
Definition workflow : list Transition :=
  [mkTransition "11" "To Do"; mkTransition "21" "In Progress";
   mkTransition "31" "Closed"].

Definition config : Board.Config :=
  Board.mkConfig "To Do" (fun _ => workflow) Board.longer_key.

(** The two scenarios of the specification: item 42, closed, without a
    ticket; item 7, open, whose ticket is "Closed". *)
Definition item42 : GithubIssue := entry 42 "flaky test" "closed" None.
Definition item7 : GithubIssue := entry 7 "crash on start" "open" None.
Definition item8 : GithubIssue := entry 8 "typo" "closed" None.

Definition known : gmap Z knownIssue :=
  {[ 7 := mkKnownIssue "OSASINFRA-7" (Some (mkStatus "Closed"));
     8 := mkKnownIssue "OSASINFRA-8" (Some (mkStatus "To Do"));
     9 := mkKnownIssue "OSASINFRA-9" (Some (mkStatus "Closed")) ]}.

(** Two tickets that carry the same number. *)
Definition duplicate_first : Issue := ticket "OSASINFRA-50" "GH-orc-5: once" "To Do".
Definition duplicate_second : Issue := ticket "OSASINFRA-51" "GH-orc-5: twice" "Closed".

(** A tracker that holds the tickets of items 7 and 8, and the issues
    of a run: 7 and 8, and 42, which has no ticket. *)
Definition stored_fields (summary : string) : IssueFields :=
  mkFields None EmptyString "Task" "OSASINFRA" summary ["ORC"] None.

Definition board0 : list Board.Ticket :=
  [Board.mkTicket "OSASINFRA-7" (stored_fields "GH-orc-7: crash on start") "Closed";
   Board.mkTicket "OSASINFRA-8" (stored_fields "GH-orc-8: typo") "To Do"].

Definition issues0 : list GithubIssue := [item7; item8; item42].

(** An item with a negative number. *)
Definition item_negative : GithubIssue := entry (-5) "odd" "open" None.

End Scenario.

(** ** The status a ticket is left in by a run *)

Module Settled.

(** The status of a ticket after the reconciler processed the issue it
    stands for, when the transition it asks for takes place: it follows
    the two cases of the switch of main.go. *)
Definition settled (issue_status ticket_status : string) : string :=
  if String.eqb issue_status "closed" && negb (String.eqb ticket_status "Closed")
  then "Closed"
  else if String.eqb issue_status "open" && String.eqb ticket_status "Closed"
       then "To Do"
       else ticket_status.

End Settled.

(** ** The earlier revision of the filter (main.go lines 52-78, team.go)

    In the earlier revision [fetchGitHubIssues] returns a slice with the
    pull requests in it, and [AssignedToTheTeam] drops them. *)

Module legacy.
Import ghira.

Record TeamMember := mkTeamMember {
  GithubHandle : string;
  JiraName : string
}.

(** [Team.JiraUsernameByGithubHandle]: [t] lists the entries of the map
    in the order [range] visits them. *)
Fixpoint JiraUsernameByGithubHandle (t : list TeamMember) (githubHandle : string)
  : string :=
  match t with
  | [] => EmptyString
  | member :: rest =>
      if String.eqb (GithubHandle member) githubHandle then JiraName member
      else JiraUsernameByGithubHandle rest githubHandle
  end.

Fixpoint AssignedToTheTeam (issues : list GithubIssue) (team : list TeamMember)
  : list GithubIssue :=
  match issues with
  | [] => []
  | i :: rest =>
      match IsPR i with
      | Some _ => AssignedToTheTeam rest team
      | None =>
          let author := JiraUsernameByGithubHandle team (Handle (Author i)) in
          let i :=
            if String.eqb author EmptyString then i
            else set_Author_JiraUsername i author in
          let assignee := JiraUsernameByGithubHandle team (Handle (Assignee i)) in
          if String.eqb assignee EmptyString then AssignedToTheTeam rest team
          else set_Assignee_JiraUsername i assignee :: AssignedToTheTeam rest team
      end
  end.

End legacy.

(** ** A roster to try the loader on *)

Module Roster.
Import team.

Definition alice : Person :=
  mkPerson "alice" "alice-gh" "alice@corp" "U01" false false [].
Definition bob : Person :=
  mkPerson "bob" "bob-gh" "bob@corp" "U02" false false [].

Definition people : list Person := [alice; bob].

(** The team file lists alice only, with one leave. *)
Definition team_file : gmap string TeamEntry :=
  {[ "alice" := mkTeamEntry true [mkLeave 10 20] ]}.

End Roster.

(** ** Shapes of inputs the further properties speak of *)

Module Shapes.
Import ghira.

(** No byte of [s] is in the class [\s]. *)
Fixpoint no_space (s : string) : bool :=
  match s with
  | EmptyString => true
  | String c s' => negb (Bytes.is_space c) && no_space s'
  end.

(** A turn of the fetch loop that ends in [log.Fatalf]. *)
Definition fatal (e : Exchange) : bool :=
  match e with
  | RequestRejected | TransportFailed => true
  | Answered res decoded =>
      negb (http.StatusCode res =? 200)
      || match decoded with None => true | Some _ => false end
  end.

(** Whether [client.Do] was reached in that turn. *)
Definition asked (e : Exchange) : bool :=
  match e with
  | RequestRejected => false
  | _ => true
  end.

(** The number a string of decimal digits denotes, continuing from
    [n]. *)
Fixpoint decimal (s : string) (n : Z) : Z :=
  match s with
  | EmptyString => n
  | String c s' => decimal s' (n * 10 + Bytes.digit_val c)
  end.

(** The summary of the issue holds a tag whose number is above the
    largest [int]. *)
Definition tag_too_large (issue : jira.Issue) : bool :=
  match jira.Fields issue with
  | None => false
  | Some fields =>
      match regexp.ghIssueNumberRegex_FindStringSubmatch (jira.Summary fields) with
      | _ :: ds :: _ => GoInt.max_int <? decimal ds 0
      | _ => false
      end
  end.

(** How a reply stops the search: an error ends the process, a status
    the switch does not list makes the goroutine return. *)
Definition search_stop (r : jira.SearchReply) : option Ending :=
  match r with
  | jira.SearchFailed _ => Some (ProcessExit 1)
  | jira.SearchPage _ res =>
      if query.status_accepted res then None else Some LeftOpen
  end.

End Shapes.

(** ** Trackers that fail *)

Module Failing.
Import jira ghira.

(** A tracker that refuses every change: a transition gets an error, a
    creation gets an error with the response of the refusal. *)
Definition refusing : Tracker unit :=
  mkTracker
    (fun _ s => (Scenario.workflow, s))
    (fun _ _ s => (Some "transition refused", s))
    (fun _ s =>
       (mkCreateReply None (Some (jira.mkResponse 400 0 0)) (Some "request failed"),
        s)).

(** A tracker whose creation comes back with an error and no response,
    as when the request cannot be built. *)
Definition unreachable : Tracker unit :=
  mkTracker
    (fun _ s => ([], s))
    (fun _ _ s => (Some "connection refused", s))
    (fun _ s => (mkCreateReply None None (Some "connection refused"), s)).

(** An error of a creation always comes with a response. *)
Definition create_answers {S} (t : Tracker S) : Prop :=
  forall i s,
    create_err (fst (on_Create t i s)) <> None ->
    create_response (fst (on_Create t i s)) <> None.

(** The calls that open the turn of an issue: the listing of the
    transitions or the creation. *)
Definition opens_turn (c : Call) : bool :=
  match c with
  | DoTransition _ _ => false
  | _ => true
  end.

(** An index entry without a status. *)
Definition statusless : gmap Z knownIssue :=
  {[ 7 := mkKnownIssue "OSASINFRA-7" None ]}.

End Failing.

(** ** The identity resolver, as the description has it *)

Module Resolve.
Import team.

(** [resolve(handle) -> trackerUsername | absent], a linear scan of the
    roster: the roster resolves the handle [h] to its first entry whose
    Github handle is [h]; the handle is absent when no entry has it. *)
Definition resolves_to (roster : list Person) (h : string) (p : Person) : Prop :=
  exists before after,
    roster = before ++ p :: after
    /\ Github p = h
    /\ Forall (fun q => Github q <> h) before.

Definition absent (roster : list Person) (h : string) : Prop :=
  Forall (fun q => Github q <> h) roster.

(** The same in the roster [main] builds from the people file, of which
    it keeps the team members. *)
Definition member_resolves_to (people : list Person) (h : string) (p : Person)
  : Prop :=
  exists before after,
    people = before ++ p :: after
    /\ TeamMember p = true /\ Github p = h
    /\ Forall (fun q => TeamMember q = true -> Github q <> h) before.

Definition member_absent (people : list Person) (h : string) : Prop :=
  Forall (fun q => TeamMember q = true -> Github q <> h) people.

(** An issue as the stage received it, but for the two usernames. *)
Definition same_issue (i o : ghira.GithubIssue) : Prop :=
  ghira.Title o = ghira.Title i /\ ghira.Body o = ghira.Body i
  /\ ghira.URL o = ghira.URL i /\ ghira.Number o = ghira.Number i
  /\ ghira.Status o = ghira.Status i /\ ghira.IsPR o = ghira.IsPR i
  /\ ghira.Handle (ghira.Author o) = ghira.Handle (ghira.Author i)
  /\ ghira.Handle (ghira.Assignee o) = ghira.Handle (ghira.Assignee i).

End Resolve.

(** ** The process against the sequential reading of its pipeline *)

Module Pipeline.
Import jira query ghira.

(** What a fetcher in this state will still send, and how it will
    end. *)
Definition ahead_fetch (f : Fetcher) : Stream GithubIssue :=
  match f with
  | FetchLoop url exchanges => fetch_stream (fetch_loop exchanges url)
  | FetchSend issueBatch res exchanges =>
      let r := fetch_stream (fetch_loop exchanges (next_url res)) in
      mkStream (send_issues issueBatch ++ sent r) (ending r)
  | FetchClosed => mkStream [] Closed
  end.

(** The same for the search. *)
Definition ahead_search (q : Searcher) : Stream Issue :=
  match q with
  | SearchLoop last total replies => search_stream (search_loop replies last total)
  | SearchSend issues last total replies =>
      let r := search_stream (search_loop replies last total) in
      mkStream (issues ++ sent r) (ending r)
  | SearchReturned => mkStream [] LeftOpen
  | SearchClosed => mkStream [] Closed
  end.

(** The issue the stage holds at its send. *)
Definition held (st : option Stage) : list GithubIssue :=
  match st with
  | Some (StageSend o) => [o]
  | _ => []
  end.

(** A run that comes after the calls [cs]. *)
Definition prepend {S A} (cs : list Call) (r : Run S A) : Run S A :=
  mkRun (cs ++ calls r) (final r) (result r).

Section Invariant.
Context {S : Type} (c : JiraClient S) (teamMembers : list team.Person)
  (fetched : Stream GithubIssue) (found : Stream Issue) (s0 : S).

(** The issues that reach the reconcile loop when nothing stops the
    process. *)
Definition filtered : list GithubIssue :=
  AssignedToTheTeam_loop (sent fetched) teamMembers.

(** The index loop got through the whole search. *)
Definition index_complete (known : gmap Z knownIssue) : Prop :=
  ending found = Closed /\ alreadyKnown_loop (sent found) ∅ = Ret known.

(** The process before line 523: the stage is not started, nothing was
    asked of the tracker; the index holds the issues received so far. *)
Definition indexing (p : Process S) : Prop :=
  stage p = None /\ made p = [] /\ remote p = s0
  /\ ahead_fetch (fetcher p) = fetched
  /\ ending (ahead_search (searcher p)) = ending found
  /\ exists done m,
       alreadyKnown_loop done ∅ = Ret m
       /\ match at_main p with
          | IndexRange m' =>
              m' = m /\ done ++ sent (ahead_search (searcher p)) = sent found
          | IndexBody issue m' =>
              m' = m
              /\ done ++ issue :: sent (ahead_search (searcher p)) = sent found
          | _ => False
          end.

(** The process from line 523 on: the calls made are those of the
    sequential loop on the issues delivered so far. *)
Definition reconciling (known : gmap Z knownIssue) (p : Process S) : Prop :=
  exists delivered,
    stage p <> None
    /\ searcher p = SearchClosed
    /\ delivered ++ held (stage p)
         ++ AssignedToTheTeam_loop (sent (ahead_fetch (fetcher p))) teamMembers
       = filtered
    /\ ending (ahead_fetch (fetcher p)) = ending fetched
    /\ (stage p = Some StageClosed -> fetcher p = FetchClosed)
    /\ match at_main p with
       | ReconcileRange known' =>
           known' = known
           /\ run_client c (reconcile_loop known delivered) s0
              = mkRun (made p) (remote p) (inl tt)
       | ReconcileBody known' rest =>
           known' = known
           /\ exists before issue cs1 s1 cs2,
                delivered = before ++ [issue]
                /\ run_client c (reconcile_loop known before) s0
                   = mkRun cs1 s1 (inl tt)
                /\ made p = cs1 ++ cs2
                /\ run_client c (reconcile_issue known issue) s1
                   = prepend cs2 (run_client c rest (remote p))
       | _ => False
       end.

(** How the process ends before line 523: the index loop panics, or a
    [log.Fatalf] of the search, or of a fetcher that has sent nothing,
    exits. *)
Definition over_indexing (r : Run S unit) : Prop :=
  (r = mkRun [] s0 (inr Panicked)
   /\ alreadyKnown_loop (sent found) ∅ = Halt Panicked)
  \/ (r = mkRun [] s0 (inr (Exited 1))
      /\ (ending found = ProcessExit 1 \/ fetched = mkStream [] (ProcessExit 1))).

(** How it ends afterwards: as the sequential loop over all the
    filtered issues does, or earlier, by the [log.Fatalf] of the
    fetcher. *)
Definition over_reconciling (known : gmap Z knownIssue) (r : Run S unit) : Prop :=
  (r = run_client c (reconcile_loop known filtered) s0
   /\ (result r = inl tt -> ending fetched = Closed))
  \/ (result r = inr (Exited 1)
      /\ ending fetched = ProcessExit 1
      /\ exists more,
           calls (run_client c (reconcile_loop known filtered) s0)
           = calls r ++ more).

Definition invariant (st : State S) : Prop :=
  match st with
  | Running p =>
      indexing p \/ exists known, index_complete known /\ reconciling known p
  | Over r =>
      over_indexing r
      \/ exists known, index_complete known /\ over_reconciling known r
  end.

End Invariant.

(** A move that leaves the process where the invariant has it. *)
Ltac still_indexing done m :=
  solve [left; unfold indexing;
         cbn [stage made remote fetcher searcher at_main];
         repeat (split; [assumption || reflexivity|]);
         exists done, m; split; [assumption|]; auto].

Ltac still_reconciling known delivered :=
  solve [cbn [invariant]; right; exists known; split; [assumption|]; exists delivered;
         cbn [stage made remote fetcher searcher at_main];
         repeat (split; [assumption || reflexivity || discriminate|]);
         first [assumption
               | match goal with H : _ /\ ?G |- ?G => exact (proj2 H) end]].

End Pipeline.

(** ** Clients to run the reconciler through *)

Module Clients.
Import jira ghira.

(** Every request of the client gets, after the throttled replies if
    any, a response that [Do] returns. *)
Definition transport_returns {S} (c : JiraClient S) : Prop :=
  forall call s, exists res err, through c call s = jiraclient.DoReturned res err.

(** The request of a call, as far as [Do] looks at it. *)
Definition request (call : Call) : http.Request :=
  match call with
  | GetTransitions key =>
      http.mkRequest "GET" ("rest/api/2/issue/" +:+ key +:+ "/transitions")
  | DoTransition key _ =>
      http.mkRequest "POST" ("rest/api/2/issue/" +:+ key +:+ "/transitions")
  | Create _ => http.mkRequest "POST" "rest/api/2/issue"
  end.

(** A transport that answers every request at once. *)
Definition direct {S} (t : Tracker S) : JiraClient S :=
  mkJiraClient request (fun _ _ => [(Some jiraclient.ok_response, None)]) t.

(** A transport that throttles every request once. *)
Definition throttling {S} (t : Tracker S) : JiraClient S :=
  mkJiraClient request
    (fun _ _ => [(Some jiraclient.throttled_bare, None);
                 (Some jiraclient.ok_response, None)]) t.


End Clients.

(** ** Where an issue and a ticket come from *)

Module Origin.
Import jira ghira.



End Origin.

(** * Properties *)

(** ** Strings *)

Section StringFacts.
Import Bytes.

Lemma append_cons (a : ascii) (s t : string) :
  String a s +:+ t = String a (s +:+ t).
Proof. reflexivity. Qed.

Lemma append_nil_l (t : string) : EmptyString +:+ t = t.
Proof. reflexivity. Qed.

Lemma append_assoc (s t u : string) : (s +:+ t) +:+ u = s +:+ (t +:+ u).
Proof.
  induction s as [|a s IH]; [reflexivity|].
  rewrite !append_cons. now rewrite IH.
Qed.

Lemma strip_prefix_append (p s : string) : strip_prefix p (p +:+ s) = Some s.
Proof.
  induction p as [|a p IH]; [reflexivity|].
  rewrite append_cons. simpl. now rewrite Ascii.eqb_refl.
Qed.

Lemma span_digits_append (ds r : string) (c : ascii) :
  all_digits ds = true -> is_digit c = false ->
  span_digits (ds +:+ String c r) = (ds, String c r).
Proof.
  intros Hds Hc. induction ds as [|d ds IH].
  - rewrite append_nil_l. simpl. now rewrite Hc.
  - simpl in Hds. apply andb_true_iff in Hds as [Hd Hds].
    rewrite append_cons. simpl. rewrite Hd, (IH Hds). reflexivity.
Qed.

End StringFacts.

(** ** strconv: [Atoi] reads back what [Itoa] writes *)

Section StrconvFacts.
Import Bytes GoInt strconv.

Lemma digit_char_is_digit (d : Z) : 0 <= d < 10 -> is_digit (digit_char d) = true.
Proof.
  intros H.
  assert (Hc : d = 0 \/ d = 1 \/ d = 2 \/ d = 3 \/ d = 4 \/ d = 5 \/ d = 6
               \/ d = 7 \/ d = 8 \/ d = 9) by lia.
  repeat (destruct Hc as [-> | Hc]; [reflexivity|]). now subst.
Qed.

Lemma digit_val_char (d : Z) : 0 <= d < 10 -> digit_val (digit_char d) = d.
Proof.
  intros H.
  assert (Hc : d = 0 \/ d = 1 \/ d = 2 \/ d = 3 \/ d = 4 \/ d = 5 \/ d = 6
               \/ d = 7 \/ d = 8 \/ d = 9) by lia.
  repeat (destruct Hc as [-> | Hc]; [reflexivity|]). now subst.
Qed.

Lemma digit_val_range (c : ascii) : is_digit c = true -> 0 <= digit_val c < 10.
Proof.
  unfold is_digit, digit_val. intros H.
  apply andb_true_iff in H as [H1 H2].
  apply Z.leb_le in H1. apply Z.leb_le in H2. lia.
Qed.

Lemma formatBits_acc (fuel : nat) (u : Z) (acc : string) :
  formatBits fuel u acc = formatBits fuel u EmptyString +:+ acc.
Proof.
  revert u acc. induction fuel as [|f IH]; intros u acc; [reflexivity|].
  simpl. destruct (u <? 10); [reflexivity|].
  rewrite (IH _ (String _ acc)), (IH _ (String _ EmptyString)).
  now rewrite append_assoc.
Qed.

Lemma formatBits_nonempty (fuel : nat) (u : Z) :
  formatBits (S fuel) u EmptyString <> EmptyString.
Proof.
  simpl. destruct (u <? 10); [discriminate|].
  rewrite formatBits_acc. destruct (formatBits fuel (u / 10) EmptyString); discriminate.
Qed.

Lemma all_digits_append (s t : string) :
  all_digits (s +:+ t) = all_digits s && all_digits t.
Proof.
  induction s as [|a s IH]; [reflexivity|].
  rewrite append_cons. simpl. now rewrite IH, andb_assoc.
Qed.

Lemma formatBits_digits (fuel : nat) (u : Z) :
  0 <= u -> all_digits (formatBits fuel u EmptyString) = true.
Proof.
  revert u. induction fuel as [|f IH]; intros u Hu; [reflexivity|].
  simpl. destruct (Z.ltb_spec u 10).
  - simpl. rewrite digit_char_is_digit by lia. reflexivity.
  - rewrite formatBits_acc, all_digits_append, IH by (apply Z.div_pos; lia).
    simpl. rewrite digit_char_is_digit; [reflexivity|].
    apply Z.mod_pos_bound. lia.
Qed.

Lemma length_append (s t : string) :
  String.length (s +:+ t) = (String.length s + String.length t)%nat.
Proof.
  induction s as [|a s IH]; [reflexivity|].
  rewrite append_cons. simpl. now rewrite IH.
Qed.

(** The number a string of digits denotes, continuing from [n]. *)
Lemma atoi_fast_append (s t : string) (n : Z) :
  atoi_fast (s +:+ t) n =
  match atoi_fast s n with
  | Some m => atoi_fast t m
  | None => None
  end.
Proof.
  revert n. induction s as [|a s IH]; intros n; [reflexivity|].
  rewrite append_cons. simpl. destruct (is_digit a); [apply IH|reflexivity].
Qed.

Lemma atoi_fast_formatBits (fuel : nat) (u : Z) :
  0 <= u < 10 ^ Z.of_nat fuel ->
  atoi_fast (formatBits fuel u EmptyString) 0 = Some u.
Proof.
  revert u. induction fuel as [|f IH]; intros u Hu.
  - simpl in Hu. assert (u = 0) as -> by lia. reflexivity.
  - simpl formatBits. destruct (Z.ltb_spec u 10).
    + simpl. rewrite digit_char_is_digit, digit_val_char by lia. reflexivity.
    + assert (Hpow : 10 ^ Z.of_nat (S f) = 10 * 10 ^ Z.of_nat f).
      { rewrite Nat2Z.inj_succ, Z.pow_succ_r by lia. reflexivity. }
      rewrite formatBits_acc, atoi_fast_append, IH.
      * simpl. rewrite digit_char_is_digit, digit_val_char
          by (apply Z.mod_pos_bound; lia).
        f_equal. pose proof (Z.div_mod u 10). lia.
      * split; [apply Z.div_pos; lia|].
        apply Z.div_lt_upper_bound; lia.
Qed.

Lemma atoi_fast_ge (s : string) (n m : Z) :
  0 <= n -> atoi_fast s n = Some m -> n <= m.
Proof.
  revert n. induction s as [|a s IH]; intros n Hn H; simpl in H.
  - injection H as <-. lia.
  - destruct (is_digit a) eqn:Ha; [|discriminate].
    pose proof (digit_val_range _ Ha).
    apply IH in H; lia.
Qed.

(** On digits whose number fits an [int64], the loop of [ParseUint]
    computes the same number as the fast path. *)
Lemma parseUint_loop_digits (s : string) (n m : Z) :
  0 <= n -> atoi_fast s n = Some m -> m < 2 ^ 63 ->
  parseUint_loop s n = (m, None).
Proof.
  revert n. induction s as [|a s IH]; intros n Hn H Hm; simpl in *.
  - now injection H as <-.
  - destruct (is_digit a) eqn:Ha; [|discriminate]. simpl.
    pose proof (digit_val_range _ Ha) as Hd.
    assert (Hge : n * 10 + digit_val a <= m) by (apply (atoi_fast_ge s); [lia|exact H]).
    unfold maxUint64.
    destruct (Z.leb_spec (( 2 ^ 64 - 1) / 10 + 1) n) as [Hc|Hc].
    { exfalso. change ((2 ^ 64 - 1) / 10 + 1) with 1844674407370955162 in Hc.
      change (2 ^ 63) with 9223372036854775808 in Hm. lia. }
    rewrite Z.mod_small
      by (change (2 ^ 64) with 18446744073709551616;
          change (2 ^ 63) with 9223372036854775808 in Hm; lia).
    destruct (Z.ltb_spec (n * 10 + digit_val a) (n * 10)); [lia|].
    apply IH; [lia|assumption|assumption].
Qed.

Lemma length_formatBits (fuel : nat) (u : Z) :
  (String.length (formatBits fuel u EmptyString) <= fuel)%nat.
Proof.
  revert u. induction fuel as [|f IH]; intros u; [simpl; lia|].
  simpl. destruct (u <? 10); [simpl; lia|].
  rewrite formatBits_acc, length_append. simpl. specialize (IH (u / 10)). lia.
Qed.

End StrconvFacts.

Section AtoiItoa.
Import Bytes GoInt strconv.

Lemma digit_not_sign (c : ascii) :
  is_digit c = true -> Ascii.eqb c "-" = false /\ Ascii.eqb c "+" = false.
Proof.
  intros Hc. split.
  - destruct (Ascii.eqb_spec c "-") as [->|]; [discriminate|reflexivity].
  - destruct (Ascii.eqb_spec c "+") as [->|]; [discriminate|reflexivity].
Qed.

(** [Atoi] on a non-empty string of digits that denotes [n < 2^63]. *)
Lemma Atoi_digits (s : string) (n : Z) :
  s <> EmptyString -> all_digits s = true ->
  atoi_fast s 0 = Some n -> n < 2 ^ 63 ->
  Atoi s = (n, None).
Proof.
  intros Hne Hds Hval Hn. unfold Atoi.
  destruct s as [|c0 s']; [congruence|].
  assert (Hc0 : is_digit c0 = true).
  { simpl in Hds. now apply andb_true_iff in Hds as [? _]. }
  destruct (digit_not_sign _ Hc0) as [Hm Hp].
  destruct ((0 <? Z.of_nat (String.length (String c0 s')))
            && (Z.of_nat (String.length (String c0 s')) <? 19)).
  - rewrite Hm, Hp. simpl orb. cbv iota. rewrite Hval. reflexivity.
  - unfold ParseInt. rewrite Hm, Hp. simpl orb. cbv iota.
    unfold ParseUint.
    rewrite (parseUint_loop_digits _ 0 n); [|lia|exact Hval|exact Hn].
    simpl negb. rewrite andb_true_l, andb_false_l.
    destruct (Z.leb_spec (2 ^ 63) n); [lia|reflexivity].
Qed.

Lemma Itoa_nonneg (n : Z) : 0 <= n -> Itoa n = formatBits 20 n EmptyString.
Proof.
  intros H. unfold Itoa. destruct (Z.ltb_spec n 0); [lia|reflexivity].
Qed.

Lemma Itoa_digits (n : Z) : 0 <= n -> all_digits (Itoa n) = true.
Proof. intros H. rewrite Itoa_nonneg by exact H. now apply formatBits_digits. Qed.

Lemma Itoa_nonempty (n : Z) : Itoa n <> EmptyString.
Proof.
  unfold Itoa. destruct (n <? 0); [discriminate|apply formatBits_nonempty].
Qed.

(** [strconv.Atoi(strconv.Itoa(n))] is [(n, nil)] for a non-negative
    [int]. *)
Lemma Atoi_Itoa (n : Z) : 0 <= n <= max_int -> Atoi (Itoa n) = (n, None).
Proof.
  intros [H0 Hmax]. unfold max_int in Hmax.
  apply Atoi_digits.
  - apply Itoa_nonempty.
  - now apply Itoa_digits.
  - rewrite Itoa_nonneg by exact H0. apply atoi_fast_formatBits.
    split; [exact H0|].
    change (10 ^ Z.of_nat 20) with 100000000000000000000.
    change (2 ^ 63) with 9223372036854775808 in Hmax. lia.
  - lia.
Qed.

End AtoiItoa.
Example Itoa_42 : strconv.Itoa 42 = "42".
Proof. reflexivity. Qed.

Example Itoa_neg : strconv.Itoa (-5) = "-5".
Proof. reflexivity. Qed.

Example Itoa_max : strconv.Itoa GoInt.max_int = "9223372036854775807".
Proof. vm_compute. reflexivity. Qed.

Example Atoi_2 : strconv.Atoi "2" = (2, None).
Proof. reflexivity. Qed.

Example Atoi_max : strconv.Atoi "9223372036854775807" = (GoInt.max_int, None).
Proof. vm_compute. reflexivity. Qed.

Example Atoi_word : strconv.Atoi "soon" = (0, Some strconv.ErrSyntax).
Proof. reflexivity. Qed.

Example Atoi_huge :
  strconv.Atoi "99999999999999999999" = (GoInt.max_int, Some strconv.ErrRange).
Proof. vm_compute. reflexivity. Qed.

(** ** The throttling client *)

Section Throttle.
Import http jiraclient.

Lemma Header_Get_retry_after (v : string) :
  Header_Get (Headers (throttled v)) "retry-after" = v.
Proof.
  unfold Header_Get, throttled. simpl Headers.
  change (CanonicalMIMEHeaderKey "retry-after") with "Retry-After".
  now rewrite lookup_singleton_eq.
Qed.

(** When the header parses, the test [err != nil] fails and the wait
    stays at one second, whatever number the header gives. *)
Lemma throttle_wait_parsed (v : string) (n : Z) :
  v <> EmptyString -> strconv.Atoi v = (n, None) ->
  throttle_wait (throttled v) = time.Second.
Proof.
  intros Hv Hn. unfold throttle_wait. rewrite Header_Get_retry_after.
  destruct (String.eqb_spec v EmptyString) as [->|_]; [congruence|].
  rewrite Hn. reflexivity.
Qed.

(** When the header does not parse, the wait is [n] seconds for the [n]
    that comes with the error: zero on a syntax error. *)
Lemma throttle_wait_unparsable (v : string) :
  v <> EmptyString -> strconv.Atoi v = (0, Some strconv.ErrSyntax) ->
  throttle_wait (throttled v) = 0.
Proof.
  intros Hv Hn. unfold throttle_wait. rewrite Header_Get_retry_after.
  destruct (String.eqb_spec v EmptyString) as [->|_]; [congruence|].
  rewrite Hn. reflexivity.
Qed.

Lemma throttle_wait_absent : throttle_wait throttled_bare = time.Second.
Proof. reflexivity. Qed.

(** A throttled reply is followed by a pause and by the same request;
    the outcome is the outcome of the retry. *)
Lemma Do_throttled (r : Response) (err : option Error)
    (rest : list TransportReply) (req : Request) :
  StatusCode r = StatusTooManyRequests ->
  Do ((Some r, err) :: rest) req =
  (Sent req :: Slept (throttle_wait r) :: fst (Do rest req), snd (Do rest req)).
Proof.
  intros H. simpl. rewrite H, Z.eqb_refl. now destruct (Do rest req).
Qed.

Lemma Do_requests_same (transport : list TransportReply) (req : Request) :
  Forall (fun r => r = req) (requests (fst (Do transport req))).
Proof.
  induction transport as [|[[r|] err] rest IH]; simpl.
  - repeat constructor.
  - destruct (StatusCode r =? StatusTooManyRequests).
    + destruct (Do rest req) as [evs out]. simpl in *. now constructor.
    + repeat constructor.
  - repeat constructor.
Qed.

(** C1, at the input of the specification's throttle scenario: a first
    reply "too many requests" with [retry-after: 2], then a success.
    [Do] retries the same request and returns the second reply, but
    between the two it sleeps one second, not the two seconds of the
    header. *)
Theorem Do_retry_after_2_sleeps_one_second (req : Request) :
  Do [(Some (throttled "2"), None); (Some ok_response, None)] req
    = ([Sent req; Slept time.Second; Sent req],
       DoReturned (Some ok_response) None)
  /\ slept (fst (Do [(Some (throttled "2"), None); (Some ok_response, None)] req))
     = 1 * time.Second
  /\ slept (fst (Do [(Some (throttled "2"), None); (Some ok_response, None)] req))
     < 2 * time.Second.
Proof. vm_compute. repeat split; reflexivity. Qed.

(** The same defect on an unparsable header: no pause at all, where the
    specification promises one second. *)
Example Do_retry_after_soon (req : Request) :
  Do [(Some (throttled "soon"), None); (Some ok_response, None)] req
    = ([Sent req; Slept 0; Sent req], DoReturned (Some ok_response) None).
Proof. reflexivity. Qed.

(** C10, at a transport error: the wrapped client returns [(nil, err)],
    and [Do] reads [res.StatusCode] before it looks at [err].  It does
    not return the error: it faults on the nil response. *)
Theorem Do_transport_error_faults (err : Error)
    (rest : list TransportReply) (req : Request) :
  Do ((None, Some err) :: rest) req = ([Sent req], DoNilDereference)
  /\ snd (Do ((None, Some err) :: rest) req) <> DoReturned None (Some err).
Proof. split; [reflexivity|discriminate]. Qed.

End Throttle.

(** ** The producers and their channels *)

Section Producers.
Import team jira query ghira.

Lemma send_issues_no_pull_request (issueBatch : list GithubIssue) :
  Forall (fun i => IsPR i = None) (send_issues issueBatch).
Proof.
  induction issueBatch as [|i rest IH]; simpl; [constructor|].
  destruct (IsPR i) eqn:Hpr; [exact IH|]. now constructor.
Qed.

Lemma send_issues_filter (issueBatch : list GithubIssue) :
  send_issues issueBatch =
  List.filter (fun i => match IsPR i with None => true | Some _ => false end)
    issueBatch.
Proof.
  induction issueBatch as [|i rest IH]; simpl; [reflexivity|].
  destruct (IsPR i); now rewrite IH.
Qed.

Lemma fetch_loop_no_pull_request (exchanges : list Exchange) (url : string) :
  Forall (fun i => IsPR i = None) (sent (fetch_stream (fetch_loop exchanges url))).
Proof.
  revert url. induction exchanges as [|e rest IH]; intros url; simpl.
  - destruct (String.eqb url EmptyString); constructor.
  - destruct (String.eqb url EmptyString); [constructor|].
    destruct e as [| |res decoded]; simpl; [constructor|constructor|].
    destruct (negb (http.StatusCode res =? 200)); simpl; [constructor|].
    destruct decoded as [issueBatch|]; simpl; [|constructor].
    apply Forall_app. split; [apply send_issues_no_pull_request|apply IH].
Qed.

Lemma AssignedToTheTeam_loop_keeps_IsPR (issues : list GithubIssue)
    (teamMembers : list Person) :
  Forall (fun i => IsPR i = None) issues ->
  Forall (fun i => IsPR i = None) (AssignedToTheTeam_loop issues teamMembers).
Proof.
  induction 1 as [|i rest Hi _ IH]; simpl; [constructor|].
  destruct (PersonByGithubHandle teamMembers (Handle (Author i)));
    simpl; destruct (PersonByGithubHandle teamMembers (Handle (Assignee i)));
    try exact IH; constructor; auto.
Qed.

(** C8.  No entry the fetcher sends carries a pull-request sub-object,
    whatever the pages are; so none reaches the output of the
    filter/resolve stage, which is what the reconciler ranges over. *)
Theorem fetchGitHubIssues_never_sends_pull_requests
    (exchanges : list Exchange) (teamMembers : list Person) :
  Forall (fun i => IsPR i = None)
    (sent (fetch_stream (fetchGitHubIssues exchanges)))
  /\ Forall (fun i => IsPR i = None)
       (sent (AssignedToTheTeam (fetch_stream (fetchGitHubIssues exchanges))
                teamMembers)).
Proof.
  assert (H := fetch_loop_no_pull_request exchanges
    ("https://api.github.com/repos/" +:+ githubRepository +:+ "/issues")).
  split; [exact H|].
  apply AssignedToTheTeam_loop_keeps_IsPR. exact H.
Qed.

(** In the earlier revision the pull requests are dropped one stage
    later; none reaches the reconciler there either. *)
Lemma legacy_AssignedToTheTeam_drops_pull_requests
    (issues : list GithubIssue) (members : list legacy.TeamMember) :
  Forall (fun i => IsPR i = None) (legacy.AssignedToTheTeam issues members).
Proof.
  induction issues as [|i rest IH]; simpl; [constructor|].
  destruct (IsPR i) eqn:Hpr; [exact IH|].
  destruct (String.eqb (legacy.JiraUsernameByGithubHandle members (Handle (Author i)))
              EmptyString); simpl;
    destruct (String.eqb (legacy.JiraUsernameByGithubHandle members
                            (Handle (Assignee i))) EmptyString);
    try exact IH; constructor; auto.
Qed.

(** *** The filter/resolve stage *)

Lemma PersonByGithubHandle_found (people : list Person) (h : string) (p : Person) :
  PersonByGithubHandle people h = Some p -> p ∈ people /\ Github p = h.
Proof.
  induction people as [|q rest IH]; simpl; [discriminate|].
  destruct (String.eqb_spec (Github q) h) as [Heq|Hne].
  - intros [= ->]. split; [constructor|exact Heq].
  - intros H. destruct (IH H) as [Hin Hg]. split; [now constructor|exact Hg].
Qed.


Lemma AssignedToTheTeam_loop_refines (issues : list GithubIssue)
    (teamMembers : list Person) :
  AssignedToTheTeam_loop issues teamMembers
  = Filter.filter_resolve issues teamMembers.
Proof.
  unfold Filter.filter_resolve.
  induction issues as [|i rest IH]; simpl; [reflexivity|].
  unfold Filter.assignee_resolves.
  destruct (PersonByGithubHandle teamMembers (Handle (Author i))) as [a|] eqn:Ha;
    simpl;
    destruct (PersonByGithubHandle teamMembers (Handle (Assignee i))) as [b|] eqn:Hb;
    simpl; rewrite ?IH; try reflexivity;
    f_equal; unfold Filter.resolved, Filter.username,
      set_Assignee_JiraUsername, set_Author_JiraUsername; simpl;
    rewrite ?Ha, ?Hb; destruct i as [? ? ? ? [? ?] [? ?] ? ?]; reflexivity.
Qed.

Lemma filter_resolve_populated (issues : list GithubIssue)
    (teamMembers : list Person) :
  Forall (fun o => exists p,
            PersonByGithubHandle teamMembers (Handle (Assignee o)) = Some p
            /\ JiraUsername (Assignee o) = Jira p)
    (Filter.filter_resolve issues teamMembers).
Proof.
  unfold Filter.filter_resolve.
  induction issues as [|i rest IH]; simpl; [constructor|].
  unfold Filter.assignee_resolves at 1.
  destruct (PersonByGithubHandle teamMembers (Handle (Assignee i))) as [p|] eqn:Hp;
    [|exact IH].
  simpl. constructor; [|exact IH].
  exists p. unfold Filter.resolved, Filter.username. simpl. now rewrite Hp.
Qed.

Lemma PersonByGithubHandle_resolves (roster : list Person) (h : string)
    (p : Person) :
  Resolve.resolves_to roster h p -> PersonByGithubHandle roster h = Some p.
Proof.
  intros (before & after & -> & Hp & Hb).
  induction Hb as [|q before Hq _ IH]; simpl.
  - rewrite (proj2 (String.eqb_eq _ _) Hp). reflexivity.
  - rewrite (proj2 (String.eqb_neq _ _) Hq). exact IH.
Qed.

Lemma PersonByGithubHandle_absent (roster : list Person) (h : string) :
  Resolve.absent roster h -> PersonByGithubHandle roster h = None.
Proof.
  induction 1 as [|q rest Hq _ IH]; simpl; [reflexivity|].
  rewrite (proj2 (String.eqb_neq _ _) Hq). exact IH.
Qed.

Lemma team_members_app (l1 l2 : list Person) :
  team_members (l1 ++ l2) = team_members l1 ++ team_members l2.
Proof.
  induction l1 as [|q rest IH]; simpl; [reflexivity|].
  destruct (TeamMember q); simpl; now rewrite IH.
Qed.

Lemma team_members_absent (people : list Person) (h : string) :
  Resolve.member_absent people h -> Resolve.absent (team_members people) h.
Proof.
  unfold Resolve.absent.
  induction 1 as [|q rest Hq _ IH]; simpl; [constructor|].
  destruct (TeamMember q); [constructor; auto|exact IH].
Qed.

Lemma team_members_resolves (people : list Person) (h : string) (p : Person) :
  Resolve.member_resolves_to people h p ->
  Resolve.resolves_to (team_members people) h p.
Proof.
  intros (before & after & -> & Hm & Hp & Hb).
  exists (team_members before), (team_members after).
  rewrite team_members_app. simpl. rewrite Hm.
  split; [reflexivity|]. split; [exact Hp|].
  now apply team_members_absent.
Qed.

Lemma AssignedToTheTeam_loop_cons (i : GithubIssue) (rest : list GithubIssue)
    (teamMembers : list Person) :
  AssignedToTheTeam_loop (i :: rest) teamMembers
  = AssignedToTheTeam_loop [i] teamMembers
      ++ AssignedToTheTeam_loop rest teamMembers.
Proof.
  simpl.
  destruct (PersonByGithubHandle teamMembers (Handle (Author i)));
    destruct (PersonByGithubHandle teamMembers (Handle (Assignee _)));
    reflexivity.
Qed.

Lemma stage_excludes (i : GithubIssue) (roster : list Person) :
  Resolve.absent roster (Handle (Assignee i)) ->
  AssignedToTheTeam_loop [i] roster = [].
Proof.
  intros Ha. apply PersonByGithubHandle_absent in Ha. simpl.
  destruct (PersonByGithubHandle roster (Handle (Author i))); simpl;
    now rewrite Ha.
Qed.

Lemma stage_resolves (i : GithubIssue) (roster : list Person) (p : Person) :
  Resolve.resolves_to roster (Handle (Assignee i)) p ->
  exists o,
    AssignedToTheTeam_loop [i] roster = [o]
    /\ Assignee o = mkAccount (Handle (Assignee i)) (Jira p)
    /\ Resolve.same_issue i o
    /\ (Resolve.absent roster (Handle (Author i)) -> Author o = Author i)
    /\ (forall q, Resolve.resolves_to roster (Handle (Author i)) q ->
                  Author o = mkAccount (Handle (Author i)) (Jira q)).
Proof.
  intros Hp. apply PersonByGithubHandle_resolves in Hp. simpl.
  destruct (PersonByGithubHandle roster (Handle (Author i))) as [a|] eqn:Ha;
    simpl; rewrite Hp; eexists; (split; [reflexivity|]); simpl;
    (split; [reflexivity|]); (split; [repeat split|]); split.
  - intros Hn. apply PersonByGithubHandle_absent in Hn. congruence.
  - intros q Hq. apply PersonByGithubHandle_resolves in Hq. congruence.
  - reflexivity.
  - intros q Hq. apply PersonByGithubHandle_resolves in Hq. congruence.
Qed.

(** C9.  The stage takes the issues one by one, in order, and ends as
    its input does.  An issue whose assignee handle is absent from the
    roster is not sent.  An issue whose assignee handle the roster
    resolves to [p], its first entry with that Github handle, is sent,
    once, with the Jira name of [p] as the username of its assignee; but
    for the two usernames it is the issue received, and the username of
    its author is the Jira name of the entry its handle resolves to, if
    any.  With the roster [main] passes, the entries are the team members
    of the people file. *)
Theorem AssignedToTheTeam_filters_and_resolves
    (issues : Stream GithubIssue) (people : list Person)
    (teamMembers : list Person) (i : GithubIssue) :
  sent (AssignedToTheTeam issues teamMembers)
    = concat (map (fun i => sent (AssignedToTheTeam (mkStream [i] Closed)
                                    teamMembers))
                (sent issues))
  /\ ending (AssignedToTheTeam issues teamMembers) = ending issues
  /\ (Resolve.absent teamMembers (Handle (Assignee i)) ->
      sent (AssignedToTheTeam (mkStream [i] Closed) teamMembers) = [])
  /\ (forall p,
        Resolve.resolves_to teamMembers (Handle (Assignee i)) p ->
        exists o,
          sent (AssignedToTheTeam (mkStream [i] Closed) teamMembers) = [o]
          /\ Assignee o = mkAccount (Handle (Assignee i)) (Jira p)
          /\ Resolve.same_issue i o
          /\ (Resolve.absent teamMembers (Handle (Author i)) ->
              Author o = Author i)
          /\ (forall q,
                Resolve.resolves_to teamMembers (Handle (Author i)) q ->
                Author o = mkAccount (Handle (Author i)) (Jira q)))
  /\ (Resolve.member_absent people (Handle (Assignee i)) ->
      sent (AssignedToTheTeam (mkStream [i] Closed) (team_members people)) = [])
  /\ (forall p,
        Resolve.member_resolves_to people (Handle (Assignee i)) p ->
        exists o,
          sent (AssignedToTheTeam (mkStream [i] Closed) (team_members people))
            = [o]
          /\ Assignee o = mkAccount (Handle (Assignee i)) (Jira p)
          /\ Resolve.same_issue i o).
Proof.
  unfold AssignedToTheTeam. cbn [sent ending].
  split.
  { induction (sent issues) as [|j rest IH]; [reflexivity|].
    rewrite AssignedToTheTeam_loop_cons, IH. reflexivity. }
  split; [reflexivity|].
  split; [apply stage_excludes|].
  split; [apply stage_resolves|].
  split.
  - intros Ha. apply stage_excludes. now apply team_members_absent.
  - intros p Hp. apply team_members_resolves in Hp.
    destruct (stage_resolves i _ p Hp) as (o & Ho & Ha & Hs & _).
    exists o. auto.
Qed.

Lemma AssignedToTheTeam_filters_and_resolves_witness :
  let carol := mkPerson "carol" "carol-gh" "carol@corp" "U03" false false [] in
  let dave := mkPerson "dave" "dave-gh" "dave@corp" "U04" true false [] in
  let erin := mkPerson "erin" "dave-gh" "erin@corp" "U05" true false [] in
  let i := mkGithubIssue "a title" "a body" "https://github.com/o/r/issues/5" 5
             (mkAccount "carol-gh" EmptyString) (mkAccount "dave-gh" EmptyString)
             "open" None in
  Resolve.member_resolves_to [carol; dave; erin] (Handle (Assignee i)) dave
  /\ exists o,
       sent (AssignedToTheTeam (mkStream [i] Closed)
               (team_members [carol; dave; erin])) = [o]
       /\ Assignee o = mkAccount (Handle (Assignee i)) (Jira dave)
       /\ Resolve.same_issue i o.
Proof.
  intros carol dave erin i.
  assert (H : Resolve.member_resolves_to [carol; dave; erin]
                (Handle (Assignee i)) dave).
  { exists [carol], [erin]. split; [reflexivity|]. split; [reflexivity|].
    split; [reflexivity|]. repeat constructor. discriminate. }
  split; [exact H|].
  exact (proj2 (proj2 (proj2 (proj2 (proj2
           (AssignedToTheTeam_filters_and_resolves
              (mkStream [i] Closed) [carol; dave; erin] [] i))))) dave H).
Defined.

End Producers.

(** ** Pagination *)

Section Pagination.
Import jira query ghira Pages.

Example next_url_page2 :
  next_url (linked page2_link)
  = "https://api.github.com/repositories/1/issues?state=all&page=2".
Proof. vm_compute. reflexivity. Qed.

Example next_url_none : next_url unlinked = EmptyString.
Proof. reflexivity. Qed.

Lemma search_loop_done (replies : list SearchReply) (last total : Z) :
  (last <? total) = false ->
  search_loop replies last total = mkSearchRun [] (mkStream [] Closed).
Proof. intros H. destruct replies; simpl; now rewrite H. Qed.

Lemma search_loop_page (issues : list Issue) (res : jira.Response)
    (rest : list SearchReply) (last total : Z) :
  (last <? total) = true -> status_accepted res = true ->
  search_loop (SearchPage issues res :: rest) last total =
  let r := search_loop rest
             (GoInt.add (StartAt res) (Z.of_nat (length issues))) (Total res) in
  mkSearchRun (last :: search_requests r)
    (mkStream (issues ++ sent (search_stream r)) (ending (search_stream r))).
Proof. intros H1 H2. simpl. now rewrite H1, H2. Qed.

Lemma search_loop_pages (pages : list (list Issue * jira.Response))
    (lastp : list Issue * jira.Response) (extra : list SearchReply)
    (last total : Z) :
  (last <? total) = true ->
  Forall (fun p => status_accepted (snd p) = true /\ search_has_next p = true)
    pages ->
  status_accepted (snd lastp) = true -> search_has_next lastp = false ->
  search_loop (map search_reply (pages ++ [lastp]) ++ extra) last total =
  mkSearchRun (last :: map search_next pages)
    (mkStream (concat (map fst (pages ++ [lastp]))) Closed).
Proof.
  intros Hlt Hpages Hok Hlast. revert last total Hlt.
  induction Hpages as [|p pages [Hp1 Hp2] _ IH]; intros last total Hlt.
  - simpl map. simpl app. unfold search_reply at 1.
    rewrite search_loop_page by assumption.
    rewrite search_loop_done by exact Hlast.
    simpl. now rewrite !app_nil_r.
  - simpl map. simpl app. unfold search_reply at 1.
    rewrite search_loop_page by assumption.
    rewrite IH by exact Hp2. reflexivity.
Qed.

Lemma fetch_loop_done (exchanges : list Exchange) :
  fetch_loop exchanges EmptyString = mkFetchRun [] (mkStream [] Closed).
Proof. destruct exchanges; reflexivity. Qed.

Lemma fetch_loop_page (res : http.Response) (issueBatch : list GithubIssue)
    (rest : list Exchange) (url : string) :
  url <> EmptyString -> http.StatusCode res = 200 ->
  fetch_loop (Answered res (Some issueBatch) :: rest) url =
  let r := fetch_loop rest (next_url res) in
  mkFetchRun (url :: fetch_requests r)
    (mkStream (send_issues issueBatch ++ sent (fetch_stream r))
       (ending (fetch_stream r))).
Proof.
  intros Hurl Hst. simpl.
  destruct (String.eqb_spec url EmptyString); [congruence|].
  now rewrite Hst.
Qed.

Lemma fetch_loop_pages (pages : list (http.Response * list GithubIssue))
    (lastp : http.Response * list GithubIssue) (extra : list Exchange)
    (url : string) :
  url <> EmptyString ->
  Forall (fun p => fetch_ok p = true /\ fetch_has_next p = true) pages ->
  fetch_ok lastp = true -> fetch_has_next lastp = false ->
  fetch_loop (map fetch_reply (pages ++ [lastp]) ++ extra) url =
  mkFetchRun (url :: map (fun p => next_url (fst p)) pages)
    (mkStream (concat (map (fun p => send_issues (snd p)) (pages ++ [lastp])))
       Closed).
Proof.
  intros Hurl Hpages Hok Hlast. revert url Hurl.
  unfold fetch_ok in Hok. apply Z.eqb_eq in Hok.
  unfold fetch_has_next in Hlast. apply negb_false_iff in Hlast.
  apply String.eqb_eq in Hlast.
  induction Hpages as [|p pages [Hp1 Hp2] _ IH]; intros url Hurl.
  - simpl map. simpl app. unfold fetch_reply at 1.
    rewrite fetch_loop_page by assumption.
    rewrite Hlast, fetch_loop_done. simpl. now rewrite !app_nil_r.
  - simpl map. simpl app. unfold fetch_reply at 1.
    unfold fetch_ok in Hp1. apply Z.eqb_eq in Hp1.
    unfold fetch_has_next in Hp2. apply negb_true_iff in Hp2.
    rewrite fetch_loop_page by assumption.
    rewrite IH; [reflexivity|].
    intros Heq. rewrite Heq in Hp2. discriminate.
Qed.

(** C7, as the code has it.  Given N successful pages of which all but
    the last advertise a next page, the tracker search sends the issues
    of the N pages, in order, closes its channel and has issued N
    searches; the source fetcher issues N requests, closes its channel,
    and has sent the entries of the N pages that are not pull requests.
    Replies scripted after the N-th are not asked for. *)
Theorem pagination_emits_all_pages_and_stops
    (spages : list (list Issue * jira.Response))
    (slast : list Issue * jira.Response) (sextra : list SearchReply)
    (fpages : list (http.Response * list GithubIssue))
    (flast : http.Response * list GithubIssue) (fextra : list Exchange) :
  Forall (fun p => status_accepted (snd p) = true /\ search_has_next p = true)
    spages ->
  status_accepted (snd slast) = true -> search_has_next slast = false ->
  Forall (fun p => fetch_ok p = true /\ fetch_has_next p = true) fpages ->
  fetch_ok flast = true -> fetch_has_next flast = false ->
  (search_stream (SearchIssues (map search_reply (spages ++ [slast]) ++ sextra))
     = mkStream (concat (map fst (spages ++ [slast]))) Closed
   /\ length (search_requests
        (SearchIssues (map search_reply (spages ++ [slast]) ++ sextra)))
      = length (spages ++ [slast]))
  /\ (fetch_stream (fetchGitHubIssues (map fetch_reply (fpages ++ [flast]) ++ fextra))
        = mkStream
            (List.filter
               (fun i => match IsPR i with None => true | Some _ => false end)
               (concat (map snd (fpages ++ [flast]))))
            Closed
      /\ length (fetch_requests
           (fetchGitHubIssues (map fetch_reply (fpages ++ [flast]) ++ fextra)))
         = length (fpages ++ [flast])).
Proof.
  intros Hs Hsok Hslast Hf Hfok Hflast. split.
  - unfold SearchIssues. rewrite search_loop_pages by (assumption || reflexivity).
    simpl. split; [reflexivity|].
    rewrite length_map, length_app. simpl. lia.
  - unfold fetchGitHubIssues. rewrite fetch_loop_pages by (assumption || discriminate).
    simpl. split.
    + f_equal. generalize (fpages ++ [flast]). intros l.
      induction l as [|p l IH]; simpl; [reflexivity|].
      now rewrite List.filter_app, IH, send_issues_filter.
    + rewrite length_map, length_app. simpl. lia.
Qed.

End Pagination.

Section PaginationSamples.
Import jira query ghira Pages Samples.

Lemma pagination_emits_all_pages_and_stops_witness :
  (Forall (fun p => status_accepted (snd p) = true /\ search_has_next p = true)
     [search_page1]
   /\ status_accepted (snd search_page2) = true
   /\ search_has_next search_page2 = false
   /\ Forall (fun p => fetch_ok p = true /\ fetch_has_next p = true) [fetch_page1]
   /\ fetch_ok fetch_page2 = true
   /\ fetch_has_next fetch_page2 = false)
  /\ (search_stream (SearchIssues (map search_reply ([search_page1] ++ [search_page2]) ++ [search_created]))
        = mkStream (concat (map fst ([search_page1] ++ [search_page2]))) Closed
      /\ length (search_requests
           (SearchIssues (map search_reply ([search_page1] ++ [search_page2]) ++ [search_created])))
         = length ([search_page1] ++ [search_page2]))
     /\ (fetch_stream (fetchGitHubIssues (map fetch_reply ([fetch_page1] ++ [fetch_page2]) ++ [TransportFailed]))
           = mkStream
               (List.filter
                  (fun i => match IsPR i with None => true | Some _ => false end)
                  (concat (map snd ([fetch_page1] ++ [fetch_page2]))))
               Closed
         /\ length (fetch_requests
              (fetchGitHubIssues (map fetch_reply ([fetch_page1] ++ [fetch_page2]) ++ [TransportFailed])))
            = length ([fetch_page1] ++ [fetch_page2])).
Proof.
  assert (H1 : Forall (fun p => status_accepted (snd p) = true
                               /\ search_has_next p = true) [search_page1]).
  { constructor; [split; reflexivity|constructor]. }
  assert (H2 : Forall (fun p => fetch_ok p = true /\ fetch_has_next p = true)
                 [fetch_page1]).
  { constructor; [split; vm_compute; reflexivity|constructor]. }
  split.
  - repeat split; try exact H1; try exact H2; vm_compute; reflexivity.
  - apply (pagination_emits_all_pages_and_stops
             [search_page1] search_page2 [search_created]
             [fetch_page1] fetch_page2 [TransportFailed]);
      try exact H1; try exact H2; vm_compute; reflexivity.
Defined.

(** C7 as it is worded fails on a page that holds a pull request: the
    page is successful and the last one, and the fetcher sends nothing
    of it. *)
Lemma fetcher_does_not_emit_every_item :
  fetch_ok fetch_page_pr = true
  /\ fetch_has_next fetch_page_pr = false
  /\ fetch_stream (fetchGitHubIssues (map fetch_reply [fetch_page_pr]))
     = mkStream [] Closed
  /\ sent (fetch_stream (fetchGitHubIssues (map fetch_reply [fetch_page_pr])))
     <> concat (map snd [fetch_page_pr]).
Proof. repeat split; try (vm_compute; reflexivity). discriminate. Qed.

End PaginationSamples.

(** ** How the producers end *)

Section Endings.
Import team jira query ghira Pages Samples.

(** The fetcher never returns with its channel open: it closes it, or
    [log.Fatalf] ends the process. *)
Lemma fetch_loop_ending (exchanges : list Exchange) (url : string) :
  ending (fetch_stream (fetch_loop exchanges url)) <> LeftOpen.
Proof.
  revert url. induction exchanges as [|e rest IH]; intros url; simpl.
  - destruct (String.eqb url EmptyString); discriminate.
  - destruct (String.eqb url EmptyString); [discriminate|].
    destruct e as [| |res decoded]; simpl; try discriminate.
    destruct (negb (http.StatusCode res =? 200)); simpl; [discriminate|].
    destruct decoded; simpl; [apply IH|discriminate].
Qed.

(** The filter/resolve stage ends as its input does. *)
Lemma AssignedToTheTeam_ending (issues : Stream GithubIssue)
    (teamMembers : list Person) :
  ending (AssignedToTheTeam issues teamMembers) = ending issues.
Proof. reflexivity. Qed.

(** The search leaves its channel open exactly when a page comes back
    without an error and with a status that is none of 200, 202, 204. *)
Lemma search_loop_left_open (replies : list SearchReply) (last total : Z) :
  ending (search_stream (search_loop replies last total)) = LeftOpen ->
  exists issues res, SearchPage issues res ∈ replies
                     /\ status_accepted res = false.
Proof.
  revert last total. induction replies as [|r rest IH]; intros last total; simpl.
  - destruct (negb (last <? total)); discriminate.
  - destruct (negb (last <? total)); [discriminate|].
    destruct r as [err|issues res]; simpl; [discriminate|].
    destruct (status_accepted res) eqn:Hst; simpl.
    + intros H. destruct (IH _ _ H) as (i & r & Hin & Hr).
      exists i, r. split; [now constructor|exact Hr].
    + intros _. exists issues, res. split; [constructor|exact Hst].
Qed.

End Endings.

(** ** The reconciler *)

Section Reconciler.
Import jira ghira.

Lemma pick_transitions_closed (ts : list Transition) (acc : string * string) :
  (forall tr, tr ∈ ts -> Transition_Name tr <> "Closed") ->
  snd (pick_transitions ts acc) = snd acc.
Proof.
  revert acc. induction ts as [|v rest IH]; intros acc Hno; simpl; [reflexivity|].
  rewrite IH by (intros tr Hin; apply Hno; now constructor).
  destruct (String.eqb_spec (Transition_Name v) "Closed") as [Heq|_].
  - exfalso. apply (Hno v); [constructor|exact Heq].
  - now destruct (String.eqb (Transition_Name v) "To Do").
Qed.

Lemma pick_transitions_todo (ts : list Transition) (acc : string * string) :
  (forall tr, tr ∈ ts -> Transition_Name tr <> "To Do") ->
  fst (pick_transitions ts acc) = fst acc.
Proof.
  revert acc. induction ts as [|v rest IH]; intros acc Hno; simpl; [reflexivity|].
  rewrite IH by (intros tr Hin; apply Hno; now constructor).
  destruct (String.eqb_spec (Transition_Name v) "Closed") as [_|_]; [reflexivity|].
  destruct (String.eqb_spec (Transition_Name v) "To Do") as [Heq|_]; [|reflexivity].
  exfalso. apply (Hno v); [constructor|exact Heq].
Qed.

(** The id kept for "Closed" is the id of a transition of that name. *)
Lemma pick_transitions_closed_found (ts : list Transition) (acc : string * string) :
  (exists tr, tr ∈ ts /\ Transition_Name tr = "Closed") ->
  exists tr, tr ∈ ts /\ Transition_Name tr = "Closed"
             /\ ID tr = snd (pick_transitions ts acc).
Proof.
  revert acc. induction ts as [|v rest IH]; intros acc [tr [Hin Hname]].
  - inversion Hin.
  - simpl.
    destruct (decide (Exists (fun tr' => Transition_Name tr' = "Closed") rest))
      as [Hrest|Hnone]; rewrite Exists_exists in *.
    + destruct (IH (if String.eqb (Transition_Name v) "Closed"
                    then (fst acc, ID v)
                    else if String.eqb (Transition_Name v) "To Do"
                         then (ID v, snd acc) else acc) Hrest)
        as (tr' & Hin' & Hn' & Hid').
      exists tr'. split; [now constructor|]. split; assumption.
    + assert (Hv : Transition_Name v = "Closed").
      { apply elem_of_cons in Hin as [->|Hin]; [exact Hname|].
        exfalso. apply Hnone. exists tr. split; assumption. }
      exists v. split; [constructor|]. split; [exact Hv|].
      rewrite pick_transitions_closed.
      * rewrite Hv. reflexivity.
      * intros tr' Hin' Hn'. apply Hnone. exists tr'. split; assumption.
Qed.

Lemma pick_transitions_todo_found (ts : list Transition) (acc : string * string) :
  (exists tr, tr ∈ ts /\ Transition_Name tr = "To Do") ->
  exists tr, tr ∈ ts /\ Transition_Name tr = "To Do"
             /\ ID tr = fst (pick_transitions ts acc).
Proof.
  revert acc. induction ts as [|v rest IH]; intros acc [tr [Hin Hname]].
  - inversion Hin.
  - simpl.
    destruct (decide (Exists (fun tr' => Transition_Name tr' = "To Do") rest))
      as [Hrest|Hnone]; rewrite Exists_exists in *.
    + destruct (IH (if String.eqb (Transition_Name v) "Closed"
                    then (fst acc, ID v)
                    else if String.eqb (Transition_Name v) "To Do"
                         then (ID v, snd acc) else acc) Hrest)
        as (tr' & Hin' & Hn' & Hid').
      exists tr'. split; [now constructor|]. split; assumption.
    + assert (Hv : Transition_Name v = "To Do").
      { apply elem_of_cons in Hin as [->|Hin]; [exact Hname|].
        exfalso. apply Hnone. exists tr. split; assumption. }
      exists v. split; [constructor|]. split; [exact Hv|].
      rewrite pick_transitions_todo.
      * rewrite Hv. reflexivity.
      * intros tr' Hin' Hn'. apply Hnone. exists tr'. split; assumption.
Qed.

End Reconciler.

Section Decision.
Import jira ghira.
Context {S : Type} (t : Tracker S).

Lemma run_reconcile_issue_create (alreadyKnown : gmap Z knownIssue)
    (issue : GithubIssue) (s : S) :
  alreadyKnown !! Number issue = None ->
  calls (run t (reconcile_issue alreadyKnown issue) s) = [Create (new_issue issue)].
Proof.
  intros Hnone. unfold reconcile_issue, createJiraIssue. rewrite Hnone.
  simpl. destruct (on_Create t (new_issue issue) s) as [r s'].
  destruct (create_err r); [destruct (create_response r)|]; reflexivity.
Qed.

Lemma run_reconcile_issue_known (alreadyKnown : gmap Z knownIssue)
    (issue : GithubIssue) (s : S) (key st : string) :
  alreadyKnown !! Number issue = Some (mkKnownIssue key (Some (mkStatus st))) ->
  calls (run t (reconcile_issue alreadyKnown issue) s) =
  GetTransitions key ::
  (let ts := fst (on_GetTransitions t key s) in
   if String.eqb (Status issue) "closed" && negb (String.eqb st "Closed")
   then [DoTransition key (snd (pick_transitions ts (EmptyString, EmptyString)))]
   else if String.eqb (Status issue) "open" && String.eqb st "Closed"
        then [DoTransition key (fst (pick_transitions ts (EmptyString, EmptyString)))]
        else []).
Proof.
  intros Hk. unfold reconcile_issue. rewrite Hk. simpl.
  destruct (on_GetTransitions t key s) as [ts s']. simpl.
  destruct (pick_transitions ts (EmptyString, EmptyString)) as [todo closed].
  unfold status_name. simpl.
  destruct (String.eqb (Status issue) "closed"); simpl.
  - destruct (String.eqb st "Closed"); simpl.
    + destruct (String.eqb (Status issue) "open"); simpl.
      * destruct (on_DoTransition t key todo s'). reflexivity.
      * reflexivity.
    + destruct (on_DoTransition t key closed s'). reflexivity.
  - destruct (String.eqb (Status issue) "open"); simpl; [|reflexivity].
    destruct (String.eqb st "Closed"); simpl; [|reflexivity].
    destruct (on_DoTransition t key todo s'). reflexivity.
Qed.

(** An entry without a status: the transitions are listed; reading the
    name of the status faults when the issue is closed or open. *)
Lemma run_reconcile_issue_statusless (alreadyKnown : gmap Z knownIssue)
    (issue : GithubIssue) (s : S) (key : string) :
  alreadyKnown !! Number issue = Some (mkKnownIssue key None) ->
  calls (run t (reconcile_issue alreadyKnown issue) s) = [GetTransitions key].
Proof.
  intros Hk. unfold reconcile_issue. rewrite Hk. simpl.
  destruct (on_GetTransitions t key s) as [ts s']. simpl.
  destruct (pick_transitions ts (EmptyString, EmptyString)) as [todo closed].
  unfold status_name. simpl.
  destruct (String.eqb (Status issue) "closed"); simpl; [reflexivity|].
  destruct (String.eqb (Status issue) "open"); reflexivity.
Qed.


End Decision.

Section DecisionScenarios.
Import jira ghira Scenario.


End DecisionScenarios.

(** ** The tracker-state index *)

Section IndexFacts.
Import jira ghira Index.

Lemma FindStringSubmatch_unfold (s : string) :
  regexp.ghIssueNumberRegex_FindStringSubmatch s =
  match regexp.ghIssueNumber_at s with
  | Some ds => ["GH-orc-" +:+ ds +:+ ": "; ds]
  | None =>
      match s with
      | EmptyString => []
      | String _ s' => regexp.ghIssueNumberRegex_FindStringSubmatch s'
      end
  end.
Proof. destruct s; reflexivity. Qed.

(** The match is either nil or the pair of the whole match and the
    group. *)
Lemma FindStringSubmatch_shape (s : string) :
  regexp.ghIssueNumberRegex_FindStringSubmatch s = []
  \/ exists whole ds, regexp.ghIssueNumberRegex_FindStringSubmatch s = [whole; ds].
Proof.
  induction s as [|c s IH]; rewrite FindStringSubmatch_unfold.
  - destruct (regexp.ghIssueNumber_at EmptyString); eauto.
  - destruct (regexp.ghIssueNumber_at (String c s)); eauto.
Qed.

(** One turn of the index loop on an issue it gets past. *)
Lemma alreadyKnown_loop_step (issue : Issue) (rest : list Issue)
    (m : gmap Z knownIssue) :
  indexable issue = true ->
  alreadyKnown_loop (issue :: rest) m =
  alreadyKnown_loop rest
    (match issue_number issue with
     | Some n => <[n := record_of issue]> m
     | None => m
     end).
Proof.
  unfold indexable, issue_number, record_of, summary_number. simpl.
  destruct (Fields issue) as [fields|]; [|discriminate].
  destruct (FindStringSubmatch_shape (Summary fields)) as [->|(w & ds & ->)];
    [reflexivity|].
  destruct (strconv.Atoi ds) as [n [e|]]; [discriminate|reflexivity].
Qed.

(** An issue the loop does not get past makes it panic. *)
Lemma alreadyKnown_loop_panics (issue : Issue) (rest : list Issue)
    (m : gmap Z knownIssue) :
  indexable issue = false ->
  alreadyKnown_loop (issue :: rest) m = Halt Panicked.
Proof.
  unfold indexable. simpl.
  destruct (Fields issue) as [fields|]; [|reflexivity].
  destruct (FindStringSubmatch_shape (Summary fields)) as [->|(w & ds & ->)];
    [discriminate|].
  destruct (strconv.Atoi ds) as [n [e|]]; [reflexivity|discriminate].
Qed.

Lemma last_numbered_app {A} (num : A -> option Z) (n : Z) (l1 l2 : list A) :
  last_numbered num n (l1 ++ l2) =
  match last_numbered num n l2 with
  | Some y => Some y
  | None => last_numbered num n l1
  end.
Proof.
  induction l1 as [|x l1 IH]; simpl.
  - now destruct (last_numbered num n l2).
  - rewrite IH. now destruct (last_numbered num n l2).
Qed.

Lemma last_numbered_none {A} (num : A -> option Z) (n : Z) (l : list A) :
  Forall (fun x => num x <> Some n) l -> last_numbered num n l = None.
Proof.
  induction 1 as [|x l Hx _ IH]; simpl; [reflexivity|].
  rewrite IH. destruct (decide (num x = Some n)); [contradiction|reflexivity].
Qed.

Lemma last_numbered_elem {A} (num : A -> option Z) (n : Z) (l : list A) (x : A) :
  last_numbered num n l = Some x -> x ∈ l /\ num x = Some n.
Proof.
  induction l as [|y l IH]; simpl; [discriminate|].
  destruct (last_numbered num n l) as [z|].
  - intros [= ->]. destruct (IH eq_refl). split; [now constructor|assumption].
  - destruct (decide (num y = Some n)); [|discriminate].
    intros [= ->]. split; [constructor|assumption].
Qed.

Lemma last_numbered_map {A B} (f : A -> B) (num : B -> option Z) (n : Z)
    (l : list A) :
  last_numbered num n (map f l) = f <$> last_numbered (fun x => num (f x)) n l.
Proof.
  induction l as [|x l IH]; simpl; [reflexivity|].
  rewrite IH. destruct (last_numbered (fun x => num (f x)) n l); simpl;
    [reflexivity|].
  destruct (decide (num (f x) = Some n)); reflexivity.
Qed.

(** The index the loop builds: under each number, the record of the last
    issue of the stream that carries it. *)
Lemma alreadyKnown_loop_last (issues : list Issue) (m : gmap Z knownIssue) :
  Forall (fun i => indexable i = true) issues ->
  exists m', alreadyKnown_loop issues m = Ret m'
    /\ forall n, m' !! n =
         match last_numbered issue_number n issues with
         | Some i => Some (record_of i)
         | None => m !! n
         end.
Proof.
  intros Hall. revert m. induction Hall as [|i rest Hi _ IH]; intros m.
  - exists m. split; reflexivity.
  - rewrite alreadyKnown_loop_step by exact Hi.
    destruct (IH (match issue_number i with
                  | Some n => <[n := record_of i]> m
                  | None => m
                  end)) as (m' & Hrun & Hlook).
    exists m'. split; [exact Hrun|]. intros n. rewrite Hlook. simpl.
    destruct (last_numbered issue_number n rest); [reflexivity|].
    destruct (decide (issue_number i = Some n)) as [Heq|Hne].
    + rewrite Heq. apply lookup_insert_eq.
    + destruct (issue_number i) as [k|]; [|reflexivity].
      apply lookup_insert_ne. congruence.
Qed.

(** C5, as the code has it.  When several issues of the search stream
    carry the same number, the index holds one record under that number,
    the record of the last of them in stream order: each later one
    overwrites the entry ([alreadyKnown[n] = ...]). *)
Theorem index_keeps_last_duplicate (before after : list Issue) (issue : Issue)
    (n : Z) :
  Forall (fun i => indexable i = true) (before ++ issue :: after) ->
  issue_number issue = Some n ->
  Forall (fun i => issue_number i <> Some n) after ->
  exists m, alreadyKnown_loop (before ++ issue :: after) ∅ = Ret m
    /\ m !! n = Some (record_of issue).
Proof.
  intros Hall Hn Hafter.
  destruct (alreadyKnown_loop_last _ ∅ Hall) as (m & Hrun & Hlook).
  exists m. split; [exact Hrun|].
  rewrite Hlook, last_numbered_app. simpl.
  rewrite (last_numbered_none _ _ _ Hafter).
  destruct (decide (issue_number issue = Some n)); [reflexivity|contradiction].
Qed.

End IndexFacts.

Section IndexScenarios.
Import jira ghira Index Scenario.

Lemma index_keeps_last_duplicate_witness :
  (Forall (fun i => indexable i = true)
     ([duplicate_first] ++ duplicate_second :: [])
   /\ issue_number duplicate_second = Some 5
   /\ Forall (fun i => issue_number i <> Some 5) [])
  /\ exists m,
       alreadyKnown_loop ([duplicate_first] ++ duplicate_second :: []) ∅ = Ret m
       /\ m !! 5 = Some (record_of duplicate_second).
Proof.
  assert (H1 : Forall (fun i => indexable i = true)
                 ([duplicate_first] ++ duplicate_second :: [])).
  { repeat constructor. }
  assert (H2 : issue_number duplicate_second = Some 5) by reflexivity.
  assert (H3 : Forall (fun i : Issue => issue_number i <> Some 5) [])
    by constructor.
  split; [repeat split; assumption|].
  exact (index_keeps_last_duplicate [duplicate_first] [] duplicate_second 5
           H1 H2 H3).
Defined.

(** C5 as it is worded fails: of two tickets that carry the number 5,
    the index keeps the second, not the first. *)
Lemma index_does_not_keep_first_duplicate :
  issue_number duplicate_first = Some 5
  /\ issue_number duplicate_second = Some 5
  /\ exists m,
       alreadyKnown_loop [duplicate_first; duplicate_second] ∅ = Ret m
       /\ m !! 5 = Some (mkKnownIssue "OSASINFRA-51" (Some (mkStatus "Closed")))
       /\ m !! 5 <> Some (record_of duplicate_first).
Proof.
  split; [reflexivity|]. split; [reflexivity|].
  eexists. split; [reflexivity|]. split; [reflexivity|].
  vm_compute. discriminate.
Qed.

End IndexScenarios.

(** ** From a created ticket back to the number *)

Section RoundTrip.
Import jira ghira Index.

(** The pattern finds the tag at the start of a summary written by
    [createJiraIssue], and its group is the digits of the number. *)
Lemma FindStringSubmatch_tag (n : Z) (title : string) :
  0 <= n ->
  regexp.ghIssueNumberRegex_FindStringSubmatch
    ("GH-orc-" +:+ strconv.Itoa n +:+ ": " +:+ title)
  = ["GH-orc-" +:+ strconv.Itoa n +:+ ": "; strconv.Itoa n].
Proof.
  intros Hn. rewrite FindStringSubmatch_unfold.
  unfold regexp.ghIssueNumber_at. rewrite strip_prefix_append.
  change (": " +:+ title) with (String ":" (String " " title)).
  rewrite span_digits_append; [|now apply Itoa_digits|reflexivity].
  pose proof (Itoa_nonempty n) as Hne.
  destruct (strconv.Itoa n) as [|c ds]; [congruence|]. reflexivity.
Qed.

Lemma summary_number_tag (n : Z) (title : string) :
  0 <= n <= GoInt.max_int ->
  summary_number ("GH-orc-" +:+ strconv.Itoa n +:+ ": " +:+ title) = Some n.
Proof.
  intros Hn. unfold summary_number.
  rewrite FindStringSubmatch_tag by lia. now rewrite Atoi_Itoa.
Qed.

Lemma indexable_numbered (i : Issue) (n : Z) :
  issue_number i = Some n -> indexable i = true.
Proof.
  unfold issue_number, indexable, summary_number.
  destruct (Fields i) as [fields|]; [|discriminate].
  destruct (regexp.ghIssueNumberRegex_FindStringSubmatch (Summary fields))
    as [|w [|s1 l]]; [discriminate|discriminate|].
  destruct (strconv.Atoi s1) as [k [e|]]; [discriminate|reflexivity].
Qed.

(** C6, as the code has it.  For an issue whose number is not negative,
    the summary [createJiraIssue] writes starts with the tag
    [GH-orc-<number>: ]; the pattern of the index reads the number back
    from it; and the index built from the stored ticket holds the
    ticket's key and status under that number. *)
Theorem created_summary_round_trip (issue : GithubIssue) (key : string)
    (st : option jira.Status) :
  0 <= Number issue -> GoInt.is_int (Number issue) ->
  exists fields,
    Fields (new_issue issue) = Some fields
    /\ Summary fields
       = ("GH-orc-" +:+ strconv.Itoa (Number issue) +:+ ": ") +:+ Title issue
    /\ summary_number (Summary fields) = Some (Number issue)
    /\ exists m,
         alreadyKnown_loop [mkIssue key (Some (Board.with_status fields st))] ∅
           = Ret m
         /\ m !! Number issue = Some (mkKnownIssue key st).
Proof.
  intros H0 [_ Hmax]. eexists. split; [reflexivity|].
  assert (Hnum : summary_number
                   ("GH-orc-" +:+ strconv.Itoa (Number issue) +:+ ": "
                    +:+ Title issue) = Some (Number issue))
    by (apply summary_number_tag; lia).
  split; [|split].
  - simpl. now rewrite !append_assoc.
  - exact Hnum.
  - set (stored := mkIssue key _).
    assert (Hstored : issue_number stored = Some (Number issue)) by exact Hnum.
    exists (<[Number issue := mkKnownIssue key st]> ∅).
    split; [|apply lookup_insert_eq].
    rewrite alreadyKnown_loop_step by (now apply indexable_numbered in Hstored).
    rewrite Hstored. reflexivity.
Qed.

End RoundTrip.

Section RoundTripScenarios.
Import jira ghira Index Scenario.

Lemma created_summary_round_trip_witness :
  (0 <= Number item42 /\ GoInt.is_int (Number item42))
  /\ exists fields,
       Fields (new_issue item42) = Some fields
       /\ Summary fields
          = ("GH-orc-" +:+ strconv.Itoa (Number item42) +:+ ": ") +:+ Title item42
       /\ summary_number (Summary fields) = Some (Number item42)
       /\ exists m,
            alreadyKnown_loop
              [mkIssue "OSASINFRA-60"
                 (Some (Board.with_status fields (Some (mkStatus "To Do"))))] ∅
              = Ret m
            /\ m !! Number item42
               = Some (mkKnownIssue "OSASINFRA-60" (Some (mkStatus "To Do"))).
Proof.
  assert (H0 : 0 <= Number item42) by (simpl; lia).
  assert (H1 : GoInt.is_int (Number item42)) by (vm_compute; split; discriminate).
  split; [split; assumption|].
  exact (created_summary_round_trip item42 "OSASINFRA-60"
           (Some (mkStatus "To Do")) H0 H1).
Defined.

(** C6 as it is worded fails on a negative number: [Itoa] writes a sign,
    the pattern wants a digit after [GH-orc-], and the index built from
    the stored ticket has nothing under the number. *)
Lemma negative_number_does_not_round_trip :
  exists fields,
    Fields (new_issue item_negative) = Some fields
    /\ Summary fields = "GH-orc--5: odd"
    /\ regexp.ghIssueNumberRegex_FindStringSubmatch (Summary fields) = []
    /\ exists m,
         alreadyKnown_loop
           [mkIssue "OSASINFRA-60"
              (Some (Board.with_status fields (Some (mkStatus "To Do"))))] ∅
           = Ret m
         /\ m !! Number item_negative = None.
Proof.
  eexists. split; [reflexivity|]. split; [reflexivity|]. split; [reflexivity|].
  eexists. split; reflexivity.
Qed.

End RoundTripScenarios.

(** ** Running the reconciler against the tracker *)

Section RunFacts.
Import jira ghira.
Context {S : Type} (t : Tracker S).

Lemma run_bind {A B} (p : Prog A) (f : A -> Prog B) (s : S) :
  run t (bind p f) s =
  match result (run t p s) with
  | inl a =>
      mkRun (calls (run t p s) ++ calls (run t (f a) (final (run t p s))))
        (final (run t (f a) (final (run t p s))))
        (result (run t (f a) (final (run t p s))))
  | inr st => mkRun (calls (run t p s)) (final (run t p s)) (inr st)
  end.
Proof.
  revert s. induction p as [a|st|key k IH|key id k IH|i k IH]; intros s; simpl.
  - now destruct (run t (f a) s).
  - reflexivity.
  - destruct (on_GetTransitions t key s) as [r s']. rewrite IH.
    unfold after. simpl. now destruct (result (run t (k r) s')).
  - destruct (on_DoTransition t key id s) as [r s']. rewrite IH.
    unfold after. simpl. now destruct (result (run t (k r) s')).
  - destruct (on_Create t i s) as [r s']. rewrite IH.
    unfold after. simpl. now destruct (result (run t (k r) s')).
Qed.

Lemma mutations_app (cs1 cs2 : list Call) :
  mutations (cs1 ++ cs2) = mutations cs1 ++ mutations cs2.
Proof. unfold mutations. apply filter_app. Qed.

End RunFacts.

Section BoardFacts.
Import jira ghira Index Board.
Context (c : Config).

Lemma find_transition_unique (ts : list Transition) (tr : Transition) :
  NoDup (map ID ts) -> tr ∈ ts -> find_transition (ID tr) ts = Some tr.
Proof.
  induction ts as [|v rest IH]; intros Hnd Hin; [inversion Hin|].
  simpl in *. apply NoDup_cons in Hnd as [Hv Hnd].
  apply elem_of_cons in Hin as [->|Hin].
  - now rewrite String.eqb_refl.
  - destruct (String.eqb_spec (ID v) (ID tr)) as [Heq|_]; [|now apply IH].
    exfalso. apply Hv. rewrite Heq. apply list_elem_of_fmap. now exists tr.
Qed.

(** With a workflow that offers both transitions, the tracker accepts
    the id the reconciler picked and moves the ticket to the status of
    that name. *)
Lemma on_DoTransition_closed (key : string) (s : list Ticket) :
  workflow_ok c ->
  on_DoTransition (tracker c) key
    (snd (pick_transitions (transitions_of c key) (EmptyString, EmptyString))) s
  = (None, map (set_status key "Closed") s).
Proof.
  intros Hw. destruct (Hw key) as (Hnd & Hclosed & _).
  destruct (pick_transitions_closed_found _ (EmptyString, EmptyString) Hclosed)
    as (tr & Hin & Hname & Hid).
  simpl. rewrite <- Hid, (find_transition_unique _ _ Hnd Hin), Hname. reflexivity.
Qed.

Lemma on_DoTransition_todo (key : string) (s : list Ticket) :
  workflow_ok c ->
  on_DoTransition (tracker c) key
    (fst (pick_transitions (transitions_of c key) (EmptyString, EmptyString))) s
  = (None, map (set_status key "To Do") s).
Proof.
  intros Hw. destruct (Hw key) as (Hnd & _ & Htodo).
  destruct (pick_transitions_todo_found _ (EmptyString, EmptyString) Htodo)
    as (tr & Hin & Hname & Hid).
  simpl. rewrite <- Hid, (find_transition_unique _ _ Hnd Hin), Hname. reflexivity.
Qed.

(** One issue processed against the tracker: the run ends normally and
    leaves the tickets as [effect] says. *)
Lemma run_reconcile_issue_effect (alreadyKnown : gmap Z knownIssue)
    (issue : GithubIssue) (s : list Ticket) :
  workflow_ok c -> statuses_known alreadyKnown ->
  final (run (tracker c) (reconcile_issue alreadyKnown issue) s)
    = effect c alreadyKnown s issue
  /\ result (run (tracker c) (reconcile_issue alreadyKnown issue) s) = inl tt.
Proof.
  intros Hw Hst. unfold reconcile_issue, effect.
  destruct (alreadyKnown !! Number issue) as [k|] eqn:Hk.
  - destruct (Hst _ _ Hk) as [st Hks]. rewrite Hks.
    cbn [run]. cbn [on_GetTransitions tracker].
    pose proof (on_DoTransition_closed (known_Key k)) as Hc.
    pose proof (on_DoTransition_todo (known_Key k)) as Ht.
    destruct (pick_transitions (transitions_of c (known_Key k))
                (EmptyString, EmptyString)) as [todo closed].
    cbn [fst snd] in Hc, Ht.
    unfold status_name. rewrite Hks.
    destruct (String.eqb (Status issue) "closed"); cbn [bind andb].
    + destruct (String.eqb (Name st) "Closed"); cbn [negb bind andb run].
      * destruct (String.eqb (Status issue) "open"); cbn [bind andb run].
        -- rewrite (Ht s Hw). split; reflexivity.
        -- split; reflexivity.
      * rewrite (Hc s Hw). split; reflexivity.
    + destruct (String.eqb (Status issue) "open"); cbn [bind andb run].
      * destruct (String.eqb (Name st) "Closed"); cbn [bind andb run].
        -- rewrite (Ht s Hw). split; reflexivity.
        -- split; reflexivity.
      * split; reflexivity.
  - split; reflexivity.
Qed.

Lemma run_reconcile_loop_effects (alreadyKnown : gmap Z knownIssue)
    (issues : list GithubIssue) (s : list Ticket) :
  workflow_ok c -> statuses_known alreadyKnown ->
  final (run (tracker c) (reconcile_loop alreadyKnown issues) s)
    = effects c alreadyKnown issues s
  /\ result (run (tracker c) (reconcile_loop alreadyKnown issues) s) = inl tt.
Proof.
  intros Hw Hst. revert s.
  induction issues as [|i rest IH]; intros s; [split; reflexivity|].
  cbn [reconcile_loop]. rewrite run_bind.
  destruct (run_reconcile_issue_effect alreadyKnown i s Hw Hst) as [Hf Hr].
  rewrite Hr. cbn [final result]. rewrite Hf. apply IH.
Qed.

End BoardFacts.

(** ** Two runs in a row *)

Section TwoRuns.
Import jira ghira Index Board.
Context (c : Config).

Lemma ticket_number_set_status (key st : string) (t : Ticket) :
  ticket_number (set_status key st t) = ticket_number t.
Proof. unfold set_status. now destruct (String.eqb (ticket_Key t) key). Qed.

Lemma ticket_Key_set_status (key st : string) (t : Ticket) :
  ticket_Key (set_status key st t) = ticket_Key t.
Proof. unfold set_status. now destruct (String.eqb (ticket_Key t) key). Qed.

Lemma set_status_other (key st : string) (t : Ticket) :
  key <> ticket_Key t -> set_status key st t = t.
Proof.
  intros Hne. unfold set_status.
  destruct (String.eqb_spec (ticket_Key t) key); [congruence|reflexivity].
Qed.

Lemma set_status_same (st : string) (t : Ticket) :
  set_status (ticket_Key t) st t = mkTicket (ticket_Key t) (ticket_fields t) st.
Proof. unfold set_status. now rewrite String.eqb_refl. Qed.

Lemma issue_number_to_issue (t : Ticket) :
  issue_number (to_issue t) = ticket_number t.
Proof. reflexivity. Qed.

Lemma indexable_to_issue_set_status (key st : string) (t : Ticket) :
  indexable (to_issue (set_status key st t)) = indexable (to_issue t).
Proof. unfold set_status. now destruct (String.eqb (ticket_Key t) key). Qed.

Lemma last_numbered_ext {A} (num1 num2 : A -> option Z) (n : Z) (l : list A) :
  (forall x, num1 x = num2 x) ->
  last_numbered num1 n l = last_numbered num2 n l.
Proof.
  intros Hext. induction l as [|x l IH]; simpl; [reflexivity|].
  now rewrite IH, Hext.
Qed.

Lemma last_numbered_set_status (key st : string) (n : Z) (s : list Ticket) :
  last_numbered ticket_number n (map (set_status key st) s)
  = set_status key st <$> last_numbered ticket_number n s.
Proof.
  rewrite last_numbered_map. f_equal.
  apply last_numbered_ext. intros x. apply ticket_number_set_status.
Qed.

(** The index of the tickets: under each number, the key and the status
    of the last ticket that carries it. *)
Lemma board_index (s : list Ticket) :
  Forall (fun t => indexable (to_issue t) = true) s ->
  exists m, alreadyKnown_loop (search s) ∅ = Ret m
    /\ forall n, m !! n = ticket_record <$> last_numbered ticket_number n s.
Proof.
  intros Hall.
  destruct (alreadyKnown_loop_last (search s) ∅) as (m & Hrun & Hlook).
  { unfold search. now apply Forall_fmap. }
  exists m. split; [exact Hrun|]. intros n. rewrite Hlook.
  unfold search. rewrite last_numbered_map.
  rewrite (last_numbered_ext _ ticket_number) by (intros; reflexivity).
  destruct (last_numbered ticket_number n s); reflexivity.
Qed.

Lemma board_index_statuses (s : list Ticket) (m : gmap Z knownIssue) :
  (forall n, m !! n = ticket_record <$> last_numbered ticket_number n s) ->
  statuses_known m.
Proof.
  intros Hm n k Hk. rewrite Hm in Hk.
  destruct (last_numbered ticket_number n s) as [t|]; [|discriminate].
  injection Hk as <-. simpl. eauto.
Qed.

Lemma new_ticket_number (issue : GithubIssue) (key st : string) :
  0 <= Number issue <= GoInt.max_int ->
  ticket_number (mkTicket key (new_fields issue) st) = Some (Number issue).
Proof. intros H. unfold ticket_number. simpl. now apply summary_number_tag. Qed.

(** *** What one step and a run of steps keep *)

Lemma effect_keys (alreadyKnown : gmap Z knownIssue) (s : list Ticket)
    (issue : GithubIssue) (key : string) :
  key ∈ map ticket_Key s -> key ∈ map ticket_Key (effect c alreadyKnown s issue).
Proof.
  intros Hin. unfold effect.
  assert (Hmap : forall k st, key ∈ map ticket_Key (map (set_status k st) s)).
  { intros k st. rewrite map_map.
    erewrite map_ext; [exact Hin|]. intros t. apply ticket_Key_set_status. }
  destruct (alreadyKnown !! Number issue) as [k|].
  - destruct (known_Status k) as [st|]; [|exact Hin].
    destruct (_ && _); [apply Hmap|]. destruct (_ && _); [apply Hmap|exact Hin].
  - rewrite map_app. apply elem_of_app. now left.
Qed.

Lemma effects_keys (alreadyKnown : gmap Z knownIssue) (issues : list GithubIssue)
    (s : list Ticket) (key : string) :
  key ∈ map ticket_Key s ->
  key ∈ map ticket_Key (effects c alreadyKnown issues s).
Proof.
  revert s. induction issues as [|i rest IH]; intros s Hin; [exact Hin|].
  simpl. apply IH. now apply effect_keys.
Qed.

Lemma effect_indexable (alreadyKnown : gmap Z knownIssue) (s : list Ticket)
    (issue : GithubIssue) :
  0 <= Number issue <= GoInt.max_int ->
  Forall (fun t => indexable (to_issue t) = true) s ->
  Forall (fun t => indexable (to_issue t) = true) (effect c alreadyKnown s issue).
Proof.
  intros Hn Hall. unfold effect.
  assert (Hmap : forall k st,
            Forall (fun t => indexable (to_issue t) = true)
              (map (set_status k st) s)).
  { intros k st. apply Forall_fmap. eapply Forall_impl; [exact Hall|].
    intros t Ht. simpl. now rewrite indexable_to_issue_set_status. }
  destruct (alreadyKnown !! Number issue) as [k|].
  - destruct (known_Status k) as [st|]; [|exact Hall].
    destruct (_ && _); [apply Hmap|]. destruct (_ && _); [apply Hmap|exact Hall].
  - apply Forall_app. split; [exact Hall|]. constructor; [|constructor].
    apply (indexable_numbered _ (Number issue)).
    rewrite issue_number_to_issue. now apply new_ticket_number.
Qed.

Lemma effects_indexable (alreadyKnown : gmap Z knownIssue)
    (issues : list GithubIssue) (s : list Ticket) :
  Forall (fun i => 0 <= Number i <= GoInt.max_int) issues ->
  Forall (fun t => indexable (to_issue t) = true) s ->
  Forall (fun t => indexable (to_issue t) = true)
    (effects c alreadyKnown issues s).
Proof.
  intros Hn. revert s. induction Hn as [|i rest Hi _ IH]; intros s Hall;
    [exact Hall|].
  simpl. apply IH. now apply effect_indexable.
Qed.

(** Processing an issue with another number, whose known ticket (if any)
    has another key, leaves the last ticket under [n] as it is. *)
Lemma effect_other (alreadyKnown : gmap Z knownIssue) (s : list Ticket)
    (issue : GithubIssue) (n : Z) (t : Ticket) :
  0 <= Number issue <= GoInt.max_int ->
  Number issue <> n ->
  (forall k, alreadyKnown !! Number issue = Some k -> known_Key k <> ticket_Key t) ->
  last_numbered ticket_number n s = Some t ->
  last_numbered ticket_number n (effect c alreadyKnown s issue) = Some t.
Proof.
  intros Hn Hne Hkey Hlast. unfold effect.
  destruct (alreadyKnown !! Number issue) as [k|].
  - assert (Hmap : forall st,
              last_numbered ticket_number n (map (set_status (known_Key k) st) s)
              = Some t).
    { intros st. rewrite last_numbered_set_status, Hlast. simpl.
      f_equal. apply set_status_other. now apply Hkey. }
    destruct (known_Status k) as [st|]; [|exact Hlast].
    destruct (_ && _); [apply Hmap|]. destruct (_ && _); [apply Hmap|exact Hlast].
  - rewrite last_numbered_app. simpl.
    rewrite new_ticket_number by exact Hn.
    destruct (decide (Some (Number issue) = Some n)) as [Heq|_]; [congruence|].
    exact Hlast.
Qed.

Lemma effects_other (alreadyKnown : gmap Z knownIssue)
    (issues : list GithubIssue) (s : list Ticket) (n : Z) (t : Ticket) :
  Forall (fun i => 0 <= Number i <= GoInt.max_int) issues ->
  Forall (fun i => Number i <> n) issues ->
  Forall (fun i => forall k, alreadyKnown !! Number i = Some k ->
                             known_Key k <> ticket_Key t) issues ->
  last_numbered ticket_number n s = Some t ->
  last_numbered ticket_number n (effects c alreadyKnown issues s) = Some t.
Proof.
  intros Hn. revert s.
  induction Hn as [|i rest Hi _ IH]; intros s Hne Hkey Hlast; [exact Hlast|].
  apply Forall_cons in Hne as [Hne1 Hne]. apply Forall_cons in Hkey as [Hkey1 Hkey].
  simpl. apply IH; [exact Hne|exact Hkey|]. now apply effect_other.
Qed.

End TwoRuns.

Section SecondRun.
Import jira ghira Index Board Settled.
Context (c : Config).

Lemma NoDup_map_inj {A B} (f : A -> B) (l : list A) (x y : A) :
  NoDup (map f l) -> x ∈ l -> y ∈ l -> f x = f y -> x = y.
Proof.
  induction l as [|z l IH]; intros Hnd Hx Hy Hf; [inversion Hx|].
  simpl in Hnd. apply NoDup_cons in Hnd as [Hz Hnd].
  apply elem_of_cons in Hx as [->|Hx]; apply elem_of_cons in Hy as [->|Hy].
  - reflexivity.
  - exfalso. apply Hz. rewrite Hf. apply list_elem_of_fmap. now exists y.
  - exfalso. apply Hz. rewrite <- Hf. apply list_elem_of_fmap. now exists x.
  - now apply IH.
Qed.

(** Tickets found under two numbers have two keys. *)
Lemma last_numbered_keys_differ (s : list Ticket) (n n' : Z) (t t' : Ticket) :
  NoDup (map ticket_Key s) -> n <> n' ->
  last_numbered ticket_number n s = Some t ->
  last_numbered ticket_number n' s = Some t' ->
  ticket_Key t' <> ticket_Key t.
Proof.
  intros Hnd Hne Ht Ht' Hkey.
  apply last_numbered_elem in Ht as [Hin Hn].
  apply last_numbered_elem in Ht' as [Hin' Hn'].
  assert (t' = t) by (eapply NoDup_map_inj; eauto). subst. congruence.
Qed.

Lemma settled_stays (issue_status st : string) :
  String.eqb issue_status "closed"
    && negb (String.eqb (settled issue_status st) "Closed") = false
  /\ String.eqb issue_status "open"
       && String.eqb (settled issue_status st) "Closed" = false.
Proof.
  unfold settled.
  destruct (String.eqb_spec issue_status "closed") as [->|Hc]; simpl.
  - destruct (String.eqb_spec st "Closed") as [->|Hs]; simpl; auto.
  - destruct (String.eqb_spec issue_status "open") as [->|Ho]; simpl; auto.
    destruct (String.eqb_spec st "Closed") as [->|Hs]; simpl; auto.
    split; [reflexivity|]. now apply String.eqb_neq.
Qed.

(** The ticket of a known issue after the issue is processed. *)
Lemma effect_settles (alreadyKnown : gmap Z knownIssue) (s : list Ticket)
    (issue : GithubIssue) (t0 t : Ticket) :
  alreadyKnown !! Number issue = Some (ticket_record t0) ->
  last_numbered ticket_number (Number issue) s = Some t ->
  ticket_Key t = ticket_Key t0 -> ticket_status t = ticket_status t0 ->
  exists t',
    last_numbered ticket_number (Number issue) (effect c alreadyKnown s issue)
      = Some t'
    /\ ticket_Key t' = ticket_Key t0
    /\ ticket_status t' = settled (Status issue) (ticket_status t0).
Proof.
  intros Hk Hlast Hkey Hst. unfold effect. rewrite Hk. simpl.
  unfold settled.
  destruct (_ && _).
  - rewrite last_numbered_set_status, Hlast. simpl.
    rewrite <- Hkey, set_status_same. eexists. split; [reflexivity|]. auto.
  - destruct (_ && _).
    + rewrite last_numbered_set_status, Hlast. simpl.
      rewrite <- Hkey, set_status_same. eexists. split; [reflexivity|]. auto.
    + exists t. auto.
Qed.

End SecondRun.

Section SecondIndex.
Import jira ghira Index Board Settled.
Context (c : Config) (T0 : list Ticket) (first : gmap Z knownIssue).
Hypothesis first_index :
  forall n, first !! n = ticket_record <$> last_numbered ticket_number n T0.

Lemma known_key_elem (n : Z) (k : knownIssue) :
  first !! n = Some k -> known_Key k ∈ map ticket_Key T0.
Proof.
  rewrite first_index. intros Hk.
  destruct (last_numbered ticket_number n T0) as [t|] eqn:Ht; [|discriminate].
  injection Hk as <-. apply last_numbered_elem in Ht as [Hin _].
  apply list_elem_of_fmap. now exists t.
Qed.

Lemma others_keep_known (n : Z) (t0 : Ticket) (l : list GithubIssue) :
  NoDup (map ticket_Key T0) ->
  last_numbered ticket_number n T0 = Some t0 ->
  Forall (fun i => Number i <> n) l ->
  Forall (fun i => forall k, first !! Number i = Some k ->
                             known_Key k <> ticket_Key t0) l.
Proof.
  intros Hnd Ht0 Hne. eapply Forall_impl; [exact Hne|].
  intros i Hi k Hk. rewrite first_index in Hk.
  destruct (last_numbered ticket_number (Number i) T0) as [t|] eqn:Ht;
    [|discriminate].
  injection Hk as <-. simpl.
  apply (last_numbered_keys_differ T0 n (Number i) t0 t Hnd);
    [congruence|exact Ht0|exact Ht].
Qed.

Lemma others_keep_new (key : string) (l : list GithubIssue) :
  key ∉ map ticket_Key T0 ->
  Forall (fun i => forall k, first !! Number i = Some k -> known_Key k <> key) l.
Proof.
  intros Hkey. apply Forall_forall. intros i _ k Hk Heq.
  apply Hkey. rewrite <- Heq. eapply known_key_elem; eauto.
Qed.

(** After the run, the ticket of an issue that was known is still the
    last under its number, under the same key, in the settled status. *)
Lemma final_known (l1 l2 : list GithubIssue) (i : GithubIssue) (t0 : Ticket) :
  NoDup (map ticket_Key T0) ->
  Forall (fun j => 0 <= Number j <= GoInt.max_int) (l1 ++ i :: l2) ->
  Forall (fun j => Number j <> Number i) l1 ->
  Forall (fun j => Number j <> Number i) l2 ->
  last_numbered ticket_number (Number i) T0 = Some t0 ->
  exists t',
    last_numbered ticket_number (Number i) (effects c first (l1 ++ i :: l2) T0)
      = Some t'
    /\ ticket_Key t' = ticket_Key t0
    /\ ticket_status t' = settled (Status i) (ticket_status t0).
Proof.
  intros Hnd Hrange Hl1 Hl2 Ht0.
  apply Forall_app in Hrange as [Hr1 Hr2].
  apply Forall_cons in Hr2 as [Hri Hr2].
  unfold effects. rewrite fold_left_app. simpl.
  fold (effects c first l1 T0).
  assert (H1 : last_numbered ticket_number (Number i) (effects c first l1 T0)
               = Some t0).
  { apply effects_other; auto. now apply (others_keep_known (Number i)). }
  destruct (effect_settles c first (effects c first l1 T0) i t0 t0)
    as (t' & Ht' & Hk' & Hs'); auto.
  { rewrite first_index, Ht0. reflexivity. }
  exists t'. split; [|split; assumption].
  fold (effects c first l2 (effect c first (effects c first l1 T0) i)).
  apply effects_other; auto.
  rewrite Hk'. now apply (others_keep_known (Number i)).
Qed.

(** After the run, the ticket created for an issue that was not known is
    the last under its number, in the initial status. *)
Lemma final_created (l1 l2 : list GithubIssue) (i : GithubIssue) :
  keys_fresh c ->
  Forall (fun j => 0 <= Number j <= GoInt.max_int) (l1 ++ i :: l2) ->
  Forall (fun j => Number j <> Number i) l2 ->
  first !! Number i = None ->
  last_numbered ticket_number (Number i) (effects c first (l1 ++ i :: l2) T0)
  = Some (mkTicket (next_key c (effects c first l1 T0)) (new_fields i)
            (initial_status c)).
Proof.
  intros Hfresh Hrange Hl2 Hnone.
  apply Forall_app in Hrange as [Hr1 Hr2].
  apply Forall_cons in Hr2 as [Hri Hr2].
  unfold effects. rewrite fold_left_app. simpl.
  fold (effects c first l1 T0).
  set (s1 := effects c first l1 T0).
  fold (effects c first l2 (effect c first s1 i)).
  apply effects_other; auto.
  - apply others_keep_new. simpl. intros Hin.
    apply (Hfresh s1). unfold s1. now apply effects_keys.
  - unfold effect. rewrite Hnone, last_numbered_app. simpl.
    rewrite new_ticket_number by exact Hri.
    destruct (decide (Some (Number i) = Some (Number i))); [reflexivity|congruence].
Qed.

End SecondIndex.

Section Idempotence.
Import jira ghira Index Board Settled.
Context (c : Config).

Lemma reconcile_loop_quiet {S} (t : Tracker S) (alreadyKnown : gmap Z knownIssue)
    (issues : list GithubIssue) :
  Forall (fun i => forall s,
            mutations (calls (run t (reconcile_issue alreadyKnown i) s)) = [])
    issues ->
  forall s, mutations (calls (run t (reconcile_loop alreadyKnown issues) s)) = [].
Proof.
  induction 1 as [|i rest Hi _ IH]; intros s; [reflexivity|].
  cbn [reconcile_loop]. rewrite run_bind.
  destruct (result (run t (reconcile_issue alreadyKnown i) s)); cbn [calls].
  - now rewrite mutations_app, Hi, IH.
  - apply Hi.
Qed.

(** What the second run does for an issue whose ticket is settled. *)
Lemma settled_issue_quiet (second : gmap Z knownIssue) (i : GithubIssue)
    (t' : Ticket) (st : string) (s : list Ticket) :
  second !! Number i = Some (ticket_record t') ->
  ticket_status t' = settled (Status i) st ->
  mutations (calls (run (tracker c) (reconcile_issue second i) s)) = [].
Proof.
  intros Hk Hst.
  rewrite (run_reconcile_issue_known (tracker c) second i s
             (ticket_Key t') (ticket_status t') Hk).
  cbv zeta. rewrite Hst.
  destruct (settled_stays (Status i) st) as [-> ->]. reflexivity.
Qed.

(** What the second run does for an issue whose ticket the first run
    created. *)
Lemma created_issue_second_run (second : gmap Z knownIssue) (i : GithubIssue)
    (key : string) (s : list Ticket) :
  second !! Number i
    = Some (ticket_record (mkTicket key (new_fields i) (initial_status c))) ->
  mutations (calls (run (tracker c) (reconcile_issue second i) s)) = []
  <-> ~ (Status i = "closed" /\ initial_status c <> "Closed")
      /\ ~ (Status i = "open" /\ initial_status c = "Closed").
Proof.
  intros Hk.
  rewrite (run_reconcile_issue_known (tracker c) second i s
             key (initial_status c) Hk).
  cbv zeta.
  destruct (String.eqb_spec (Status i) "closed") as [Hc|Hc];
    destruct (String.eqb_spec (initial_status c) "Closed") as [Hs|Hs];
    destruct (String.eqb_spec (Status i) "open") as [Ho|Ho];
    cbn [andb negb]; (split;
      [ intros Hm; try discriminate Hm; split; intros [? ?]; congruence
      | intros [H1 H2]; try reflexivity; exfalso;
        first [ apply H1; split; assumption | apply H2; split; assumption ] ]).
Qed.

(** C3, as the code has it.  The tracker starts with tickets of distinct
    keys; the issues have distinct numbers, none negative; every
    transition the reconciler asks for takes place and every creation
    succeeds.  Then the first run ends normally, the index is rebuilt from
    the tracker it leaves, and on the second run:
    - an issue that had a ticket before the first run gets no creation
      and no transition;
    - an issue whose ticket the first run created gets no creation, and
      gets no transition exactly when its status agrees with the status
      the tracker gave the new ticket (a closed issue whose new ticket is
      not "Closed", or an open issue whose new ticket is "Closed", is
      transitioned on the second run);
    - so the whole second run changes nothing when every issue had its
      ticket, or agrees with the initial status. *)
Theorem second_run_after_first (T0 : list Ticket) (issues : list GithubIssue) :
  workflow_ok c -> keys_fresh c ->
  NoDup (map ticket_Key T0) ->
  Forall (fun t => indexable (to_issue t) = true) T0 ->
  NoDup (map Number issues) ->
  Forall (fun i => 0 <= Number i /\ GoInt.is_int (Number i)) issues ->
  exists first second,
    alreadyKnown_loop (search T0) ∅ = Ret first
    /\ result (reconcile c issues T0) = inl tt
    /\ alreadyKnown_loop (search (final (reconcile c issues T0))) ∅ = Ret second
    /\ Forall (fun i => forall s,
         (is_Some (first !! Number i) ->
            mutations (calls (run (tracker c) (reconcile_issue second i) s)) = [])
         /\ (first !! Number i = None ->
               (mutations (calls (run (tracker c) (reconcile_issue second i) s)) = []
                <-> ~ (Status i = "closed" /\ initial_status c <> "Closed")
                    /\ ~ (Status i = "open" /\ initial_status c = "Closed"))))
         issues
    /\ (Forall (fun i => is_Some (first !! Number i)
                         \/ (~ (Status i = "closed" /\ initial_status c <> "Closed")
                             /\ ~ (Status i = "open" /\ initial_status c = "Closed")))
          issues ->
        mutations (calls (reconcile c issues (final (reconcile c issues T0)))) = []).
Proof.
  intros Hw Hfresh Hkeys Hidx Hnums Hrange0.
  assert (Hrange : Forall (fun i => 0 <= Number i <= GoInt.max_int) issues).
  { eapply Forall_impl; [exact Hrange0|]. intros i [H0 [_ Hmax]]. lia. }
  destruct (board_index T0 Hidx) as (first & Hfirst & Hlook0).
  pose proof (board_index_statuses _ _ Hlook0) as Hst0.
  destruct (run_reconcile_loop_effects c first issues T0 Hw Hst0) as [Hfinal Hres].
  assert (Hrec : reconcile c issues T0
                 = run (tracker c) (reconcile_loop first issues) T0).
  { unfold reconcile. now rewrite Hfirst. }
  rewrite Hrec, Hfinal.
  destruct (board_index (effects c first issues T0)) as (second & Hsecond & Hlook1).
  { now apply effects_indexable. }
  assert (Hitems : Forall (fun i => forall s,
         (is_Some (first !! Number i) ->
            mutations (calls (run (tracker c) (reconcile_issue second i) s)) = [])
         /\ (first !! Number i = None ->
               (mutations (calls (run (tracker c) (reconcile_issue second i) s)) = []
                <-> ~ (Status i = "closed" /\ initial_status c <> "Closed")
                    /\ ~ (Status i = "open" /\ initial_status c = "Closed"))))
         issues).
  { apply Forall_forall. intros i Hin s.
    apply list_elem_of_split in Hin as (l1 & l2 & ->).
    rewrite map_app in Hnums. simpl in Hnums.
    apply NoDup_app in Hnums as (_ & Hl1 & Hnd2).
    apply NoDup_cons in Hnd2 as [Hl2 _].
    assert (H1 : Forall (fun j => Number j <> Number i) l1).
    { apply Forall_forall. intros j Hj Heq. apply (Hl1 (Number j)).
      - apply list_elem_of_fmap. now exists j.
      - rewrite Heq. constructor. }
    assert (H2 : Forall (fun j => Number j <> Number i) l2).
    { apply Forall_forall. intros j Hj Heq. apply Hl2.
      rewrite <- Heq. apply list_elem_of_fmap. now exists j. }
    split.
    - intros [k Hk]. rewrite Hlook0 in Hk.
      destruct (last_numbered ticket_number (Number i) T0) as [t0|] eqn:Ht0;
        [|discriminate].
      destruct (final_known c T0 first Hlook0 l1 l2 i t0)
        as (t' & Ht' & _ & Hs'); auto.
      apply (settled_issue_quiet second i t' (ticket_status t0)); [|exact Hs'].
      now rewrite Hlook1, Ht'.
    - intros Hnone.
      apply (created_issue_second_run second i
               (next_key c (effects c first l1 T0))).
      rewrite Hlook1, (final_created c T0 first Hlook0 l1 l2 i); auto. }
  exists first, second.
  split; [exact Hfirst|]. split; [exact Hres|]. split; [exact Hsecond|].
  split; [exact Hitems|].
  intros Hall. unfold reconcile. rewrite Hsecond. cbn [bind].
  apply reconcile_loop_quiet.
  apply Forall_forall. intros i Hin s.
  rewrite Forall_forall in Hitems, Hall.
  destruct (Hitems i Hin s) as [Hknown Hnew].
  destruct (Hall i Hin) as [Hsome|Hagree]; [now apply Hknown|].
  destruct (first !! Number i) eqn:Hf.
  - apply Hknown. eauto.
  - now apply Hnew.
Qed.

End Idempotence.

Section IdempotenceScenarios.
Import jira ghira Index Board Scenario.

Lemma length_pad (n : nat) : String.length (pad n) = n.
Proof. induction n as [|n IH]; simpl; [reflexivity|now rewrite IH]. Qed.

Lemma key_length_bound (s : list Ticket) (t : Ticket) :
  t ∈ s ->
  (String.length (ticket_Key t)
   <= fold_right (fun t acc => String.length (ticket_Key t) + acc) O s)%nat.
Proof.
  induction s as [|u s IH]; intros Hin; [inversion Hin|].
  simpl. apply elem_of_cons in Hin as [->|Hin]; [lia|].
  specialize (IH Hin). lia.
Qed.

(** [longer_key] is a key no ticket has. *)
Lemma longer_key_fresh (s : list Ticket) : longer_key s ∉ map ticket_Key s.
Proof.
  intros Hin. apply list_elem_of_fmap in Hin as (t & Heq & Hin).
  apply key_length_bound in Hin. rewrite <- Heq in Hin.
  unfold longer_key in Hin. rewrite length_pad in Hin. lia.
Qed.

Lemma config_workflow_ok : workflow_ok config.
Proof.
  intros key. simpl. split; [|split].
  - apply (bool_decide_unpack _). vm_compute. exact I.
  - exists (mkTransition "31" "Closed"). split; [|reflexivity].
    unfold workflow. repeat constructor.
  - exists (mkTransition "11" "To Do"). split; [|reflexivity].
    unfold workflow. repeat constructor.
Qed.

Lemma config_keys_fresh : keys_fresh config.
Proof. intros s. apply longer_key_fresh. Qed.

End IdempotenceScenarios.

Section IdempotenceWitness.
Import jira ghira Index Board Scenario.

Lemma second_run_after_first_witness :
  (workflow_ok config /\ keys_fresh config
   /\ NoDup (map ticket_Key board0)
   /\ Forall (fun t => indexable (to_issue t) = true) board0
   /\ NoDup (map Number issues0)
   /\ Forall (fun i => 0 <= Number i /\ GoInt.is_int (Number i)) issues0)
  /\ exists first second,
       alreadyKnown_loop (search board0) ∅ = Ret first
       /\ result (reconcile config issues0 board0) = inl tt
       /\ alreadyKnown_loop (search (final (reconcile config issues0 board0))) ∅
          = Ret second
       /\ Forall (fun i => forall s,
            (is_Some (first !! Number i) ->
               mutations (calls (run (tracker config) (reconcile_issue second i) s))
               = [])
            /\ (first !! Number i = None ->
                  (mutations (calls (run (tracker config) (reconcile_issue second i) s))
                   = []
                   <-> ~ (Status i = "closed" /\ initial_status config <> "Closed")
                       /\ ~ (Status i = "open" /\ initial_status config = "Closed"))))
            issues0
       /\ (Forall (fun i => is_Some (first !! Number i)
                            \/ (~ (Status i = "closed"
                                   /\ initial_status config <> "Closed")
                                /\ ~ (Status i = "open"
                                      /\ initial_status config = "Closed")))
             issues0 ->
           mutations (calls (reconcile config issues0
                               (final (reconcile config issues0 board0)))) = []).
Proof.
  assert (H1 : NoDup (map ticket_Key board0)).
  { apply (bool_decide_unpack _). vm_compute. exact I. }
  assert (H2 : Forall (fun t => indexable (to_issue t) = true) board0).
  { repeat constructor. }
  assert (H3 : NoDup (map Number issues0)).
  { apply (bool_decide_unpack _). vm_compute. exact I. }
  assert (H4 : Forall (fun i => 0 <= Number i /\ GoInt.is_int (Number i)) issues0).
  { repeat constructor; vm_compute; discriminate. }
  split.
  - exact (conj config_workflow_ok (conj config_keys_fresh
             (conj H1 (conj H2 (conj H3 H4))))).
  - exact (second_run_after_first config board0 issues0
             config_workflow_ok config_keys_fresh H1 H2 H3 H4).
Defined.

(** C3 as it is worded fails on an issue that has no ticket yet.  Item
    42 is closed and the tracker is empty: the first run creates the
    ticket and nothing else; the tracker puts it in its initial status;
    the second run, on the same issue and the tracker the first run left,
    applies the transition "Closed".  The run after that changes
    nothing. *)
Lemma second_run_transitions_created_ticket :
  result (reconcile config [item42] []) = inl tt
  /\ calls (reconcile config [item42] []) = [Create (new_issue item42)]
  /\ final (reconcile config [item42] [])
     = [mkTicket "K" (new_fields item42) "To Do"]
  /\ calls (reconcile config [item42] (final (reconcile config [item42] [])))
     = [GetTransitions "K"; DoTransition "K" "31"]
  /\ mutations
       (calls (reconcile config [item42] (final (reconcile config [item42] []))))
     <> []
  /\ mutations
       (calls (reconcile config [item42]
                 (final (reconcile config [item42]
                           (final (reconcile config [item42] []))))))
     = [].
Proof.
  repeat split; try (vm_compute; reflexivity). vm_compute. discriminate.
Qed.

End IdempotenceWitness.

(** * Further properties of the code *)

(** ** pkg/team: lookups, leave and loading *)

Section TeamFacts.
Import team.

(** X1.  [PersonByGithubHandle] finds nobody exactly when no person of
    the slice has the handle; otherwise it returns the first person who
    has it: nobody before that person in the slice has the handle. *)
Theorem PersonByGithubHandle_first (people : list Person) (h : string) :
  match PersonByGithubHandle people h with
  | None => Forall (fun p => Github p <> h) people
  | Some p =>
      exists before after,
        people = before ++ p :: after
        /\ Github p = h
        /\ Forall (fun q => Github q <> h) before
  end.
Proof.
  induction people as [|q rest IH]; simpl; [constructor|].
  destruct (String.eqb_spec (Github q) h) as [Heq|Hne].
  - exists [], rest. repeat split; [exact Heq|constructor].
  - destruct (PersonByGithubHandle rest h) as [p|].
    + destruct IH as (before & after & -> & Hg & Hb).
      exists (q :: before), after. repeat split; [exact Hg|now constructor].
    + now constructor.
Qed.

(** X2.  [PersonByJiraName] likewise: nobody exactly when no person has
    the Jira name, otherwise the first person of the slice who has it. *)
Theorem PersonByJiraName_first (people : list Person) (jiraName : string) :
  match PersonByJiraName people jiraName with
  | None => Forall (fun p => Jira p <> jiraName) people
  | Some p =>
      exists before after,
        people = before ++ p :: after
        /\ Jira p = jiraName
        /\ Forall (fun q => Jira q <> jiraName) before
  end.
Proof.
  induction people as [|q rest IH]; simpl; [constructor|].
  destruct (String.eqb_spec (Jira q) jiraName) as [Heq|Hne].
  - exists [], rest. repeat split; [exact Heq|constructor].
  - destruct (PersonByJiraName rest jiraName) as [p|].
    + destruct IH as (before & after & -> & Hg & Hb).
      exists (q :: before), after. repeat split; [exact Hg|now constructor].
    + now constructor.
Qed.

(** X3.  A person is unavailable at [t] exactly when [t] lies strictly
    inside one of the leaves.  On the first and on the last instant of a
    leave the person counts as available, and a leave that does not end
    after it starts never makes anyone unavailable. *)
Theorem IsAvailable_strictly_inside (p : Person) (t : Z) :
  IsAvailable p t = false
  <-> Exists (fun l => Start l < t < End_ l) (leave p).
Proof.
  unfold IsAvailable. induction (leave p) as [|l rest IH]; simpl.
  - split; [discriminate|]. intros H. inversion H.
  - rewrite Exists_cons.
    destruct (Z.ltb_spec t (End_ l)) as [He|He];
      destruct (Z.ltb_spec (Start l) t) as [Hs|Hs]; simpl;
      try (rewrite IH; split; [now right|]; intros [Hl|Hr]; [lia|exact Hr]).
    split; [intros _; left; lia|reflexivity].
Qed.

End TeamFacts.

Section LoadFacts.
Import team ghira.

Lemma load_person_fields (tm : gmap string TeamEntry) (p : Person) :
  Kerberos (load_person tm p) = Kerberos p
  /\ Github (load_person tm p) = Github p
  /\ Jira (load_person tm p) = Jira p
  /\ Slack (load_person tm p) = "@" +:+ Slack p.
Proof. unfold load_person. destruct (tm !! Kerberos p); repeat split. Qed.

Lemma PersonByGithubHandle_load (tm : gmap string TeamEntry)
    (people : list Person) (h : string) :
  PersonByGithubHandle (map (load_person tm) people) h
  = load_person tm <$> PersonByGithubHandle people h.
Proof.
  induction people as [|q rest IH]; simpl; [reflexivity|].
  destruct (load_person_fields tm q) as (_ & -> & _).
  destruct (String.eqb (Github q) h); [reflexivity|exact IH].
Qed.

(** X4.  [Load] keeps the people as decoded, in their order: the same
    Kerberos ids, Github handles and Jira names, every Slack id with an
    [@] in front; whoever the team file lists is a team member, with the
    triage flag of the file, and with its leaves when it gives some; whoever
    it does not list keeps the flags and leaves as decoded.  A lookup by
    Github handle finds the same person before and after. *)
Theorem Load_keeps_people (people : list Person) (tm : gmap string TeamEntry) :
  exists loaded,
    Load (Some people) (Some tm) = inl loaded
    /\ map Kerberos loaded = map Kerberos people
    /\ map Github loaded = map Github people
    /\ map Jira loaded = map Jira people
    /\ map Slack loaded = map (fun p => "@" +:+ Slack p) people
    /\ Forall2 (fun p q =>
         match tm !! Kerberos p with
         | Some e =>
             TeamMember q = true /\ BugTriage q = entry_BugTriage e
             /\ leave q = (if decide (entry_Leave e = []) then leave p
                           else entry_Leave e)
         | None =>
             TeamMember q = TeamMember p /\ BugTriage q = BugTriage p
             /\ leave q = leave p
         end) people loaded
    /\ forall h,
         PersonByGithubHandle loaded h
         = load_person tm <$> PersonByGithubHandle people h.
Proof.
  exists (map (load_person tm) people). split; [reflexivity|].
  rewrite !map_map.
  repeat split.
  - apply map_ext. intros p. apply load_person_fields.
  - apply map_ext. intros p. apply load_person_fields.
  - apply map_ext. intros p. apply load_person_fields.
  - apply map_ext. intros p. apply load_person_fields.
  - induction people as [|p rest IH]; simpl; constructor; [|exact IH].
    unfold load_person. destruct (tm !! Kerberos p) as [e|]; simpl; [|auto].
    repeat split. destruct (entry_Leave e); reflexivity.
  - intros h. apply PersonByGithubHandle_load.
Qed.

Lemma team_members_map_load (tm : gmap string TeamEntry) (people : list Person) :
  Forall (fun p => TeamMember p = false) people ->
  team_members (map (load_person tm) people)
  = map (load_person tm)
      (List.filter (fun p => bool_decide (is_Some (tm !! Kerberos p))) people).
Proof.
  induction 1 as [|p rest Hp _ IH]; simpl; [reflexivity|].
  unfold load_person at 1.
  destruct (tm !! Kerberos p) as [e|] eqn:He; simpl.
  - now rewrite IH.
  - rewrite Hp. exact IH.
Qed.

(** X5.  When the people file sets no membership flag, the roster
    [main] keeps (lines 486-491) after [Load] is made of exactly the
    people the team file lists, in the order of the people file; so a
    Github handle resolves only to a person of the team file. *)
Theorem main_roster_is_team_file (people : list Person)
    (tm : gmap string TeamEntry) :
  Forall (fun p => TeamMember p = false) people ->
  exists loaded,
    Load (Some people) (Some tm) = inl loaded
    /\ map Kerberos (team_members loaded)
       = List.filter (fun k => bool_decide (is_Some (tm !! k)))
           (map Kerberos people)
    /\ forall h,
         match PersonByGithubHandle (team_members loaded) h with
         | Some q => is_Some (tm !! Kerberos q) /\ Github q = h
         | None => True
         end.
Proof.
  intros Hflags. exists (map (load_person tm) people).
  split; [reflexivity|].
  rewrite (team_members_map_load tm people Hflags). split.
  - rewrite map_map. clear Hflags.
    induction people as [|p rest IH]; simpl; [reflexivity|].
    destruct (bool_decide (is_Some (tm !! Kerberos p))); simpl; [|exact IH].
    f_equal; [apply load_person_fields|exact IH].
  - intros h.
    destruct (PersonByGithubHandle _ h) as [q|] eqn:Hq; [|exact I].
    apply PersonByGithubHandle_found in Hq as [Hin Hg]. split; [|exact Hg].
    apply list_elem_of_fmap in Hin as (p & -> & Hin).
    apply list_elem_of_In, List.filter_In in Hin as [_ Hp].
    apply bool_decide_eq_true_1 in Hp.
    now destruct (load_person_fields tm p) as (-> & _).
Qed.

Lemma main_roster_is_team_file_witness :
  Forall (fun p => TeamMember p = false) Roster.people
  /\ exists loaded,
       Load (Some Roster.people) (Some Roster.team_file) = inl loaded
       /\ map Kerberos (team_members loaded)
          = List.filter (fun k => bool_decide (is_Some (Roster.team_file !! k)))
              (map Kerberos Roster.people)
       /\ forall h,
            match PersonByGithubHandle (team_members loaded) h with
            | Some q => is_Some (Roster.team_file !! Kerberos q) /\ Github q = h
            | None => True
            end.
Proof.
  assert (H : Forall (fun p => TeamMember p = false) Roster.people)
    by (repeat constructor).
  split; [exact H|].
  exact (main_roster_is_team_file Roster.people Roster.team_file H).
Defined.

Example Load_roster :
  Load (Some Roster.people) (Some Roster.team_file)
  = inl [mkPerson "alice" "alice-gh" "alice@corp" "@U01" true true [mkLeave 10 20];
         mkPerson "bob" "bob-gh" "bob@corp" "@U02" false false []].
Proof. reflexivity. Qed.

(** X6.  [init] exits, with status 64, exactly when one of the four
    variables is empty; it then has logged one line for each empty
    variable, in the order GITHUB_TOKEN, JIRA_TOKEN, PEOPLE, TEAM, and
    the line "Exiting."; when none is empty it logs nothing. *)
Theorem init_exits_on_missing_variable
    (GITHUB_TOKEN JIRA_TOKEN PEOPLE TEAM : string) :
  let missing :=
    List.filter (fun v => String.eqb (fst v) EmptyString)
      [(GITHUB_TOKEN, "GITHUB_TOKEN"); (JIRA_TOKEN, "JIRA_TOKEN");
       (PEOPLE, "PEOPLE"); (TEAM, "TEAM")] in
  init GITHUB_TOKEN JIRA_TOKEN PEOPLE TEAM
  = match missing with
    | [] => ([], None)
    | _ :: _ =>
        (map (fun v => "Required environment variable not found: " +:+ snd v)
           missing ++ ["Exiting."], Some 64)
    end.
Proof.
  unfold init, check_env. simpl.
  destruct (String.eqb GITHUB_TOKEN EmptyString);
    destruct (String.eqb JIRA_TOKEN EmptyString);
    destruct (String.eqb PEOPLE EmptyString);
    destruct (String.eqb TEAM EmptyString); reflexivity.
Qed.

End LoadFacts.

(** ** pkg/jiraclient: the retry loop in general *)

Section ThrottleFacts.
Import http jiraclient.

(** X7.  Whatever number of throttled replies comes first, [Do] sends
    the same request once more after each of them, pausing in between,
    and returns the first reply that is not throttled, response and error
    as the transport gave them; an error that comes with a throttled
    reply is dropped; replies scripted after the one returned are not
    asked for. *)
Theorem Do_retries_until_not_throttled
    (throttles : list (Response * option Error)) (r : Response)
    (err : option Error) (rest : list TransportReply) (req : Request) :
  Forall (fun x => StatusCode (fst x) = StatusTooManyRequests) throttles ->
  StatusCode r <> StatusTooManyRequests ->
  Do (map (fun x => (Some (fst x), snd x)) throttles ++ (Some r, err) :: rest) req
  = (flat_map (fun x => [Sent req; Slept (throttle_wait (fst x))]) throttles
       ++ [Sent req],
     DoReturned (Some r) err).
Proof.
  intros Hth Hr. induction Hth as [|[r1 e1] l H1 _ IH]; simpl.
  - destruct (Z.eqb_spec (StatusCode r) StatusTooManyRequests); [contradiction|].
    reflexivity.
  - simpl in H1. rewrite H1, Z.eqb_refl.
    simpl in IH. rewrite IH. reflexivity.
Qed.

Lemma Do_retries_until_not_throttled_witness :
  (Forall (fun x => StatusCode (fst x) = StatusTooManyRequests)
     [(throttled "7", None); (throttled_bare, Some "reset")]
   /\ StatusCode ok_response <> StatusTooManyRequests)
  /\ Do (map (fun x => (Some (fst x), snd x))
           [(throttled "7", None); (throttled_bare, Some "reset")]
         ++ (Some ok_response, None) :: [(None, Some "unused")])
       (mkRequest "GET" "rest/api/2/search")
     = (flat_map (fun x => [Sent (mkRequest "GET" "rest/api/2/search");
                            Slept (throttle_wait (fst x))])
          [(throttled "7", None); (throttled_bare, Some "reset")]
          ++ [Sent (mkRequest "GET" "rest/api/2/search")],
        DoReturned (Some ok_response) None).
Proof.
  assert (H1 : Forall (fun x => StatusCode (fst x) = StatusTooManyRequests)
                 [(throttled "7", None); (throttled_bare, Some "reset")])
    by (repeat constructor).
  assert (H2 : StatusCode ok_response <> StatusTooManyRequests) by discriminate.
  split; [split; assumption|].
  exact (Do_retries_until_not_throttled _ ok_response None
           [(None, Some "unused")] (mkRequest "GET" "rest/api/2/search") H1 H2).
Defined.

(** X8.  Whatever the transport replies: every request [Do] sends is
    the one it was given; it sends one request more than it pauses; it
    never sleeps a negative time; and when it returns, the response is
    there and is not a throttled one. *)
Theorem Do_invariants (transport : list TransportReply) (req : Request) :
  Forall (fun r => r = req) (requests (fst (Do transport req)))
  /\ length (requests (fst (Do transport req)))
     = Datatypes.S (length (pauses (fst (Do transport req))))
  /\ 0 <= slept (fst (Do transport req))
  /\ match snd (Do transport req) with
     | DoReturned res _ =>
         exists r, res = Some r /\ StatusCode r <> StatusTooManyRequests
     | _ => True
     end.
Proof.
  split; [apply Do_requests_same|].
  induction transport as [|[[r|] err] rest IH]; simpl.
  - repeat split. unfold slept. simpl. lia.
  - destruct (Z.eqb_spec (StatusCode r) StatusTooManyRequests) as [Heq|Hne].
    + destruct (Do rest req) as [evs out]. simpl in *.
      destruct IH as (Hlen & Hs & Hout).
      repeat split; [now rewrite Hlen| |exact Hout].
      unfold slept in *. simpl. lia.
    + simpl. repeat split; [unfold slept; simpl; lia|].
      exists r. split; [reflexivity|exact Hne].
  - repeat split. unfold slept. simpl. lia.
Qed.

End ThrottleFacts.

(** ** The two patterns *)

Section PatternFacts.
Import Bytes regexp Shapes.

Lemma strip_prefix_sound (p s r : string) :
  strip_prefix p s = Some r -> s = p +:+ r.
Proof.
  revert s. induction p as [|a p IH]; intros s; simpl.
  - now intros [= ->].
  - destruct s as [|b s]; [discriminate|].
    destruct (Ascii.eqb_spec a b) as [->|]; [|discriminate].
    intros H. rewrite append_cons. f_equal. now apply IH.
Qed.

Lemma span_digits_sound (s ds r : string) :
  span_digits s = (ds, r) -> s = ds +:+ r /\ all_digits ds = true.
Proof.
  revert ds r. induction s as [|c s IH]; intros ds r; simpl.
  - intros [= <- <-]. split; reflexivity.
  - destruct (is_digit c) eqn:Hc.
    + destruct (span_digits s) as [ds' r'] eqn:Hs. intros [= <- <-].
      destruct (IH ds' r' eq_refl) as [-> Hd]. split; [reflexivity|].
      simpl. now rewrite Hc, Hd.
    + intros [= <- <-]. split; reflexivity.
Qed.

Lemma ghIssueNumber_at_sound (s ds : string) :
  ghIssueNumber_at s = Some ds ->
  ds <> EmptyString /\ all_digits ds = true
  /\ exists post, s = ("GH-orc-" +:+ ds +:+ ": ") +:+ post.
Proof.
  unfold ghIssueNumber_at.
  destruct (strip_prefix "GH-orc-" s) as [r|] eqn:Hp; [|discriminate].
  destruct (span_digits r) as [ds' r'] eqn:Hs.
  destruct ds' as [|c ds']; [discriminate|].
  destruct (strip_prefix ": " r') as [post|] eqn:Hq; [|discriminate].
  intros [= <-].
  apply strip_prefix_sound in Hp. apply strip_prefix_sound in Hq.
  apply span_digits_sound in Hs as [Hr Hd].
  split; [discriminate|]. split; [exact Hd|].
  exists post. subst. now rewrite !append_assoc.
Qed.

Lemma ghIssueNumberRegex_match (s : string) :
  match ghIssueNumberRegex_FindStringSubmatch s with
  | [] => True
  | [whole; ds] =>
      whole = "GH-orc-" +:+ ds +:+ ": "
      /\ ds <> EmptyString /\ all_digits ds = true
      /\ exists pre post, s = pre +:+ whole +:+ post
  | _ => False
  end.
Proof.
  induction s as [|c s IH]; rewrite FindStringSubmatch_unfold.
  - destruct (ghIssueNumber_at EmptyString) as [ds|] eqn:Hat; [|exact I].
    apply ghIssueNumber_at_sound in Hat as (Hne & Hd & post & Hs).
    repeat split; try assumption. exists EmptyString, post. exact Hs.
  - destruct (ghIssueNumber_at (String c s)) as [ds|] eqn:Hat.
    + apply ghIssueNumber_at_sound in Hat as (Hne & Hd & post & Hs).
      repeat split; try assumption. exists EmptyString, post. exact Hs.
    + destruct (ghIssueNumberRegex_FindStringSubmatch s) as [|w [|ds [|x l]]];
        try exact IH.
      destruct IH as (Hw & Hne & Hd & pre & post & Hs).
      repeat split; try assumption.
      exists (String c pre), post. rewrite append_cons. now f_equal.
Qed.

(** X9.  What [ghIssueNumberRegex] finds in a string: nothing, or the
    pair of the match and its group, where the group is a non-empty
    string of decimal digits, the match is the group between [GH-orc-]
    and a colon and a space, and the match occurs in the string. *)
Theorem ghIssueNumberRegex_sound (s : string) :
  match ghIssueNumberRegex_FindStringSubmatch s with
  | [] => True
  | [whole; ds] =>
      whole = "GH-orc-" +:+ ds +:+ ": "
      /\ ds <> EmptyString /\ all_digits ds = true
      /\ exists pre post, s = pre +:+ whole +:+ post
  | _ => False
  end.
Proof. apply ghIssueNumberRegex_match. Qed.

Lemma nonspace_then_rel_next_sound (s g : string) :
  nonspace_then_rel_next s = Some g ->
  g <> EmptyString /\ no_space g = true
  /\ exists post, s = g +:+ rel_next +:+ post.
Proof.
  revert g. induction s as [|c s IH]; intros g;
    cbn [nonspace_then_rel_next]; [discriminate|].
  destruct (is_space c) eqn:Hc; [discriminate|].
  destruct (nonspace_then_rel_next s) as [g'|].
  - intros [= <-]. destruct (IH g' eq_refl) as (_ & Hn & post & ->).
    split; [discriminate|]. split; [simpl; now rewrite Hc, Hn|].
    exists post. reflexivity.
  - destruct (strip_prefix rel_next s) as [post|] eqn:Hp; [|discriminate].
    intros [= <-]. apply strip_prefix_sound in Hp.
    split; [discriminate|]. split; [simpl; now rewrite Hc|].
    exists post. rewrite append_cons. now f_equal.
Qed.

(** X10.  What [linkHeaderRegex] finds in a header: nothing, or the
    pair of the match and its group, where the group is not empty and
    holds no white space, the match is the group between [<] and
    [>; rel="next"], and the match occurs in the header.  So the address
    of the next page is taken from the header as it stands, or is
    empty. *)
Theorem linkHeaderRegex_sound (s : string) :
  match linkHeaderRegex_FindStringSubmatch s with
  | [] => True
  | [whole; g] =>
      whole = "<" +:+ g +:+ rel_next
      /\ g <> EmptyString /\ no_space g = true
      /\ exists pre post, s = pre +:+ whole +:+ post
  | _ => False
  end.
Proof.
  induction s as [|c s IH]; cbn [linkHeaderRegex_FindStringSubmatch]; [exact I|].
  destruct (if Ascii.eqb c "<" then nonspace_then_rel_next s else None)
    as [g|] eqn:Hat.
  - destruct (Ascii.eqb_spec c "<") as [->|]; [|discriminate].
    apply nonspace_then_rel_next_sound in Hat as (Hne & Hn & post & ->).
    repeat split; try assumption. exists EmptyString, post.
    change (String "<" (g +:+ rel_next +:+ post)
            = String "<" ((g +:+ rel_next) +:+ post)).
    now rewrite append_assoc.
  - destruct (linkHeaderRegex_FindStringSubmatch s) as [|w [|g [|x l]]];
      try exact IH.
    destruct IH as (Hw & Hne & Hn & pre & post & Hs).
    repeat split; try assumption.
    exists (String c pre), post. rewrite append_cons. now f_equal.
Qed.

End PatternFacts.

(** ** The fetcher and the search on failures *)

Section ProducerFailures.
Import jira query ghira Pages Shapes.

Lemma fetch_loop_fatal (bad : Exchange) (extra : list Exchange) (url : string) :
  url <> EmptyString -> fatal bad = true ->
  fetch_loop (bad :: extra) url
  = mkFetchRun (if asked bad then [url] else []) (mkStream [] (ProcessExit 1)).
Proof.
  intros Hurl Hbad. simpl.
  destruct (String.eqb_spec url EmptyString); [congruence|].
  destruct bad as [| |res decoded]; try reflexivity.
  simpl in Hbad. destruct (negb (http.StatusCode res =? 200)); [reflexivity|].
  destruct decoded; [discriminate|reflexivity].
Qed.

Lemma fetch_loop_pages_then_fatal
    (pages : list (http.Response * list GithubIssue)) (bad : Exchange)
    (extra : list Exchange) (url : string) :
  url <> EmptyString ->
  Forall (fun p => fetch_ok p = true /\ fetch_has_next p = true) pages ->
  fatal bad = true ->
  fetch_loop (map fetch_reply pages ++ bad :: extra) url
  = mkFetchRun
      (firstn (length pages + (if asked bad then 1 else 0))
         (url :: map (fun p => next_url (fst p)) pages))
      (mkStream (concat (map (fun p => send_issues (snd p)) pages))
         (ProcessExit 1)).
Proof.
  intros Hurl Hpages Hbad. revert url Hurl.
  induction Hpages as [|p pages [Hp1 Hp2] _ IH]; intros url Hurl.
  - simpl map. simpl app. rewrite fetch_loop_fatal by assumption.
    destruct (asked bad); reflexivity.
  - simpl map. simpl app. unfold fetch_reply at 1.
    unfold fetch_ok in Hp1. apply Z.eqb_eq in Hp1.
    unfold fetch_has_next in Hp2. apply negb_true_iff in Hp2.
    rewrite fetch_loop_page by assumption.
    rewrite IH by (intros Heq; rewrite Heq in Hp2; discriminate).
    reflexivity.
Qed.

(** X11.  When a turn of the fetch loop fails after some pages went
    well (the request cannot be built, the transport fails, the status is
    not 200, or the body does not decode), the fetcher has sent the
    entries of the earlier pages that are not pull requests, in order,
    and nothing of the failing page; the process then exits with status
    1: the channel is not closed, and no further request is made. *)
Theorem fetchGitHubIssues_stops_at_failure
    (pages : list (http.Response * list GithubIssue)) (bad : Exchange)
    (extra : list Exchange) :
  Forall (fun p => fetch_ok p = true /\ fetch_has_next p = true) pages ->
  fatal bad = true ->
  fetch_stream (fetchGitHubIssues (map fetch_reply pages ++ bad :: extra))
    = mkStream (concat (map (fun p => send_issues (snd p)) pages)) (ProcessExit 1)
  /\ length (fetch_requests
       (fetchGitHubIssues (map fetch_reply pages ++ bad :: extra)))
     = (length pages + (if asked bad then 1 else 0))%nat.
Proof.
  intros Hpages Hbad. unfold fetchGitHubIssues.
  rewrite fetch_loop_pages_then_fatal by (assumption || discriminate).
  split; [reflexivity|]. cbn [fetch_requests].
  rewrite length_firstn. simpl length. rewrite length_map.
  destruct (asked bad); lia.
Qed.

Lemma fetchGitHubIssues_stops_at_failure_witness :
  (Forall (fun p => fetch_ok p = true /\ fetch_has_next p = true)
     [Samples.fetch_page1]
   /\ fatal (Answered (http.mkResponse 502 ∅) None) = true)
  /\ fetch_stream
       (fetchGitHubIssues
          (map fetch_reply [Samples.fetch_page1]
           ++ Answered (http.mkResponse 502 ∅) None
              :: [fetch_reply Samples.fetch_page2]))
     = mkStream
         (concat (map (fun p => send_issues (snd p)) [Samples.fetch_page1]))
         (ProcessExit 1)
  /\ length (fetch_requests
       (fetchGitHubIssues
          (map fetch_reply [Samples.fetch_page1]
           ++ Answered (http.mkResponse 502 ∅) None
              :: [fetch_reply Samples.fetch_page2])))
     = (length [Samples.fetch_page1]
        + (if asked (Answered (http.mkResponse 502 ∅) None) then 1 else 0))%nat.
Proof.
  assert (H1 : Forall (fun p => fetch_ok p = true /\ fetch_has_next p = true)
                 [Samples.fetch_page1]).
  { constructor; [split; vm_compute; reflexivity|constructor]. }
  assert (H2 : fatal (Answered (http.mkResponse 502 ∅) None) = true)
    by reflexivity.
  split; [split; assumption|].
  exact (fetchGitHubIssues_stops_at_failure [Samples.fetch_page1]
           (Answered (http.mkResponse 502 ∅) None)
           [fetch_reply Samples.fetch_page2] H1 H2).
Defined.

(** X12.  The addresses the loops ask for.  On successful pages, the
    fetcher asks first for the issues of [k-orc/openstack-resource-controller]
    and then, page after page, for the address found in the link header
    of the page before; the search asks first for offset 0 and then for
    the offset of the page before plus the number of issues it held. *)
Theorem pagination_follows_the_pages
    (spages : list (list Issue * jira.Response))
    (slast : list Issue * jira.Response) (sextra : list SearchReply)
    (fpages : list (http.Response * list GithubIssue))
    (flast : http.Response * list GithubIssue) (fextra : list Exchange) :
  Forall (fun p => status_accepted (snd p) = true /\ search_has_next p = true)
    spages ->
  status_accepted (snd slast) = true -> search_has_next slast = false ->
  Forall (fun p => fetch_ok p = true /\ fetch_has_next p = true) fpages ->
  fetch_ok flast = true -> fetch_has_next flast = false ->
  search_requests (SearchIssues (map search_reply (spages ++ [slast]) ++ sextra))
    = 0 :: map search_next spages
  /\ fetch_requests
       (fetchGitHubIssues (map fetch_reply (fpages ++ [flast]) ++ fextra))
     = "https://api.github.com/repos/k-orc/openstack-resource-controller/issues"
       :: map (fun p => next_url (fst p)) fpages.
Proof.
  intros Hs Hsok Hslast Hf Hfok Hflast. split.
  - unfold SearchIssues. now rewrite search_loop_pages by (assumption || reflexivity).
  - unfold fetchGitHubIssues.
    now rewrite fetch_loop_pages by (assumption || discriminate).
Qed.

End ProducerFailures.

Section SearchFailures.
Import jira query ghira Pages Shapes.

Lemma pagination_follows_the_pages_witness :
  (Forall (fun p => status_accepted (snd p) = true /\ search_has_next p = true)
     [Samples.search_page1]
   /\ status_accepted (snd Samples.search_page2) = true
   /\ search_has_next Samples.search_page2 = false
   /\ Forall (fun p => fetch_ok p = true /\ fetch_has_next p = true)
        [Samples.fetch_page1]
   /\ fetch_ok Samples.fetch_page2 = true
   /\ fetch_has_next Samples.fetch_page2 = false)
  /\ search_requests
       (SearchIssues (map search_reply ([Samples.search_page1] ++ [Samples.search_page2]) ++ []))
     = 0 :: map search_next [Samples.search_page1]
  /\ fetch_requests
       (fetchGitHubIssues (map fetch_reply ([Samples.fetch_page1] ++ [Samples.fetch_page2]) ++ []))
     = "https://api.github.com/repos/k-orc/openstack-resource-controller/issues"
       :: map (fun p => next_url (fst p)) [Samples.fetch_page1].
Proof.
  assert (H1 : Forall (fun p => status_accepted (snd p) = true
                               /\ search_has_next p = true) [Samples.search_page1]).
  { constructor; [split; reflexivity|constructor]. }
  assert (H2 : Forall (fun p => fetch_ok p = true /\ fetch_has_next p = true)
                 [Samples.fetch_page1]).
  { constructor; [split; vm_compute; reflexivity|constructor]. }
  assert (H3 : status_accepted (snd Samples.search_page2) = true) by reflexivity.
  assert (H4 : search_has_next Samples.search_page2 = false) by reflexivity.
  assert (H5 : fetch_ok Samples.fetch_page2 = true) by reflexivity.
  assert (H6 : fetch_has_next Samples.fetch_page2 = false) by reflexivity.
  split; [exact (conj H1 (conj H3 (conj H4 (conj H2 (conj H5 H6)))))|].
  exact (pagination_follows_the_pages [Samples.search_page1] Samples.search_page2 []
           [Samples.fetch_page1] Samples.fetch_page2 [] H1 H3 H4 H2 H5 H6).
Defined.

Lemma search_loop_stop (bad : SearchReply) (extra : list SearchReply)
    (last total : Z) (e : Ending) :
  (last <? total) = true -> search_stop bad = Some e ->
  search_loop (bad :: extra) last total = mkSearchRun [last] (mkStream [] e).
Proof.
  intros Hlt Hbad. simpl. rewrite Hlt. simpl.
  destruct bad as [err|issues res]; simpl in Hbad.
  - now injection Hbad as <-.
  - destruct (status_accepted res); [discriminate|]. now injection Hbad as <-.
Qed.

Lemma search_loop_pages_then_stop
    (pages : list (list Issue * jira.Response)) (bad : SearchReply)
    (extra : list SearchReply) (e : Ending) (last total : Z) :
  (last <? total) = true ->
  Forall (fun p => status_accepted (snd p) = true /\ search_has_next p = true)
    pages ->
  search_stop bad = Some e ->
  search_loop (map search_reply pages ++ bad :: extra) last total
  = mkSearchRun (last :: map search_next pages)
      (mkStream (concat (map fst pages)) e).
Proof.
  intros Hlt Hpages Hbad. revert last total Hlt.
  induction Hpages as [|p pages [Hp1 Hp2] _ IH]; intros last total Hlt.
  - simpl map. simpl app. now rewrite (search_loop_stop _ _ _ _ e).
  - simpl map. simpl app. unfold search_reply at 1.
    rewrite search_loop_page by assumption.
    cbv zeta. rewrite IH by exact Hp2. reflexivity.
Qed.

(** X13.  When, after some pages that went well, a search returns an
    error or a status other than 200, 202 and 204, the search has sent
    the issues of the earlier pages, in order, and nothing of the failing
    reply; on an error the process exits with status 1, on an unexpected
    status the goroutine returns and leaves the channel open; either way
    no further search is made. *)
Theorem SearchIssues_stops_at_failure
    (pages : list (list Issue * jira.Response)) (bad : SearchReply)
    (extra : list SearchReply) (e : Ending) :
  Forall (fun p => status_accepted (snd p) = true /\ search_has_next p = true)
    pages ->
  search_stop bad = Some e ->
  SearchIssues (map search_reply pages ++ bad :: extra)
  = mkSearchRun (0 :: map search_next pages)
      (mkStream (concat (map fst pages)) e).
Proof.
  intros Hpages Hbad. unfold SearchIssues.
  now apply search_loop_pages_then_stop.
Qed.

Lemma SearchIssues_stops_at_failure_witness :
  (Forall (fun p => status_accepted (snd p) = true /\ search_has_next p = true)
     [Samples.search_page1]
   /\ search_stop (SearchFailed "connection reset") = Some (ProcessExit 1))
  /\ SearchIssues (map search_reply [Samples.search_page1]
                   ++ SearchFailed "connection reset"
                      :: [search_reply Samples.search_page2])
     = mkSearchRun (0 :: map search_next [Samples.search_page1])
         (mkStream (concat (map fst [Samples.search_page1])) (ProcessExit 1)).
Proof.
  assert (H1 : Forall (fun p => status_accepted (snd p) = true
                               /\ search_has_next p = true) [Samples.search_page1]).
  { constructor; [split; reflexivity|constructor]. }
  assert (H2 : search_stop (SearchFailed "connection reset")
               = Some (ProcessExit 1)) by reflexivity.
  split; [split; assumption|].
  exact (SearchIssues_stops_at_failure [Samples.search_page1]
           (SearchFailed "connection reset")
           [search_reply Samples.search_page2] (ProcessExit 1) H1 H2).
Defined.

Lemma search_loop_empty_pages (k : nat) (st a total last total0 : Z) :
  (last <? total0) = true ->
  status_accepted (jira.mkResponse st a total) = true ->
  GoInt.is_int a -> a < total ->
  search_loop (repeat (SearchPage [] (jira.mkResponse st a total)) k) last total0
  = mkSearchRun (last :: repeat a k) (mkStream [] AwaitingReply).
Proof.
  intros Hlt Hst [Hlo Hhi] Ha. revert last total0 Hlt.
  assert (Hadd : GoInt.add a (Z.of_nat 0) = a).
  { unfold GoInt.add, GoInt.wrap64, GoInt.min_int, GoInt.max_int in *.
    rewrite Z.add_0_r, Z.mod_small; lia. }
  induction k as [|k IH]; intros last total0 Hlt.
  - simpl. now rewrite Hlt.
  - cbn [repeat]. rewrite search_loop_page by assumption.
    cbn [length StartAt Total]. rewrite Hadd.
    rewrite IH by (now apply Z.ltb_lt). reflexivity.
Qed.

(** X14.  A tracker that answers every search with a page that holds
    no issue, while its total says there are more, is asked for the same
    offset again each time: the search neither advances nor closes its
    channel, for as long as such replies keep coming. *)
Theorem SearchIssues_repeats_on_empty_pages (k : nat) (st a total : Z) :
  status_accepted (jira.mkResponse st a total) = true ->
  GoInt.is_int a -> a < total ->
  SearchIssues (repeat (SearchPage [] (jira.mkResponse st a total)) k)
  = mkSearchRun (0 :: repeat a k) (mkStream [] AwaitingReply).
Proof.
  intros Hst Ha Hlt. unfold SearchIssues.
  now apply search_loop_empty_pages.
Qed.

Lemma SearchIssues_repeats_on_empty_pages_witness :
  (status_accepted (jira.mkResponse 200 0 5) = true
   /\ GoInt.is_int 0 /\ 0 < 5)
  /\ SearchIssues (repeat (SearchPage [] (jira.mkResponse 200 0 5)) 3)
     = mkSearchRun (0 :: repeat 0 3) (mkStream [] AwaitingReply).
Proof.
  assert (H1 : status_accepted (jira.mkResponse 200 0 5) = true) by reflexivity.
  assert (H2 : GoInt.is_int 0) by (vm_compute; split; discriminate).
  assert (H3 : 0 < 5) by lia.
  split; [exact (conj H1 (conj H2 H3))|].
  exact (SearchIssues_repeats_on_empty_pages 3 200 0 5 H1 H2 H3).
Defined.

End SearchFailures.

(** ** When the index loop panics *)

Section IndexPanics.
Import Bytes GoInt strconv jira ghira Index Shapes.

Lemma atoi_fast_decimal (s : string) (n : Z) :
  all_digits s = true -> atoi_fast s n = Some (decimal s n).
Proof.
  revert n. induction s as [|c s IH]; intros n Hd; simpl in *; [reflexivity|].
  apply andb_true_iff in Hd as [Hc Hd]. rewrite Hc. now apply IH.
Qed.

Lemma decimal_bound (s : string) (n : Z) :
  all_digits s = true -> 0 <= n ->
  decimal s n < (n + 1) * 10 ^ Z.of_nat (String.length s).
Proof.
  revert n. induction s as [|c s IH]; intros n Hd Hn; simpl in Hd |- *.
  - change (10 ^ Z.of_nat 0) with 1. lia.
  - apply andb_true_iff in Hd as [Hc Hd].
    pose proof (digit_val_range _ Hc) as Hv.
    specialize (IH (n * 10 + digit_val c) Hd ltac:(lia)).
    rewrite Nat2Z.inj_succ, Z.pow_succ_r by lia.
    assert (0 < 10 ^ Z.of_nat (String.length s)) by (apply Z.pow_pos_nonneg; lia).
    nia.
Qed.

Lemma parseUint_loop_decimal (s : string) (n : Z) :
  all_digits s = true -> 0 <= n < 2 ^ 64 ->
  parseUint_loop s n =
  if decimal s n <? 2 ^ 64 then (decimal s n, None)
  else (maxUint64, Some ErrRange).
Proof.
  revert n. induction s as [|c s IH]; intros n Hd Hn; simpl in Hd.
  - simpl. destruct (Z.ltb_spec n (2 ^ 64)); [reflexivity|lia].
  - apply andb_true_iff in Hd as [Hc Hd].
    pose proof (digit_val_range _ Hc) as Hv.
    assert (Hge : n * 10 + digit_val c <= decimal s (n * 10 + digit_val c)).
    { apply (atoi_fast_ge s); [lia|now apply atoi_fast_decimal]. }
    cbn [parseUint_loop decimal]. rewrite Hc. cbn [negb].
    unfold maxUint64.
    change (2 ^ 64) with 18446744073709551616 in *.
    change ((18446744073709551616 - 1) / 10 + 1) with 1844674407370955162.
    destruct (Z.leb_spec 1844674407370955162 n) as [Hcut|Hcut].
    { destruct (Z.ltb_spec (decimal s (n * 10 + digit_val c)) 18446744073709551616);
        [lia|reflexivity]. }
    cbv zeta.
    destruct (Z.lt_ge_cases (n * 10 + digit_val c) 18446744073709551616)
      as [Hfit|Hover].
    + rewrite Z.mod_small by lia.
      destruct (Z.ltb_spec (n * 10 + digit_val c) (n * 10)); [lia|].
      apply IH; [exact Hd|lia].
    + assert (Hmod : (n * 10 + digit_val c) mod 18446744073709551616
                     = n * 10 + digit_val c - 18446744073709551616).
      { symmetry. apply (Z.mod_unique _ _ 1); lia. }
      rewrite Hmod.
      destruct (Z.ltb_spec (n * 10 + digit_val c - 18446744073709551616) (n * 10));
        [|lia].
      destruct (Z.ltb_spec (decimal s (n * 10 + digit_val c)) 18446744073709551616);
        [lia|reflexivity].
Qed.

(** [Atoi] on a non-empty string of digits: the number, or a range
    error when the number is above the largest [int]. *)
Lemma Atoi_all_digits (s : string) :
  s <> EmptyString -> all_digits s = true ->
  Atoi s = if decimal s 0 <=? max_int then (decimal s 0, None)
           else (max_int, Some ErrRange).
Proof.
  intros Hne Hd. unfold max_int.
  destruct (Z.leb_spec (decimal s 0) (2 ^ 63 - 1)) as [Hfit|Hbig].
  - apply Atoi_digits; [exact Hne|exact Hd|now apply atoi_fast_decimal|lia].
  - unfold Atoi.
    pose proof (decimal_bound s 0 Hd ltac:(lia)) as Hb.
    destruct s as [|c0 s']; [congruence|].
    assert (Hc0 : is_digit c0 = true).
    { simpl in Hd. now apply andb_true_iff in Hd as [? _]. }
    destruct (digit_not_sign _ Hc0) as [Hm Hp].
    destruct (Z.ltb_spec (Z.of_nat (String.length (String c0 s'))) 19)
      as [Hlen|Hlen].
    + exfalso.
      assert (10 ^ Z.of_nat (String.length (String c0 s')) <= 10 ^ 18)
        by (apply Z.pow_le_mono_r; lia).
      change (2 ^ 63) with 9223372036854775808 in Hbig.
      change (10 ^ 18) with 1000000000000000000 in *. lia.
    + rewrite andb_false_r. unfold ParseInt. rewrite Hm, Hp. cbn [orb].
      unfold ParseUint.
      rewrite parseUint_loop_decimal
        by (try exact Hd; change (2 ^ 64) with 18446744073709551616; lia).
      cbn [negb andb].
      destruct (Z.ltb_spec (decimal (String c0 s') 0) (2 ^ 64)).
      * destruct (Z.leb_spec (2 ^ 63) (decimal (String c0 s') 0)); [reflexivity|lia].
      * reflexivity.
Qed.

Lemma indexable_iff (issue : Issue) :
  indexable issue = true
  <-> Fields issue <> None /\ tag_too_large issue = false.
Proof.
  unfold indexable, tag_too_large.
  destruct (Fields issue) as [fields|]; [|split; [discriminate|intros [H _]; congruence]].
  pose proof (ghIssueNumberRegex_match (Summary fields)) as Hs.
  destruct (regexp.ghIssueNumberRegex_FindStringSubmatch (Summary fields))
    as [|w [|ds [|x l]]]; try contradiction.
  - split; [split; [discriminate|reflexivity]|reflexivity].
  - destruct Hs as (_ & Hne & Hd & _).
    rewrite (Atoi_all_digits ds Hne Hd).
    destruct (Z.leb_spec (decimal ds 0) max_int) as [Hfit|Hbig].
    + split; [intros _; split; [discriminate|]|reflexivity].
      apply Z.ltb_ge. exact Hfit.
    + split; [discriminate|]. intros [_ H]. apply Z.ltb_ge in H. lia.
Qed.

Lemma alreadyKnown_loop_outcome (issues : list Issue)
    (m : gmap Z knownIssue) :
  match alreadyKnown_loop issues m with
  | Ret _ =>
      Forall (fun i => Fields i <> None /\ tag_too_large i = false) issues
  | Halt stop =>
      stop = Panicked
      /\ Exists (fun i => Fields i = None \/ tag_too_large i = true) issues
  | _ => False
  end.
Proof.
  revert m. induction issues as [|i rest IH]; intros m; [simpl; constructor|].
  destruct (indexable i) eqn:Hi.
  - rewrite alreadyKnown_loop_step by exact Hi.
    apply indexable_iff in Hi.
    specialize (IH (match issue_number i with
                    | Some n => <[n := record_of i]> m
                    | None => m
                    end)).
    destruct (alreadyKnown_loop rest _) as [m'|stop| | |]; try contradiction.
    + now constructor.
    + destruct IH as [-> Hex]. split; [reflexivity|now apply Exists_cons_tl].
  - rewrite alreadyKnown_loop_panics by exact Hi.
    split; [reflexivity|]. apply Exists_cons_hd.
    destruct (Fields i) eqn:Hf; [|now left]. right.
    destruct (tag_too_large i) eqn:Ht; [reflexivity|].
    exfalso. assert (indexable i = true); [|congruence].
    apply indexable_iff. split; [congruence|exact Ht].
Qed.

(** X15.  The index loop either returns an index or panics, and it
    panics exactly when the stream holds an issue without fields or an
    issue whose summary carries a tag with a number above the largest
    [int]: a tag with any smaller number, and a summary without a tag,
    never make it panic. *)
Theorem alreadyKnown_loop_panics_exactly (issues : list Issue)
    (m : gmap Z knownIssue) :
  match alreadyKnown_loop issues m with
  | Ret _ =>
      Forall (fun i => Fields i <> None /\ tag_too_large i = false) issues
  | Halt stop =>
      stop = Panicked
      /\ Exists (fun i => Fields i = None \/ tag_too_large i = true) issues
  | _ => False
  end.
Proof. apply alreadyKnown_loop_outcome. Qed.

Example index_panics_on_huge_number :
  alreadyKnown_loop [Pages.ticket "OSASINFRA-1" "GH-orc-9223372036854775808: x" "To Do"] ∅
  = Halt Panicked.
Proof. vm_compute. reflexivity. Qed.

Example index_accepts_max_int :
  exists m,
    alreadyKnown_loop [Pages.ticket "OSASINFRA-1" "GH-orc-9223372036854775807: x" "To Do"] ∅
    = Ret m /\ is_Some (m !! GoInt.max_int).
Proof. eexists. split; [vm_compute; reflexivity|]. vm_compute. eauto. Qed.

Lemma last_numbered_is_Some {A} (num : A -> option Z) (n : Z) (l : list A) :
  is_Some (last_numbered num n l) <-> Exists (fun x => num x = Some n) l.
Proof.
  induction l as [|x l IH]; simpl.
  - split; [intros [? H]; discriminate|intros H; inversion H].
  - rewrite Exists_cons, <- IH.
    destruct (last_numbered num n l) as [y|].
    + split; [intros _; right; eauto|eauto].
    + destruct (decide (num x = Some n)) as [Hx|Hx].
      * split; [now left|eauto].
      * split; [intros [? H]; discriminate|].
        intros [H|[? H]]; [contradiction|discriminate].
Qed.

(** X16.  When the loop gets through the stream, the numbers under
    which the index holds a record are exactly the numbers carried by the
    summaries of the stream: an issue without a tag adds no entry, and no
    tagged issue is left out. *)
Theorem alreadyKnown_keys (issues : list Issue) :
  Forall (fun i => indexable i = true) issues ->
  exists m,
    alreadyKnown_loop issues ∅ = Ret m
    /\ forall n, is_Some (m !! n)
                 <-> Exists (fun i => issue_number i = Some n) issues.
Proof.
  intros Hall. destruct (alreadyKnown_loop_last issues ∅ Hall) as (m & Hrun & Hlook).
  exists m. split; [exact Hrun|]. intros n.
  rewrite Hlook, <- last_numbered_is_Some.
  destruct (last_numbered issue_number n issues).
  - split; eauto.
  - rewrite lookup_empty. split; intros [? H]; discriminate.
Qed.

Lemma alreadyKnown_keys_witness :
  Forall (fun i => indexable i = true)
    [Scenario.duplicate_first; Pages.ticket "OSASINFRA-3" "fix the build" "To Do"]
  /\ exists m,
       alreadyKnown_loop
         [Scenario.duplicate_first;
          Pages.ticket "OSASINFRA-3" "fix the build" "To Do"] ∅ = Ret m
       /\ forall n, is_Some (m !! n)
                    <-> Exists (fun i => issue_number i = Some n)
                          [Scenario.duplicate_first;
                           Pages.ticket "OSASINFRA-3" "fix the build" "To Do"].
Proof.
  assert (H : Forall (fun i => indexable i = true)
                [Scenario.duplicate_first;
                 Pages.ticket "OSASINFRA-3" "fix the build" "To Do"])
    by (repeat constructor).
  split; [exact H|]. exact (alreadyKnown_keys _ H).
Defined.

End IndexPanics.

(** ** The reconciler loop as a whole *)

Section LoopFacts.
Import jira ghira Board Failing.
Context {S : Type} (t : Tracker S).

Lemma reconcile_issue_calls (alreadyKnown : gmap Z knownIssue)
    (issue : GithubIssue) (s : S) :
  (length (calls (run t (reconcile_issue alreadyKnown issue) s)) <= 2)%nat
  /\ (length (mutations (calls (run t (reconcile_issue alreadyKnown issue) s)))
      <= 1)%nat
  /\ length (List.filter opens_turn
               (calls (run t (reconcile_issue alreadyKnown issue) s))) = 1%nat.
Proof.
  destruct (alreadyKnown !! Number issue) as [[key [[st]|]]|] eqn:Hk.
  - rewrite (run_reconcile_issue_known t _ _ s key st Hk). cbv zeta.
    destruct (_ && _); [repeat split; simpl; lia|].
    destruct (_ && _); repeat split; simpl; lia.
  - rewrite (run_reconcile_issue_statusless t _ _ s key Hk).
    repeat split; simpl; lia.
  - rewrite (run_reconcile_issue_create t _ _ s Hk). repeat split; simpl; lia.
Qed.

(** X17.  For each issue the reconciler makes at most two calls on the
    tracker, of which at most one changes it; over a run, the number of
    changes is at most the number of issues processed. *)
Theorem reconcile_loop_changes_bounded (alreadyKnown : gmap Z knownIssue)
    (issues : list GithubIssue) (s : S) :
  (length (calls (run t (reconcile_loop alreadyKnown issues) s))
   <= 2 * length issues)%nat
  /\ (length (mutations (calls (run t (reconcile_loop alreadyKnown issues) s)))
      <= length issues)%nat.
Proof.
  revert s. induction issues as [|i rest IH]; intros s; [split; simpl; lia|].
  cbn [reconcile_loop]. rewrite run_bind.
  destruct (reconcile_issue_calls alreadyKnown i s) as (H2 & H1 & _).
  destruct (result (run t (reconcile_issue alreadyKnown i) s)); cbn [calls].
  - rewrite mutations_app, !length_app.
    destruct (IH (final (run t (reconcile_issue alreadyKnown i) s))).
    simpl length. lia.
  - simpl length. lia.
Qed.

Lemma run_reconcile_issue_result (alreadyKnown : gmap Z knownIssue)
    (issue : GithubIssue) (s : S) :
  create_answers t -> statuses_known alreadyKnown ->
  result (run t (reconcile_issue alreadyKnown issue) s) = inl tt.
Proof.
  intros Hc Hst. unfold reconcile_issue.
  destruct (alreadyKnown !! Number issue) as [k|] eqn:Hk.
  - destruct (Hst _ _ Hk) as [st Hks].
    cbn [run]. destruct (on_GetTransitions t (known_Key k) s) as [ts s'].
    destruct (pick_transitions ts (EmptyString, EmptyString)) as [todo closed].
    unfold status_name. rewrite Hks.
    destruct (String.eqb (Status issue) "closed"); cbn [bind andb].
    + destruct (String.eqb (Name st) "Closed"); cbn [negb bind andb run].
      * destruct (String.eqb (Status issue) "open"); cbn [bind andb run].
        -- now destruct (on_DoTransition t (known_Key k) todo s').
        -- reflexivity.
      * now destruct (on_DoTransition t (known_Key k) closed s').
    + destruct (String.eqb (Status issue) "open"); cbn [bind andb run].
      * destruct (String.eqb (Name st) "Closed"); cbn [bind andb run].
        -- now destruct (on_DoTransition t (known_Key k) todo s').
        -- reflexivity.
      * reflexivity.
  - unfold createJiraIssue. cbn [bind run].
    specialize (Hc (new_issue issue) s).
    destruct (on_Create t (new_issue issue) s) as [r s']. cbn [fst] in Hc.
    destruct (create_err r) as [e|]; [|reflexivity].
    destruct (create_response r); [reflexivity|].
    exfalso. now apply Hc.
Qed.

Lemma reconcile_loop_turns (alreadyKnown : gmap Z knownIssue)
    (issues : list GithubIssue) (s : S) :
  create_answers t -> statuses_known alreadyKnown ->
  result (run t (reconcile_loop alreadyKnown issues) s) = inl tt
  /\ length (List.filter opens_turn
               (calls (run t (reconcile_loop alreadyKnown issues) s)))
     = length issues.
Proof.
  intros Hc Hst. revert s.
  induction issues as [|i rest IH]; intros s; [split; reflexivity|].
  cbn [reconcile_loop]. rewrite run_bind.
  rewrite (run_reconcile_issue_result alreadyKnown i s Hc Hst).
  cbn [calls result].
  destruct (reconcile_issue_calls alreadyKnown i s) as (_ & _ & H1).
  destruct (IH (final (run t (reconcile_issue alreadyKnown i) s))) as [Hr Hl].
  split; [exact Hr|].
  rewrite List.filter_app, length_app, H1, Hl. reflexivity.
Qed.

(** X19.  A creation that fails without a response stops everything:
    [createJiraIssue] reads the body of the nil response, the run ends in
    a panic right after the call, and the issues that follow are not
    processed. *)
Theorem reconcile_loop_panics_on_create_without_response
    (alreadyKnown : gmap Z knownIssue) (issue : GithubIssue)
    (rest : list GithubIssue) (s : S) :
  alreadyKnown !! Number issue = None ->
  create_err (fst (on_Create t (new_issue issue) s)) <> None ->
  create_response (fst (on_Create t (new_issue issue) s)) = None ->
  run t (reconcile_loop alreadyKnown (issue :: rest)) s
  = mkRun [Create (new_issue issue)] (snd (on_Create t (new_issue issue) s))
      (inr Panicked).
Proof.
  intros Hk He Hr. cbn [reconcile_loop]. rewrite run_bind.
  unfold reconcile_issue, createJiraIssue. rewrite Hk. cbn [bind run].
  destruct (on_Create t (new_issue issue) s) as [r s']. cbn [fst snd] in *.
  destruct (create_err r); [|congruence]. rewrite Hr. reflexivity.
Qed.

(** X20.  An index entry without a status stops everything as soon as
    an open or closed issue meets it: the transitions are listed, reading
    the name of the status panics, and the issues that follow are not
    processed. *)
Theorem reconcile_loop_panics_on_missing_status
    (alreadyKnown : gmap Z knownIssue) (issue : GithubIssue)
    (rest : list GithubIssue) (s : S) (key : string) :
  alreadyKnown !! Number issue = Some (mkKnownIssue key None) ->
  Status issue = "closed" \/ Status issue = "open" ->
  run t (reconcile_loop alreadyKnown (issue :: rest)) s
  = mkRun [GetTransitions key] (snd (on_GetTransitions t key s)) (inr Panicked).
Proof.
  intros Hk Hs. cbn [reconcile_loop]. rewrite run_bind.
  unfold reconcile_issue. rewrite Hk. cbn [run known_Key].
  destruct (on_GetTransitions t key s) as [ts s']. cbn [snd].
  destruct (pick_transitions ts (EmptyString, EmptyString)) as [todo closed].
  unfold status_name. cbn [known_Status].
  destruct Hs as [-> | ->]; reflexivity.
Qed.

End LoopFacts.

Section LoopWitnesses.
Import jira ghira Board Failing Scenario.

Lemma refusing_create_answers : create_answers refusing.
Proof. intros i s _. discriminate. Qed.

Lemma known_statuses : statuses_known known.
Proof.
  intros n k Hk. unfold known in Hk.
  destruct (decide (n = 7)) as [->|H7]; [vm_compute in Hk; injection Hk as <-; eauto|].
  destruct (decide (n = 8)) as [->|H8]; [vm_compute in Hk; injection Hk as <-; eauto|].
  destruct (decide (n = 9)) as [->|H9]; [vm_compute in Hk; injection Hk as <-; eauto|].
  rewrite !lookup_insert_ne, lookup_singleton_ne in Hk by congruence.
  discriminate.
Qed.

Lemma reconcile_loop_panics_on_create_without_response_witness :
  (known !! Number item42 = None
   /\ create_err (fst (on_Create unreachable (new_issue item42) tt)) <> None
   /\ create_response (fst (on_Create unreachable (new_issue item42) tt)) = None)
  /\ run unreachable (reconcile_loop known (item42 :: [item7])) tt
     = mkRun [Create (new_issue item42)]
         (snd (on_Create unreachable (new_issue item42) tt)) (inr Panicked).
Proof.
  assert (H1 : known !! Number item42 = None) by reflexivity.
  assert (H2 : create_err (fst (on_Create unreachable (new_issue item42) tt))
               <> None) by discriminate.
  assert (H3 : create_response (fst (on_Create unreachable (new_issue item42) tt))
               = None) by reflexivity.
  split; [exact (conj H1 (conj H2 H3))|].
  exact (reconcile_loop_panics_on_create_without_response unreachable known
           item42 [item7] tt H1 H2 H3).
Defined.

Lemma reconcile_loop_panics_on_missing_status_witness :
  (statusless !! Number item7 = Some (mkKnownIssue "OSASINFRA-7" None)
   /\ (Status item7 = "closed" \/ Status item7 = "open"))
  /\ run refusing (reconcile_loop statusless (item7 :: [item42])) tt
     = mkRun [GetTransitions "OSASINFRA-7"]
         (snd (on_GetTransitions refusing "OSASINFRA-7" tt)) (inr Panicked).
Proof.
  assert (H1 : statusless !! Number item7 = Some (mkKnownIssue "OSASINFRA-7" None))
    by reflexivity.
  assert (H2 : Status item7 = "closed" \/ Status item7 = "open")
    by (right; reflexivity).
  split; [exact (conj H1 H2)|].
  exact (reconcile_loop_panics_on_missing_status refusing statusless item7
           [item42] tt "OSASINFRA-7" H1 H2).
Defined.

End LoopWitnesses.

(** ** The reconciler through the client *)

Section ClientFacts.
Import jira ghira Failing Clients.
Context {S : Type} (c : JiraClient S).

Lemma run_client_returns {A} (p : Prog A) (s : S) :
  transport_returns c -> run_client c p s = run (answers c) p s.
Proof.
  intros H. revert s.
  induction p as [a|st|key k IH|key id k IH|i k IH]; intros s; simpl;
    try reflexivity.
  - destruct (H (GetTransitions key) s) as (res & err & ->).
    destruct (on_GetTransitions (answers c) key s) as [r s']. now rewrite IH.
  - destruct (H (DoTransition key id) s) as (res & err & ->).
    destruct (on_DoTransition (answers c) key id s) as [r s']. now rewrite IH.
  - destruct (H (Create i) s) as (res & err & ->).
    destruct (on_Create (answers c) i s) as [r s']. now rewrite IH.
Qed.

Lemma run_client_bind {A B} (p : Prog A) (f : A -> Prog B) (s : S) :
  run_client c (bind p f) s =
  match result (run_client c p s) with
  | inl a =>
      mkRun (calls (run_client c p s)
               ++ calls (run_client c (f a) (final (run_client c p s))))
        (final (run_client c (f a) (final (run_client c p s))))
        (result (run_client c (f a) (final (run_client c p s))))
  | inr st => mkRun (calls (run_client c p s)) (final (run_client c p s)) (inr st)
  end.
Proof.
  revert s. induction p as [a|st|key k IH|key id k IH|i k IH]; intros s; simpl.
  - now destruct (run_client c (f a) s).
  - reflexivity.
  - destruct (through c (GetTransitions key) s); try reflexivity.
    destruct (on_GetTransitions (answers c) key s) as [r s']. rewrite IH.
    unfold after. simpl. now destruct (result (run_client c (k r) s')).
  - destruct (through c (DoTransition key id) s); try reflexivity.
    destruct (on_DoTransition (answers c) key id s) as [r s']. rewrite IH.
    unfold after. simpl. now destruct (result (run_client c (k r) s')).
  - destruct (through c (Create i) s); try reflexivity.
    destruct (on_Create (answers c) i s) as [r s']. rewrite IH.
    unfold after. simpl. now destruct (result (run_client c (k r) s')).
Qed.



(** X18.  A creation or a transition that the tracker refuses does not
    stop the run.  As long as every request gets a response through
    [Do], the error of a creation comes with its response, and every
    index entry has a status, the loop reaches its end whatever the
    tracker answers, and every issue has had its turn: the listing of the
    transitions, or the creation, was called once per issue.  The run is
    then the run against the answers alone. *)
Theorem reconcile_loop_survives_failures (alreadyKnown : gmap Z knownIssue)
    (issues : list GithubIssue) (s : S) :
  transport_returns c -> create_answers (answers c) ->
  Board.statuses_known alreadyKnown ->
  result (run_client c (reconcile_loop alreadyKnown issues) s) = inl tt
  /\ length (List.filter opens_turn
               (calls (run_client c (reconcile_loop alreadyKnown issues) s)))
     = length issues
  /\ run_client c (reconcile_loop alreadyKnown issues) s
     = run (answers c) (reconcile_loop alreadyKnown issues) s.
Proof.
  intros Ht Hc Hst. rewrite (run_client_returns _ _ Ht).
  destruct (reconcile_loop_turns (answers c) alreadyKnown issues s Hc Hst)
    as [Hr Hl].
  auto.
Qed.


End ClientFacts.

Section ClientWitnesses.
Import jira ghira Board Failing Scenario Clients.

Lemma direct_returns {S} (t : Tracker S) : transport_returns (direct t).
Proof. intros call s. exists (Some jiraclient.ok_response), None. reflexivity. Qed.

Lemma throttling_returns {S} (t : Tracker S) : transport_returns (throttling t).
Proof. intros call s. exists (Some jiraclient.ok_response), None. reflexivity. Qed.

Lemma reconcile_loop_survives_failures_witness :
  (transport_returns (throttling refusing)
   /\ create_answers (answers (throttling refusing))
   /\ statuses_known known)
  /\ result (run_client (throttling refusing) (reconcile_loop known issues0) tt)
     = inl tt
  /\ length (List.filter opens_turn
               (calls (run_client (throttling refusing)
                         (reconcile_loop known issues0) tt)))
     = length issues0
  /\ run_client (throttling refusing) (reconcile_loop known issues0) tt
     = run (answers (throttling refusing)) (reconcile_loop known issues0) tt.
Proof.
  split;
    [exact (conj (throttling_returns refusing)
              (conj refusing_create_answers known_statuses))|].
  exact (reconcile_loop_survives_failures (throttling refusing) known issues0 tt
           (throttling_returns refusing) refusing_create_answers known_statuses).
Defined.


End ClientWitnesses.

(** ** The process: what every schedule keeps true *)

Section GoroutineFacts.
Import team jira query ghira Index Shapes Pipeline.

Lemma fetch_turn_goes (f f' : Fetcher) :
  fetch_turn f = Goes f' -> ahead_fetch f' = ahead_fetch f.
Proof.
  destruct f as [url ex|batch res ex|]; cbn [fetch_turn].
  - destruct (String.eqb_spec url EmptyString) as [->|Hurl].
    + intros [= <-]. cbn [ahead_fetch]. now rewrite fetch_loop_done.
    + destruct ex as [|[| |res decoded] rest]; try discriminate.
      destruct (http.StatusCode res =? 200) eqn:Hst; [|discriminate].
      cbn [negb]. destruct decoded as [batch|]; [|discriminate].
      intros [= <-]. cbn [ahead_fetch].
      rewrite fetch_loop_page; [reflexivity|exact Hurl|now apply Z.eqb_eq].
  - destruct batch as [|issue rest].
    + intros [= <-]. cbn [ahead_fetch send_issues app].
      now destruct (fetch_stream _).
    + destruct (IsPR issue) eqn:Hpr; [|discriminate].
      intros [= <-]. cbn [ahead_fetch send_issues]. now rewrite Hpr.
  - discriminate.
Qed.

Lemma fetch_turn_fatal (f : Fetcher) (status : Z) :
  fetch_turn f = Fatal status ->
  status = 1 /\ ahead_fetch f = mkStream [] (ProcessExit 1).
Proof.
  destruct f as [url ex|batch res ex|]; cbn [fetch_turn].
  - destruct (String.eqb_spec url EmptyString) as [->|Hurl]; [discriminate|].
    destruct ex as [|bad rest]; [discriminate|].
    intros H. assert (Hbad : fatal bad = true /\ status = 1).
    { destruct bad as [| |res decoded]; try (injection H as <-; now split).
      simpl. destruct (negb (http.StatusCode res =? 200));
        [injection H as <-; now split|].
      destruct decoded; [discriminate|injection H as <-; now split]. }
    destruct Hbad as [Hbad ->]. split; [reflexivity|].
    cbn [ahead_fetch]. now rewrite fetch_loop_fatal.
  - destruct batch as [|issue rest]; [discriminate|].
    destruct (IsPR issue); discriminate.
  - discriminate.
Qed.

Lemma search_turn_goes (q q' : Searcher) :
  search_turn q = Goes q' -> ahead_search q' = ahead_search q.
Proof.
  destruct q as [last total replies|issues last total replies| |];
    cbn [search_turn]; try discriminate.
  - destruct (last <? total) eqn:Hlt; cbn [negb].
    + destruct replies as [|[err|issues res] rest]; try discriminate.
      destruct (status_accepted res) eqn:Hst; intros [= <-]; cbn [ahead_search].
      * rewrite search_loop_page by assumption. reflexivity.
      * rewrite (search_loop_stop _ _ _ _ LeftOpen); [reflexivity|exact Hlt|].
        simpl. now rewrite Hst.
    + intros [= <-]. cbn [ahead_search]. now rewrite search_loop_done.
  - destruct issues as [|issue rest]; [|discriminate].
    intros [= <-]. cbn [ahead_search app]. now destruct (search_stream _).
Qed.

Lemma search_turn_fatal (q : Searcher) (status : Z) :
  search_turn q = Fatal status ->
  status = 1 /\ ahead_search q = mkStream [] (ProcessExit 1).
Proof.
  destruct q as [last total replies|issues last total replies| |];
    cbn [search_turn]; try discriminate.
  - destruct (last <? total) eqn:Hlt; cbn [negb]; [|discriminate].
    destruct replies as [|[err|issues res] rest]; try discriminate.
    + intros [= <-]. split; [reflexivity|]. cbn [ahead_search].
      now rewrite (search_loop_stop _ _ _ _ (ProcessExit 1)).
    + destruct (status_accepted res); discriminate.
  - destruct issues; discriminate.
Qed.

Lemma stage_body_held (teamMembers : list Person) (issue : GithubIssue)
    (rest : list GithubIssue) :
  AssignedToTheTeam_loop (issue :: rest) teamMembers
  = held (Some (stage_body teamMembers issue))
      ++ AssignedToTheTeam_loop rest teamMembers.
Proof.
  unfold stage_body. simpl.
  destruct (PersonByGithubHandle teamMembers (Handle (Author issue)));
    destruct (PersonByGithubHandle teamMembers (Handle (Assignee _)));
    reflexivity.
Qed.

Lemma stage_body_open (teamMembers : list Person) (issue : GithubIssue) :
  stage_body teamMembers issue <> StageClosed.
Proof.
  unfold stage_body.
  destruct (PersonByGithubHandle teamMembers (Handle (Author issue)));
    destruct (PersonByGithubHandle teamMembers (Handle (Assignee _)));
    discriminate.
Qed.

Lemma alreadyKnown_loop_app_ret (a b : list Issue) (m m' : gmap Z knownIssue) :
  alreadyKnown_loop a m = Ret m' ->
  alreadyKnown_loop (a ++ b) m = alreadyKnown_loop b m'.
Proof.
  revert m. induction a as [|i a IH]; intros m; [now intros [= ->]|].
  simpl. destruct (Fields i) as [fields|]; [|discriminate].
  destruct (regexp.ghIssueNumberRegex_FindStringSubmatch (Summary fields))
    as [|w [|s1 l]]; try apply IH.
  destruct (strconv.Atoi s1) as [n [e|]]; [discriminate|apply IH].
Qed.

Lemma alreadyKnown_loop_app_halt (a b : list Issue) (m : gmap Z knownIssue)
    (stop : Stop) :
  alreadyKnown_loop a m = Halt stop ->
  alreadyKnown_loop (a ++ b) m = Halt stop.
Proof.
  revert m. induction a as [|i a IH]; intros m; [discriminate|].
  simpl. destruct (Fields i) as [fields|]; [|auto].
  destruct (regexp.ghIssueNumberRegex_FindStringSubmatch (Summary fields))
    as [|w [|s1 l]]; try apply IH.
  destruct (strconv.Atoi s1) as [n [e|]]; [auto|apply IH].
Qed.

Lemma alreadyKnown_loop_stops (issues : list Issue) (m : gmap Z knownIssue) :
  (exists m', alreadyKnown_loop issues m = Ret m')
  \/ alreadyKnown_loop issues m = Halt Panicked.
Proof.
  pose proof (alreadyKnown_loop_outcome issues m) as H.
  destruct (alreadyKnown_loop issues m) as [m'|stop| | |]; try contradiction.
  - left. eauto.
  - right. now destruct H as [-> _].
Qed.

End GoroutineFacts.

Section InvariantFacts.
Import team jira query ghira Index Shapes Pipeline.
Context {S : Type} (c : JiraClient S) (teamMembers : list Person)
  (fetched : Stream GithubIssue) (found : Stream Issue) (s0 : S).

Lemma prepend_nil {A} (r : Run S A) : prepend [] r = r.
Proof. now destruct r. Qed.

Lemma run_client_loop_app (known : gmap Z knownIssue)
    (a b : list GithubIssue) (s : S) :
  run_client c (reconcile_loop known (a ++ b)) s =
  match result (run_client c (reconcile_loop known a) s) with
  | inl _ =>
      prepend (calls (run_client c (reconcile_loop known a) s))
        (run_client c (reconcile_loop known b)
           (final (run_client c (reconcile_loop known a) s)))
  | inr st =>
      mkRun (calls (run_client c (reconcile_loop known a) s))
        (final (run_client c (reconcile_loop known a) s)) (inr st)
  end.
Proof.
  revert s. induction a as [|i a IH]; intros s.
  - simpl. now rewrite prepend_nil.
  - cbn [reconcile_loop app]. rewrite !run_client_bind.
    destruct (result (run_client c (reconcile_issue known i) s)) as [u|st];
      [|reflexivity].
    rewrite IH. cbn [result calls final].
    destruct (result (run_client c (reconcile_loop known a) _)) as [u'|st];
      unfold prepend; cbn [result calls final]; [|reflexivity].
    now rewrite app_assoc.
Qed.

(** The loop when, in the body for [issue], the calls [cs2] are made
    and [R] is what the rest of the body does. *)
Lemma run_client_loop_body (known : gmap Z knownIssue)
    (before : list GithubIssue) (issue : GithubIssue)
    (more : list GithubIssue) (cs1 cs2 : list Call) (s1 : S) (R : Run S unit) :
  run_client c (reconcile_loop known before) s0 = mkRun cs1 s1 (inl tt) ->
  run_client c (reconcile_issue known issue) s1 = prepend cs2 R ->
  run_client c (reconcile_loop known (before ++ issue :: more)) s0 =
  match result R with
  | inl _ =>
      prepend (cs1 ++ cs2 ++ calls R)
        (run_client c (reconcile_loop known more) (final R))
  | inr st => mkRun (cs1 ++ cs2 ++ calls R) (final R) (inr st)
  end.
Proof.
  intros H1 H2. rewrite run_client_loop_app, H1. cbn [result calls final].
  cbn [reconcile_loop]. rewrite run_client_bind, H2.
  unfold prepend. cbn [result calls final].
  destruct (result R) as [u|st]; cbn [result calls final]; [|reflexivity].
  now rewrite !app_assoc.
Qed.

(** The calls made so far are the first calls of the sequential loop
    over all the filtered issues. *)
Lemma reconciling_calls (known : gmap Z knownIssue) (p : Process S) :
  reconciling c teamMembers fetched s0 known p ->
  exists more,
    calls (run_client c (reconcile_loop known (filtered teamMembers fetched)) s0)
    = made p ++ more.
Proof.
  intros (delivered & _ & _ & <- & _ & _ & Hmain).
  destruct (at_main p) as [m|i m|m|m rest]; try contradiction.
  - destruct Hmain as [_ Hrun].
    rewrite run_client_loop_app, Hrun. cbn [result calls final prepend]. eauto.
  - destruct Hmain as (_ & before & issue & cs1 & s1 & cs2 & -> & H1 & -> & H2).
    rewrite <- !app_assoc. cbn [app].
    rewrite (run_client_loop_body _ _ _ _ _ _ _ _ H1 H2).
    destruct (result (run_client c rest (remote p)));
      cbn [calls prepend]; rewrite <- ?app_assoc;
      eexists; rewrite <- (app_assoc cs1 cs2); reflexivity.
Qed.

Lemma step_indexing (mv : Move) (p : Process S) :
  indexing fetched found s0 p ->
  invariant c teamMembers fetched found s0 (step c teamMembers mv p).
Proof.
  intros (Hst & Hmade & Hrem & Hf & Hq & done & m & Hloop & Hmain).
  destruct p as [f st q at_ s made_].
  cbn [stage made remote fetcher searcher at_main] in *. subst st made_ s.
  destruct mv; cbn [step fetcher stage searcher at_main remote made invariant].
  - (* the fetcher *)
    destruct (fetch_turn f) as [f'| |status] eqn:Hturn.
    + rewrite <- (fetch_turn_goes _ _ Hturn) in Hf. still_indexing done m.
    + still_indexing done m.
    + destruct (fetch_turn_fatal _ _ Hturn) as [-> Hfatal].
      left. right. split; [reflexivity|]. right. congruence.
  - (* the channel of the fetcher: no stage yet *)
    still_indexing done m.
  - (* the channel of the stage: main is not there yet *)
    destruct at_ as [m'|i m'|m'|m' rest]; try contradiction;
      still_indexing done m.
  - (* the search *)
    destruct (search_turn q) as [q'| |status] eqn:Hturn.
    + rewrite <- (search_turn_goes _ _ Hturn) in Hq, Hmain.
      still_indexing done m.
    + still_indexing done m.
    + destruct (search_turn_fatal _ _ Hturn) as [-> Hfatal].
      left. right. split; [reflexivity|]. left.
      rewrite <- Hq, Hfatal. reflexivity.
  - (* the channel of the search *)
    destruct at_ as [m'|i m'|m'|m' rest]; try contradiction;
      [|still_indexing done m].
    destruct Hmain as [-> Hsent].
    destruct q as [last total replies|[|issue issues] last total replies| |];
      try still_indexing done m.
    right. exists m. cbn [ahead_search sent ending] in *.
    rewrite app_nil_r in Hsent. subst done.
    split; [split; [now symmetry|exact Hloop]|].
    exists []. cbn [stage searcher held fetcher at_main made remote app].
    split; [discriminate|]. split; [reflexivity|].
    split; [now rewrite Hf|]. split; [now rewrite Hf|].
    split; [discriminate|]. split; reflexivity.
  - (* main *)
    destruct at_ as [m'|i m'|m'|m' rest]; try contradiction;
      [still_indexing done m|].
    destruct Hmain as [-> Hsent].
    destruct (alreadyKnown_loop_stops [i] m) as [[m' Hi]|Hi]; rewrite Hi.
    + left. unfold indexing. cbn [stage made remote fetcher searcher at_main].
      repeat (split; [assumption || reflexivity|]).
      exists (done ++ [i]), m'.
      split; [now rewrite (alreadyKnown_loop_app_ret _ _ _ _ Hloop)|].
      split; [reflexivity|]. now rewrite <- app_assoc.
    + left. left. split; [reflexivity|].
      rewrite <- Hsent, (alreadyKnown_loop_app_ret _ _ _ _ Hloop).
      now apply (alreadyKnown_loop_app_halt [i]).
Qed.

Lemma step_reconciling (mv : Move) (p : Process S) (known : gmap Z knownIssue) :
  index_complete found known ->
  reconciling c teamMembers fetched s0 known p ->
  invariant c teamMembers fetched found s0 (step c teamMembers mv p).
Proof.
  intros Hidx Hrec.
  pose proof (reconciling_calls known p Hrec) as Hcalls.
  destruct Hrec as (delivered & Hst & Hq & Hsent & Hend & Hclosed & Hmain).
  destruct p as [f st q at_ s made_].
  cbn [stage made remote fetcher searcher at_main] in *. subst q.
  destruct mv; cbn [step fetcher stage searcher at_main remote made invariant].
  - (* the fetcher *)
    destruct (fetch_turn f) as [f'| |status] eqn:Hturn.
    + rewrite <- (fetch_turn_goes _ _ Hturn) in Hsent, Hend.
      assert (Hclosed' : st = Some StageClosed -> f' = FetchClosed).
      { intros H. rewrite (Hclosed H) in Hturn. discriminate. }
      clear Hclosed. still_reconciling known delivered.
    + still_reconciling known delivered.
    + destruct (fetch_turn_fatal _ _ Hturn) as [-> Hfatal].
      right. exists known. split; [exact Hidx|]. right.
      split; [reflexivity|]. split; [|exact Hcalls].
      rewrite <- Hend, Hfatal. reflexivity.
  - (* the channel of the fetcher *)
    destruct st as [[|o|]|]; try still_reconciling known delivered.
    destruct f as [url ex|[|issue rest] res ex|];
      try still_reconciling known delivered.
    destruct (IsPR issue) eqn:Hpr; [still_reconciling known delivered|].
    right. exists known. split; [exact Hidx|]. exists delivered.
    cbn [stage made remote fetcher searcher at_main].
    split; [discriminate|]. split; [reflexivity|].
    cbn [ahead_fetch send_issues sent ending held app] in *.
    rewrite Hpr in Hsent. cbn [app] in Hsent.
    rewrite stage_body_held in Hsent.
    split; [exact Hsent|]. split; [exact Hend|].
    split; [|exact Hmain].
    intros [= H]. now apply stage_body_open in H.
  - (* the channel of the stage *)
    destruct at_ as [m|i m|m|m rest]; try contradiction;
      [|still_reconciling known delivered].
    destruct Hmain as [-> Hrun].
    destruct st as [[|o|]|]; try still_reconciling known delivered.
    + right. exists known. split; [exact Hidx|]. exists (delivered ++ [o]).
      cbn [stage made remote fetcher searcher at_main held app] in *.
      split; [discriminate|]. split; [reflexivity|].
      split; [now rewrite <- app_assoc|]. split; [exact Hend|].
      split; [discriminate|]. split; [reflexivity|].
      exists delivered, o, made_, s, [].
      split; [reflexivity|]. split; [exact Hrun|].
      split; [now rewrite app_nil_r|]. now rewrite prepend_nil.
    + right. exists known. split; [exact Hidx|]. left.
      rewrite (Hclosed eq_refl) in Hsent, Hend.
      cbn [ahead_fetch sent ending held app AssignedToTheTeam_loop] in *.
      rewrite !app_nil_r in Hsent. rewrite <- Hsent, Hrun.
      split; [reflexivity|]. intros _. now symmetry.
  - (* the search: it has returned *)
    still_reconciling known delivered.
  - (* the channel of the search: main is past it *)
    destruct at_ as [m|i m|m|m rest]; try contradiction;
      still_reconciling known delivered.
  - (* main *)
    destruct at_ as [m|i m|m|m rest]; try contradiction;
      [still_reconciling known delivered|].
    pose proof Hmain as Hbody. pose proof Hsent as Hsent0.
    destruct Hmain as (-> & before & issue & cs1 & s1 & cs2 & -> & H1 & -> & H2).
    rewrite <- !app_assoc in Hsent. cbn [app] in Hsent.
    pose proof (run_client_loop_body known before issue
                  (held st ++ AssignedToTheTeam_loop (sent (ahead_fetch f))
                                teamMembers)
                  cs1 cs2 s1 _ H1 H2) as Hfull.
    rewrite Hsent in Hfull. fold (filtered teamMembers fetched) in Hfull.
    destruct rest as [u|stop|key k|key id k|i k].
    + (* the body is over *)
      right. exists known. split; [exact Hidx|]. exists (before ++ [issue]).
      cbn [stage made remote fetcher searcher at_main].
      split; [exact Hst|]. split; [reflexivity|].
      split; [now rewrite <- !app_assoc|]. split; [exact Hend|].
      split; [exact Hclosed|]. split; [reflexivity|].
      pose proof (run_client_loop_body known before issue [] cs1 cs2 s1 _ H1 H2)
        as Hdone.
      cbn [run_client result calls final reconcile_loop] in Hdone.
      unfold prepend in Hdone. cbn [calls final result] in Hdone.
      rewrite Hdone, !app_nil_r. reflexivity.
    + (* the body panics *)
      right. exists known. split; [exact Hidx|]. left.
      cbn [run_client result calls final] in Hfull.
      rewrite Hfull, app_nil_r. split; [reflexivity|discriminate].
    + (* it lists the transitions *)
      cbn [next_call].
      destruct (on_GetTransitions (answers c) key s) as [r s'] eqn:Hon.
      cbn [run_client] in H2, Hfull.
      destruct (through c (GetTransitions key) s) eqn:Ht.
      * rewrite Hon in H2.
        right. exists known. split; [exact Hidx|]. exists (before ++ [issue]).
        cbn [stage made remote fetcher searcher at_main].
        repeat (split; [assumption || reflexivity|]).
        exists before, issue, cs1, s1, (cs2 ++ [GetTransitions key]).
        split; [reflexivity|]. split; [exact H1|].
        split; [now rewrite app_assoc|].
        rewrite H2. unfold prepend, after. cbn [calls final result].
        now rewrite <- app_assoc.
      * right. exists known. split; [exact Hidx|]. left.
        cbn [cut_short result calls final] in Hfull.
        rewrite Hfull, <- app_assoc. split; [reflexivity|discriminate].
      * still_reconciling known (before ++ [issue]).
    + (* it applies a transition *)
      cbn [next_call].
      destruct (on_DoTransition (answers c) key id s) as [r s'] eqn:Hon.
      cbn [run_client] in H2, Hfull.
      destruct (through c (DoTransition key id) s) eqn:Ht.
      * rewrite Hon in H2.
        right. exists known. split; [exact Hidx|]. exists (before ++ [issue]).
        cbn [stage made remote fetcher searcher at_main].
        repeat (split; [assumption || reflexivity|]).
        exists before, issue, cs1, s1, (cs2 ++ [DoTransition key id]).
        split; [reflexivity|]. split; [exact H1|].
        split; [now rewrite app_assoc|].
        rewrite H2. unfold prepend, after. cbn [calls final result].
        now rewrite <- app_assoc.
      * right. exists known. split; [exact Hidx|]. left.
        cbn [cut_short result calls final] in Hfull.
        rewrite Hfull, <- app_assoc. split; [reflexivity|discriminate].
      * still_reconciling known (before ++ [issue]).
    + (* it creates a ticket *)
      cbn [next_call].
      destruct (on_Create (answers c) i s) as [r s'] eqn:Hon.
      cbn [run_client] in H2, Hfull.
      destruct (through c (Create i) s) eqn:Ht.
      * rewrite Hon in H2.
        right. exists known. split; [exact Hidx|]. exists (before ++ [issue]).
        cbn [stage made remote fetcher searcher at_main].
        repeat (split; [assumption || reflexivity|]).
        exists before, issue, cs1, s1, (cs2 ++ [Create i]).
        split; [reflexivity|]. split; [exact H1|].
        split; [now rewrite app_assoc|].
        rewrite H2. unfold prepend, after. cbn [calls final result].
        now rewrite <- app_assoc.
      * right. exists known. split; [exact Hidx|]. left.
        cbn [cut_short result calls final] in Hfull.
        rewrite Hfull, <- app_assoc. split; [reflexivity|discriminate].
      * still_reconciling known (before ++ [issue]).
Qed.

Lemma step_invariant (mv : Move) (p : Process S) :
  invariant c teamMembers fetched found s0 (Running p) ->
  invariant c teamMembers fetched found s0 (step c teamMembers mv p).
Proof.
  intros [H|(known & Hidx & H)];
    [now apply step_indexing|now apply (step_reconciling mv p known)].
Qed.

Lemma exec_invariant (moves : list Move) (st : State S) :
  invariant c teamMembers fetched found s0 st ->
  invariant c teamMembers fetched found s0 (exec c teamMembers moves st).
Proof.
  revert st. induction moves as [|mv moves IH]; intros st H; [exact H|].
  destruct st as [p|r]; [|exact H].
  cbn [exec]. apply IH. now apply step_invariant.
Qed.

End InvariantFacts.

Section OriginFacts.
Import team jira query ghira Index Shapes Pipeline Origin.





Lemma team_members_none (people : list Person) :
  Forall (fun p => TeamMember p = false) people -> team_members people = [].
Proof. induction 1 as [|p rest Hp _ IH]; simpl; [reflexivity|now rewrite Hp]. Qed.

Lemma AssignedToTheTeam_loop_nobody (issues : list GithubIssue) :
  AssignedToTheTeam_loop issues [] = [].
Proof. induction issues as [|i rest IH]; simpl; [reflexivity|exact IH]. Qed.


Section CallOrigin.
Context {S : Type} (t : Tracker S).


End CallOrigin.

End OriginFacts.

(** ** main as a whole *)

Section MainFacts.
Import team jira query ghira Index Shapes Pipeline Origin.
Context {S : Type} (c : JiraClient S).

Lemma main_invariant (people : list Person) (github : list Exchange)
    (tracker : list SearchReply) (s : S) (moves : list Move) :
  invariant c (team_members people) (fetch_stream (fetchGitHubIssues github))
    (search_stream (SearchIssues tracker)) s
    (main c people github tracker s moves).
Proof.
  unfold main. apply exec_invariant. left. unfold indexing.
  cbn [stage made remote fetcher searcher at_main ahead_fetch ahead_search].
  repeat (split; [reflexivity|]). exists [], ∅. repeat split.
Qed.

(** What was asked of the tracker so far is the beginning of what the
    sequential loop asks. *)
Lemma main_calls (people : list Person) (github : list Exchange)
    (tracker : list SearchReply) (s : S) (moves : list Move) :
  calls_of (main c people github tracker s moves) = []
  \/ exists known more,
       index_complete (search_stream (SearchIssues tracker)) known
       /\ calls (run_client c
                   (reconcile_loop known
                      (filtered (team_members people)
                         (fetch_stream (fetchGitHubIssues github)))) s)
          = calls_of (main c people github tracker s moves) ++ more.
Proof.
  pose proof (main_invariant people github tracker s moves) as H.
  destruct (main c people github tracker s moves) as [p|r]; cbn [invariant calls_of] in *.
  - destruct H as [(_ & Hmade & _)|(known & Hidx & Hrec)]; [now left|].
    right. destruct (reconciling_calls _ _ _ _ _ _ Hrec) as [more Hmore].
    exists known, more. auto.
  - destruct H as [[[-> _]|[-> _]]|(known & Hidx & [[-> _]|(_ & _ & more & Hmore)])];
      try (now left); right.
    + exists known, []. split; [exact Hidx|]. now rewrite app_nil_r.
    + exists known, more. auto.
Qed.

(** C4, at a search answered 201 without an error: [SearchIssues] logs
    the status and returns; [close(issueCh)] is not reached and nothing
    was sent.  Whatever the schedule, the main goroutine then stays at
    the receive of line 502, with an empty index: the stage is never
    started and the tracker is never asked anything.  Of the goroutines
    only the fetcher can still end the process: that is when it reaches
    a [log.Fatalf] before it has an issue to send, and the process exits
    with status 1. *)
Theorem SearchIssues_unexpected_status_leaves_channel_open
    (issues : list Issue) (startAt total : Z) (rest : list SearchReply)
    (people : list Person) (github : list Exchange) (s : S)
    (moves : list Move) :
  search_stream
    (SearchIssues (SearchPage issues (jira.mkResponse 201 startAt total) :: rest))
    = mkStream [] LeftOpen
  /\ terminated
       (search_stream
          (SearchIssues
             (SearchPage issues (jira.mkResponse 201 startAt total) :: rest)))
     = false
  /\ match
       main c people github
         (SearchPage issues (jira.mkResponse 201 startAt total) :: rest) s moves
     with
     | Running p =>
         at_main p = IndexRange ∅ /\ stage p = None
         /\ made p = [] /\ remote p = s
     | Over r =>
         r = mkRun [] s (inr (Exited 1))
         /\ fetch_stream (fetchGitHubIssues github) = mkStream [] (ProcessExit 1)
     end.
Proof.
  split; [reflexivity|]. split; [reflexivity|].
  pose proof (main_invariant people github
                (SearchPage issues (jira.mkResponse 201 startAt total) :: rest)
                s moves) as H.
  destruct (main c people github _ s moves) as [p|r]; cbn [invariant] in H.
  - destruct H as [(Hst & Hmade & Hrem & _ & _ & done & m & Hloop & Hmain)
                  |(known & [Hend _] & _)]; [|discriminate].
    cbn [sent] in Hmain.
    destruct (at_main p) as [m'|i m'|m'|m' body]; try contradiction.
    + destruct Hmain as [-> Hdone].
      apply app_eq_nil in Hdone as [-> _]. injection Hloop as <-. auto.
    + destruct Hmain as [_ Hdone]. now destruct done.
  - destruct H as [[[_ Hp]|[-> [He|Hf]]]|(known & [Hend _] & _)];
      try discriminate.
    now split.
Qed.

(** X21.  [main] asks nothing of the tracker before the index is
    complete.  When the search does not close its channel (it failed, or
    left it open), or when the index loop panics, then whatever the
    schedule the stage of line 523 is never started, no transition is
    listed or applied and no ticket created, and [main] does not return:
    if the process ends, it is by a panic or a [log.Fatalf]. *)
Theorem main_waits_for_the_index (people : list Person)
    (github : list Exchange) (tracker : list SearchReply) (s : S)
    (moves : list Move) :
  ending (search_stream (SearchIssues tracker)) <> Closed
  \/ alreadyKnown_loop (sent (search_stream (SearchIssues tracker))) ∅
     = Halt Panicked ->
  match main c people github tracker s moves with
  | Running p => stage p = None /\ made p = [] /\ remote p = s
  | Over r => exists stop, r = mkRun [] s (inr stop)
  end.
Proof.
  intros Hnot.
  assert (Hno : forall known,
            ~ index_complete (search_stream (SearchIssues tracker)) known).
  { intros known [Hend Hloop]. destruct Hnot as [Hne|Hp]; [auto|congruence]. }
  pose proof (main_invariant people github tracker s moves) as H.
  destruct (main c people github tracker s moves) as [p|r]; cbn [invariant] in H.
  - destruct H as [(Hst & Hmade & Hrem & _)|(known & Hidx & _)]; [auto|].
    now destruct (Hno known).
  - destruct H as [[[-> _]|[-> _]]|(known & Hidx & _)]; eauto.
    now destruct (Hno known).
Qed.

(** X22.  With a roster in which nobody is a team member, no transition
    is listed or applied and no ticket is created, whatever the
    repository and the tracker hold and whatever the schedule.  (The
    search of line 502 runs all the same.) *)
Theorem main_without_team_members (people : list Person)
    (github : list Exchange) (tracker : list SearchReply) (s : S)
    (moves : list Move) :
  Forall (fun p => TeamMember p = false) people ->
  calls_of (main c people github tracker s moves) = [].
Proof.
  intros Hnone.
  destruct (main_calls people github tracker s moves)
    as [H|(known & more & _ & H)]; [exact H|].
  unfold filtered in H.
  rewrite (team_members_none people Hnone), AssignedToTheTeam_loop_nobody in H.
  cbn [reconcile_loop run_client calls] in H.
  symmetry in H. now apply app_eq_nil in H as [H _].
Qed.


(** X29.  The process against the sequential reading of the pipeline,
    whatever the schedule.  What was asked of the tracker so far is
    nothing, or the index loop got through the whole search, which closed
    its channel, and the calls are the first calls of the reconcile loop
    run in sequence over all the issues that pass the stage.  When [main]
    returns, the fetcher too has closed its channel and the run is
    exactly that sequential run. *)
Theorem main_follows_the_sequential_loop (people : list Person)
    (github : list Exchange) (tracker : list SearchReply) (s : S)
    (moves : list Move) :
  (calls_of (main c people github tracker s moves) = []
   \/ exists known more,
        ending (search_stream (SearchIssues tracker)) = Closed
        /\ alreadyKnown_loop (sent (search_stream (SearchIssues tracker))) ∅
           = Ret known
        /\ calls (run_client c
                    (reconcile_loop known
                       (sent (AssignedToTheTeam
                                (fetch_stream (fetchGitHubIssues github))
                                (team_members people)))) s)
           = calls_of (main c people github tracker s moves) ++ more)
  /\ (forall r,
        main c people github tracker s moves = Over r -> result r = inl tt ->
        ending (fetch_stream (fetchGitHubIssues github)) = Closed
        /\ exists known,
             ending (search_stream (SearchIssues tracker)) = Closed
             /\ alreadyKnown_loop (sent (search_stream (SearchIssues tracker))) ∅
                = Ret known
             /\ r = run_client c
                      (reconcile_loop known
                         (sent (AssignedToTheTeam
                                  (fetch_stream (fetchGitHubIssues github))
                                  (team_members people)))) s).
Proof.
  split.
  - destruct (main_calls people github tracker s moves)
      as [H|(known & more & [Hend Hloop] & H)]; [now left|].
    right. exists known, more. auto.
  - intros r Hr Hres.
    pose proof (main_invariant people github tracker s moves) as H.
    rewrite Hr in H. cbn [invariant] in H.
    destruct H as [[[-> _]|[-> _]]|(known & [Hend Hloop] & [[Hrun Hclosed]|(Hexit & _)])];
      try discriminate.
    + split; [now apply Hclosed|]. exists known. auto.
    + rewrite Hexit in Hres. discriminate.
Qed.

End MainFacts.

Section MainWitnesses.
Import team jira query ghira Index Pages Samples Clients.

Lemma main_waits_for_the_index_witness :
  (ending (search_stream (SearchIssues [search_created])) <> Closed
   \/ alreadyKnown_loop (sent (search_stream (SearchIssues [search_created]))) ∅
      = Halt Panicked)
  /\ match
       main (direct Failing.refusing) Roster.people [fetch_reply fetch_page2]
         [search_created] tt [Fetch; Search; Index; Hand; Go; Pass; Fetch]
     with
     | Running p => stage p = None /\ made p = [] /\ remote p = tt
     | Over r => exists stop, r = mkRun [] tt (inr stop)
     end.
Proof.
  assert (H : ending (search_stream (SearchIssues [search_created])) <> Closed
              \/ alreadyKnown_loop
                   (sent (search_stream (SearchIssues [search_created]))) ∅
                 = Halt Panicked) by (left; discriminate).
  split; [exact H|].
  exact (main_waits_for_the_index (direct Failing.refusing) Roster.people
           [fetch_reply fetch_page2] [search_created] tt
           [Fetch; Search; Index; Hand; Go; Pass; Fetch] H).
Defined.

Lemma main_without_team_members_witness :
  Forall (fun p => TeamMember p = false) Roster.people
  /\ calls_of (main (direct Failing.refusing) Roster.people
                 [fetch_reply fetch_page2] [search_reply search_page2] tt
                 [Fetch; Search; Index; Go; Search; Index; Hand; Pass; Fetch;
                  Fetch; Hand; Pass]) = [].
Proof.
  assert (H : Forall (fun p => TeamMember p = false) Roster.people)
    by (repeat constructor).
  split; [exact H|].
  exact (main_without_team_members (direct Failing.refusing) Roster.people
           [fetch_reply fetch_page2] [search_reply search_page2] tt
           [Fetch; Search; Index; Go; Search; Index; Hand; Pass; Fetch;
            Fetch; Hand; Pass] H).
Defined.

Lemma main_follows_the_sequential_loop_witness :
  let dev := mkPerson "dev" "dev" "dev@corp" "U09" true false [] in
  let github := [Answered unlinked
                   (Some [entry 1 "first" "open" None; pull_request;
                          entry 3 "third" "closed" None])] in
  let tracker := [SearchPage [ticket "OSASINFRA-1" "GH-orc-1: first" "Closed"]
                    (jira.mkResponse 200 0 1)] in
  let moves := [Fetch; Search; Index; Go; Search; Search; Index; Hand; Pass;
                Go; Fetch; Hand; Go; Go; Pass; Go; Go; Fetch; Fetch; Hand;
                Pass] in
  let r := mkRun [GetTransitions "OSASINFRA-1";
                  DoTransition "OSASINFRA-1" "11";
                  Create (new_issue
                            (set_Assignee_JiraUsername
                               (entry 3 "third" "closed" None) "dev@corp"))]
             tt (inl tt) in
  (main (direct Failing.refusing) [dev] github tracker tt moves = Over r
   /\ result r = inl tt)
  /\ ending (fetch_stream (fetchGitHubIssues github)) = Closed
  /\ exists known,
       ending (search_stream (SearchIssues tracker)) = Closed
       /\ alreadyKnown_loop (sent (search_stream (SearchIssues tracker))) ∅
          = Ret known
       /\ r = run_client (direct Failing.refusing)
                (reconcile_loop known
                   (sent (AssignedToTheTeam
                            (fetch_stream (fetchGitHubIssues github))
                            (team_members [dev])))) tt.
Proof.
  intros dev github tracker moves r.
  assert (H1 : main (direct Failing.refusing) [dev] github tracker tt moves
               = Over r) by (vm_compute; reflexivity).
  assert (H2 : result r = inl tt) by reflexivity.
  split; [exact (conj H1 H2)|].
  exact (proj2 (main_follows_the_sequential_loop (direct Failing.refusing)
                  [dev] github tracker tt moves) r H1 H2).
Defined.

End MainWitnesses.


(** ** The filter/resolve stage once more *)

Section FilterFacts.
Import team ghira Filter.

Lemma resolved_again (teamMembers : list Person) (i : GithubIssue) :
  resolved teamMembers (resolved teamMembers i) = resolved teamMembers i.
Proof.
  unfold resolved, username. simpl.
  destruct (PersonByGithubHandle teamMembers (Handle (Author i)));
    destruct (PersonByGithubHandle teamMembers (Handle (Assignee i)));
    reflexivity.
Qed.

Lemma assignee_resolves_resolved (teamMembers : list Person) (i : GithubIssue) :
  assignee_resolves teamMembers (resolved teamMembers i)
  = assignee_resolves teamMembers i.
Proof. reflexivity. Qed.

Lemma filter_resolve_again (issues : list GithubIssue) (teamMembers : list Person) :
  filter_resolve (filter_resolve issues teamMembers) teamMembers
  = filter_resolve issues teamMembers.
Proof.
  unfold filter_resolve.
  induction issues as [|i rest IH]; simpl; [reflexivity|].
  destruct (assignee_resolves teamMembers i) eqn:Hi; [|exact IH].
  simpl. rewrite assignee_resolves_resolved, Hi. simpl.
  now rewrite resolved_again, IH.
Qed.

(** X24.  The stage changes nothing but the two usernames and keeps the
    order: the numbers it sends are a subsequence of the numbers it
    received, each issue sent has the title, body, address, status and
    handles it came with; and passing its output through the stage again,
    with the same roster, gives the same output. *)
Theorem AssignedToTheTeam_stable (issues : Stream GithubIssue)
    (teamMembers : list Person) :
  AssignedToTheTeam (AssignedToTheTeam issues teamMembers) teamMembers
    = AssignedToTheTeam issues teamMembers
  /\ sublist (map Number (sent (AssignedToTheTeam issues teamMembers)))
       (map Number (sent issues))
  /\ Forall (fun o => exists i,
               i ∈ sent issues
               /\ Title o = Title i /\ Body o = Body i /\ URL o = URL i
               /\ Number o = Number i /\ Status o = Status i /\ IsPR o = IsPR i
               /\ Handle (Author o) = Handle (Author i)
               /\ Handle (Assignee o) = Handle (Assignee i))
       (sent (AssignedToTheTeam issues teamMembers)).
Proof.
  unfold AssignedToTheTeam. cbn [sent ending].
  rewrite !AssignedToTheTeam_loop_refines, filter_resolve_again.
  split; [reflexivity|]. unfold filter_resolve.
  generalize (sent issues). intros l. split.
  - induction l as [|i rest IH]; simpl; [constructor|].
    destruct (assignee_resolves teamMembers i); simpl.
    + now apply sublist_skip.
    + now apply sublist_cons.
  - induction l as [|i rest IH]; simpl; [constructor|].
    assert (Hrest : Forall (fun o => exists i0,
               i0 ∈ i :: rest
               /\ Title o = Title i0 /\ Body o = Body i0 /\ URL o = URL i0
               /\ Number o = Number i0 /\ Status o = Status i0 /\ IsPR o = IsPR i0
               /\ Handle (Author o) = Handle (Author i0)
               /\ Handle (Assignee o) = Handle (Assignee i0))
             (map (resolved teamMembers)
                (List.filter (assignee_resolves teamMembers) rest))).
    { eapply Forall_impl; [exact IH|]. intros o (i0 & Hin & H).
      exists i0. split; [now constructor|exact H]. }
    destruct (assignee_resolves teamMembers i); simpl; [|exact Hrest].
    constructor; [|exact Hrest].
    exists i. split; [constructor|]. repeat split.
Qed.

(** X25.  The earlier revision of the stage (main.go lines 57-78, with
    the roster of team.go): no issue it returns is a pull request, and
    every issue it returns has a non-empty Jira username for its
    assignee, since a lookup that yields the empty name, as for a roster
    entry without a Jira name, counts as not found. *)
Theorem legacy_AssignedToTheTeam_keeps (issues : list GithubIssue)
    (members : list legacy.TeamMember) :
  Forall (fun o => IsPR o = None /\ JiraUsername (Assignee o) <> EmptyString)
    (legacy.AssignedToTheTeam issues members).
Proof.
  induction issues as [|i rest IH]; simpl; [constructor|].
  destruct (IsPR i) eqn:Hpr; [exact IH|].
  destruct (String.eqb (legacy.JiraUsernameByGithubHandle members
                          (Handle (Author i))) EmptyString); simpl;
    destruct (String.eqb_spec (legacy.JiraUsernameByGithubHandle members
                                 (Handle (Assignee i))) EmptyString);
    try exact IH; constructor; auto.
Qed.

End FilterFacts.

(** ** Picking the transitions *)

Section PickFacts.
Import jira ghira.

Lemma pick_transitions_app (ts1 ts2 : list Transition) (acc : string * string) :
  pick_transitions (ts1 ++ ts2) acc
  = pick_transitions ts2 (pick_transitions ts1 acc).
Proof.
  revert acc. induction ts1 as [|v rest IH]; intros acc; [reflexivity|].
  simpl. apply IH.
Qed.

(** X26.  Which ids the reconciler picks among the transitions the
    tracker lists.  When no transition is named "Closed" (or "To Do"),
    the id stays empty; when several are, the last one listed gives the
    id; and transitions under other names play no part. *)
Theorem pick_transitions_last (before after : list Transition) (tr : Transition) :
  (Forall (fun v => Transition_Name v <> "Closed") after ->
   Transition_Name tr = "Closed" ->
   snd (pick_transitions (before ++ tr :: after) (EmptyString, EmptyString))
   = ID tr)
  /\ (Forall (fun v => Transition_Name v <> "To Do") after ->
      Transition_Name tr = "To Do" ->
      fst (pick_transitions (before ++ tr :: after) (EmptyString, EmptyString))
      = ID tr)
  /\ (Forall (fun v => Transition_Name v <> "Closed"
                       /\ Transition_Name v <> "To Do") (before ++ tr :: after) ->
      pick_transitions (before ++ tr :: after) (EmptyString, EmptyString)
      = (EmptyString, EmptyString)).
Proof.
  split; [|split].
  - intros Hafter Hname. rewrite pick_transitions_app. simpl.
    rewrite pick_transitions_closed
      by (intros v Hin; rewrite Forall_forall in Hafter; now apply Hafter).
    now rewrite Hname.
  - intros Hafter Hname. rewrite pick_transitions_app. simpl.
    rewrite pick_transitions_todo
      by (intros v Hin; rewrite Forall_forall in Hafter; now apply Hafter).
    now rewrite Hname.
  - intros Hall. rewrite Forall_forall in Hall.
    apply injective_projections.
    + rewrite pick_transitions_todo; [reflexivity|].
      intros v Hin. now apply Hall.
    + rewrite pick_transitions_closed; [reflexivity|].
      intros v Hin. now apply Hall.
Qed.

Lemma pick_transitions_last_witness :
  (Forall (fun v => Transition_Name v <> "Closed")
     [mkTransition "41" "Reopen"]
   /\ Transition_Name (mkTransition "32" "Closed") = "Closed")
  /\ snd (pick_transitions
            ([mkTransition "31" "Closed"; mkTransition "11" "To Do"]
             ++ mkTransition "32" "Closed" :: [mkTransition "41" "Reopen"])
            (EmptyString, EmptyString))
     = ID (mkTransition "32" "Closed").
Proof.
  assert (H1 : Forall (fun v => Transition_Name v <> "Closed")
                 [mkTransition "41" "Reopen"])
    by (repeat constructor; discriminate).
  assert (H2 : Transition_Name (mkTransition "32" "Closed") = "Closed")
    by reflexivity.
  split; [exact (conj H1 H2)|].
  exact (proj1 (pick_transitions_last
                  [mkTransition "31" "Closed"; mkTransition "11" "To Do"]
                  [mkTransition "41" "Reopen"] (mkTransition "32" "Closed"))
           H1 H2).
Defined.

End PickFacts.

(** ** The earlier roster is a map *)

Section LegacyOrder.
Import ghira.

(** In the earlier revision the roster is a Go map, and [range] visits
    its entries in an order that differs from one loop to the next.  The
    lookup does not depend on that order as long as no two entries share
    a Github handle. *)
Lemma legacy_lookup_order (t t' : list legacy.TeamMember) (h : string) :
  NoDup (map legacy.GithubHandle t) -> t ≡ₚ t' ->
  legacy.JiraUsernameByGithubHandle t h
  = legacy.JiraUsernameByGithubHandle t' h.
Proof.
  intros Hnd Hperm. induction Hperm as [|x l l' Hp IH|x y l|l l' l'' Hp1 IH1 Hp2 IH2].
  - reflexivity.
  - simpl. rewrite IH; [reflexivity|]. simpl in Hnd. now apply NoDup_cons_1_2 in Hnd.
  - simpl.
    destruct (String.eqb_spec (legacy.GithubHandle x) h) as [Hx|Hx];
      destruct (String.eqb_spec (legacy.GithubHandle y) h) as [Hy|Hy];
      try reflexivity.
    exfalso. simpl in Hnd. apply NoDup_cons_1_1 in Hnd.
    apply Hnd. rewrite Hy, <- Hx. now left.
  - rewrite IH1 by exact Hnd. apply IH2.
    now rewrite <- Hp1.
Qed.

(** X27.  The earlier stage gives the same result in whatever order the
    entries of the roster are visited, provided that no two entries have
    the same Github handle. *)
Theorem legacy_AssignedToTheTeam_order (issues : list GithubIssue)
    (members members' : list legacy.TeamMember) :
  NoDup (map legacy.GithubHandle members) -> members ≡ₚ members' ->
  legacy.AssignedToTheTeam issues members
  = legacy.AssignedToTheTeam issues members'.
Proof.
  intros Hnd Hperm.
  induction issues as [|i rest IH]; simpl; [reflexivity|].
  rewrite !(legacy_lookup_order members members') by assumption.
  rewrite IH. reflexivity.
Qed.

(** With two entries under one handle the order shows: the same issue is
    assigned to either name. *)
Lemma legacy_lookup_order_shows :
  let a := legacy.mkTeamMember "dev" "dev-one" in
  let b := legacy.mkTeamMember "dev" "dev-two" in
  [a; b] ≡ₚ [b; a]
  /\ legacy.JiraUsernameByGithubHandle [a; b] "dev"
     <> legacy.JiraUsernameByGithubHandle [b; a] "dev".
Proof.
  split; [apply Permutation_swap|discriminate].
Qed.

Lemma legacy_AssignedToTheTeam_order_witness :
  let members := [legacy.mkTeamMember "dev" "dev@corp";
                  legacy.mkTeamMember "reporter" "reporter@corp"] in
  let members' := [legacy.mkTeamMember "reporter" "reporter@corp";
                   legacy.mkTeamMember "dev" "dev@corp"] in
  let issues := [Pages.entry 1 "first" "open" None; Samples.pull_request] in
  (NoDup (map legacy.GithubHandle members) /\ members ≡ₚ members')
  /\ legacy.AssignedToTheTeam issues members
     = legacy.AssignedToTheTeam issues members'.
Proof.
  assert (H1 : NoDup (map legacy.GithubHandle
                        [legacy.mkTeamMember "dev" "dev@corp";
                         legacy.mkTeamMember "reporter" "reporter@corp"]))
    by (apply (bool_decide_unpack _); vm_compute; exact I).
  assert (H2 : [legacy.mkTeamMember "dev" "dev@corp";
                legacy.mkTeamMember "reporter" "reporter@corp"]
               ≡ₚ [legacy.mkTeamMember "reporter" "reporter@corp";
                   legacy.mkTeamMember "dev" "dev@corp"])
    by apply Permutation_swap.
  split; [exact (conj H1 H2)|].
  exact (legacy_AssignedToTheTeam_order
           [Pages.entry 1 "first" "open" None; Samples.pull_request] _ _ H1 H2).
Defined.

End LegacyOrder.
